(** * ChessLM rules engine (chess_logic.py): a shallow embedding and its properties

    The engine is embedded by value.  A piece object carries a kind, a colour
    and the mutable [has_moved] flag; [Board.setup_pieces] and the promotion
    branch of [Board.make_move] create every piece object afresh and a move
    only relocates references, so no piece object is held by two cells and a
    grid of piece values stands for the grid of references.  The one place
    where aliasing is the point, the scratch copy taken by
    [get_all_legal_moves_for_player], is modelled a second time over an
    explicit object store in module [Heap]. *)

From Stdlib Require Import ZArith List String Ascii Bool Lia DecimalString.
From stdpp Require Import base option list gmap.
Import ListNotations.

Local Open Scope string_scope.
Local Open Scope list_scope.
Local Open Scope Z_scope.

(** ** Python list indexing *)

(** [l[i]]: a negative index counts from the end, an index outside
    [-len, len) raises IndexError ([None]). *)
Definition py_index {A} (l : list A) (i : Z) : option nat :=
  let n := Z.of_nat (length l) in
  if (0 <=? i) && (i <? n) then Some (Z.to_nat i)
  else if (- n <=? i) && (i <? 0) then Some (Z.to_nat (n + i))
  else None.

Definition getitem {A} (l : list A) (i : Z) : option A :=
  n ← py_index l i; l !! n.

(** [l[i] = v]. *)
Definition setitem {A} (l : list A) (i : Z) (v : A) : option (list A) :=
  n ← py_index l i; Some (<[n := v]> l).

(** ** Pieces *)

Inductive Color := W | B.
Inductive Kind := Pawn | Rook | Knight | Bishop | Queen | King.

Record Piece := mkPiece { kind : Kind; color : Color; has_moved : bool }.

(** [Piece.__init__] leaves [has_moved] at [False]. *)
Definition new_piece (k : Kind) (c : Color) : Piece := mkPiece k c false.

Definition color_eqb (a b : Color) : bool :=
  match a, b with W, W | B, B => true | _, _ => false end.

Definition kind_eqb (a b : Kind) : bool :=
  match a, b with
  | Pawn, Pawn | Rook, Rook | Knight, Knight
  | Bishop, Bishop | Queen, Queen | King, King => true
  | _, _ => false
  end.

Definition symbol_char (k : Kind) : ascii :=
  match k with
  | Pawn => "P" | Rook => "R" | Knight => "N"
  | Bishop => "B" | Queen => "Q" | King => "K"
  end%char.

Definition ascii_lower (a : ascii) : ascii :=
  let n := nat_of_ascii a in
  if (Nat.leb 65 n && Nat.leb n 90)%bool then ascii_of_nat (n + 32) else a.

Definition ascii_upper (a : ascii) : ascii :=
  let n := nat_of_ascii a in
  if (Nat.leb 97 n && Nat.leb n 122)%bool then ascii_of_nat (n - 32) else a.

Fixpoint upper (s : string) : string :=
  match s with
  | EmptyString => EmptyString
  | String a s' => String (ascii_upper a) (upper s')
  end.

(** [Piece.symbol]: upper case for White, lower case for Black. *)
Definition symbol (p : Piece) : ascii :=
  match color p with
  | W => ascii_upper (symbol_char (kind p))
  | B => ascii_lower (symbol_char (kind p))
  end.

Definition opponent (c : Color) : Color :=
  match c with W => B | B => W end.

(** ** Squares and grids *)

Abbreviation Square := (Z * Z)%type.

Definition sq_eqb (a b : Square) : bool :=
  (fst a =? fst b) && (snd a =? snd b).

Definition sq_mem (s : Square) (l : list Square) : bool :=
  existsb (sq_eqb s) l.

Abbreviation Grid := (list (list (option Piece))).

(** [0 <= r <= 7 and 0 <= c <= 7]. *)
Definition in_bounds (r c : Z) : bool :=
  (0 <=? r) && (r <=? 7) && (0 <=? c) && (c <=? 7).

(** [board_state[r][c]] where the source has already established
    [0 <= r, c <= 7] (loop variables over [range(8)], constants, or a
    preceding bounds test) on the 8x8 grid that [Board.__init__] builds. *)
Definition cell (b : Grid) (r c : Z) : option Piece :=
  nth (Z.to_nat c) (nth (Z.to_nat r) b []) None.

(** [b[r][c]] and [b[r][c] = v] with arbitrary indices. *)
Definition getitem2 (b : Grid) (r c : Z) : option (option Piece) :=
  row ← getitem b r; getitem row c.

Definition setitem2 (b : Grid) (r c : Z) (v : option Piece) : option Grid :=
  row ← getitem b r; row' ← setitem row c v; setitem b r row'.

Definition range8 : list Z := [0; 1; 2; 3; 4; 5; 6; 7].
Definition range1_8 : list Z := [1; 2; 3; 4; 5; 6; 7].

Definition is_none {A} (o : option A) : bool :=
  match o with None => true | Some _ => false end.

Definition is_kind (k : Kind) (o : option Piece) : bool :=
  match o with Some p => kind_eqb (kind p) k | None => false end.

(** ** Piece move shapes *)

Definition direction (c : Color) : Z :=
  match c with W => -1 | B => 1 end.

(** [Pawn.get_possible_moves]. *)
Definition pawn_moves (self : Piece) (r c : Z) (b : Grid)
    (en_passant_target : option Square) : list Square :=
  let d := direction (color self) in
  let forward :=
    if (0 <=? r + d) && (r + d <=? 7) && is_none (cell b (r + d) c) then
      (r + d, c) ::
      (if negb (has_moved self) && (0 <=? r + 2 * d) && (r + 2 * d <=? 7)
          && is_none (cell b (r + 2 * d) c) && is_none (cell b (r + d) c)
       then [(r + 2 * d, c)] else [])
    else [] in
  forward ++
  flat_map (fun dc =>
    let nr := r + d in
    let nc := c + dc in
    if in_bounds nr nc then
      (match cell b nr nc with
       | Some target_piece =>
           if negb (color_eqb (color target_piece) (color self))
           then [(nr, nc)] else []
       | None => []
       end) ++
      (match en_passant_target with
       | Some e => if sq_eqb (nr, nc) e then [(nr, nc)] else []
       | None => []
       end)
    else []) [-1; 1].

(** The inner loop of [Rook.get_possible_moves] and
    [Bishop.get_possible_moves]: walk [i] over the remaining steps of one
    direction until the edge, an own piece (excluded) or an enemy piece
    (included). *)
Fixpoint ray (own : Color) (b : Grid) (r c dr dc : Z) (steps : list Z)
    : list Square :=
  match steps with
  | [] => []
  | i :: rest =>
      let nr := r + dr * i in
      let nc := c + dc * i in
      if negb (in_bounds nr nc) then []
      else match cell b nr nc with
           | None => (nr, nc) :: ray own b r c dr dc rest
           | Some target_piece =>
               if negb (color_eqb (color target_piece) own)
               then [(nr, nc)] else []
           end
  end.

Definition slide (own : Color) (b : Grid) (r c : Z) (dirs : list (Z * Z))
    : list Square :=
  flat_map (fun d => ray own b r c (fst d) (snd d) range1_8) dirs.

Definition rook_directions : list (Z * Z) := [(0, 1); (0, -1); (1, 0); (-1, 0)].
Definition bishop_directions : list (Z * Z) := [(1, 1); (1, -1); (-1, 1); (-1, -1)].

Definition rook_moves (own : Color) (r c : Z) (b : Grid) : list Square :=
  slide own b r c rook_directions.

Definition bishop_moves (own : Color) (r c : Z) (b : Grid) : list Square :=
  slide own b r c bishop_directions.

(** [Queen.get_possible_moves]: a fresh Rook and a fresh Bishop of the
    queen's colour are asked for their moves. *)
Definition queen_moves (own : Color) (r c : Z) (b : Grid) : list Square :=
  rook_moves own r c b ++ bishop_moves own r c b.

(** The offset loop shared by [Knight.get_possible_moves] and the first
    part of [King.get_possible_moves]. *)
Definition step_moves (own : Color) (b : Grid) (r c : Z)
    (offsets : list (Z * Z)) : list Square :=
  flat_map (fun d =>
    let nr := r + fst d in
    let nc := c + snd d in
    if in_bounds nr nc then
      match cell b nr nc with
      | None => [(nr, nc)]
      | Some target_piece =>
          if negb (color_eqb (color target_piece) own) then [(nr, nc)] else []
      end
    else []) offsets.

Definition knight_offsets : list (Z * Z) :=
  [(2, 1); (2, -1); (-2, 1); (-2, -1); (1, 2); (1, -2); (-1, 2); (-1, -2)].

Definition king_offsets : list (Z * Z) :=
  [(0, 1); (0, -1); (1, 0); (-1, 0); (1, 1); (1, -1); (-1, 1); (-1, -1)].

Definition knight_moves (own : Color) (r c : Z) (b : Grid) : list Square :=
  step_moves own b r c knight_offsets.

(** [piece.get_possible_moves(r, c, board_state)], the three-argument call:
    a Pawn's [en_passant_target] and a King's [game_context] default to
    [None], so the King offers no castling move here. *)
Definition get_possible_moves (self : Piece) (r c : Z) (b : Grid)
    : list Square :=
  match kind self with
  | Rook => rook_moves (color self) r c b
  | Knight => knight_moves (color self) r c b
  | Bishop => bishop_moves (color self) r c b
  | Queen => queen_moves (color self) r c b
  | Pawn => pawn_moves self r c b None
  | King => step_moves (color self) b r c king_offsets
  end.

(** ** Board *)

Definition back_rank_pieces : list Kind :=
  [Rook; Knight; Bishop; Queen; King; Bishop; Knight; Rook].

(** [Board.__init__] with [Board.setup_pieces]. *)
Definition initial_grid : Grid :=
  let empty_row : list (option Piece) := repeat None 8 in
  [ map (fun k => Some (new_piece k B)) back_rank_pieces;
    repeat (Some (new_piece Pawn B)) 8;
    empty_row; empty_row; empty_row; empty_row;
    repeat (Some (new_piece Pawn W)) 8;
    map (fun k => Some (new_piece k W)) back_rank_pieces ].

(** [Board.get_piece]. *)
Definition get_piece (b : Grid) (r c : Z) : option Piece :=
  if in_bounds r c then cell b r c else None.

(** ** Game state *)

Inductive Side := SideK | SideQ.

(** [castling_rights = {'W': {'K', 'Q'}, 'B': {'K', 'Q'}}]. *)
Record CastlingRights := mkRights { WK : bool; WQ : bool; BK : bool; BQ : bool }.

Definition rights_get (cr : CastlingRights) (c : Color) (s : Side) : bool :=
  match c, s with
  | W, SideK => WK cr | W, SideQ => WQ cr
  | B, SideK => BK cr | B, SideQ => BQ cr
  end.

(** [castling_rights[c][s] = False]. *)
Definition rights_clear (cr : CastlingRights) (c : Color) (s : Side)
    : CastlingRights :=
  match c, s with
  | W, SideK => mkRights false (WQ cr) (BK cr) (BQ cr)
  | W, SideQ => mkRights (WK cr) false (BK cr) (BQ cr)
  | B, SideK => mkRights (WK cr) (WQ cr) false (BQ cr)
  | B, SideQ => mkRights (WK cr) (WQ cr) (BK cr) false
  end.

Record ChessGame := mkGame {
  board : Grid;
  current_player : Color;
  castling_rights : CastlingRights;
  en_passant_target : option Square;
  halfmove_clock : Z;
  fullmove_number : Z;
  status_message : string;
  game_over_message : option string
}.

(** [ChessGame.__init__]. *)
Definition new_game : ChessGame :=
  mkGame initial_grid W (mkRights true true true true) None 0 1
         "White's turn." None.

(** ** Attack and check detection *)

(** The squares in the order of [for r in range(8): for c in range(8)]. *)
Definition all_squares : list Square :=
  flat_map (fun r => map (fun c => (r, c)) range8) range8.

(** [ChessGame.find_king]: the first King of the colour in scan order. *)
Definition find_king (clr : Color) (b : Grid) : option Square :=
  List.find (fun s =>
    match cell b (fst s) (snd s) with
    | Some piece => kind_eqb (kind piece) King && color_eqb (color piece) clr
    | None => false
    end) all_squares.

(** The body of the double loop of [is_square_attacked] for the piece on
    [(r_idx, c_idx)]: does it make the function return [True]? *)
Definition attacks_from (b : Grid) (attacker_color : Color)
    (r_target c_target r_idx c_idx : Z) : bool :=
  match cell b r_idx c_idx with
  | Some piece =>
      if color_eqb (color piece) attacker_color then
        match kind piece with
        | Pawn =>
            (r_idx + direction (color piece) =? r_target)
            && ((c_idx + 1 =? c_target) || (c_idx - 1 =? c_target))
        | King =>
            let raw_moves :=
              flat_map (fun d =>
                let nr_k := r_idx + fst d in
                let nc_k := c_idx + snd d in
                if (nr_k =? r_target) && (nc_k =? c_target)
                then [(nr_k, nc_k)] else []) king_offsets in
            sq_mem (r_target, c_target) raw_moves
        | _ => sq_mem (r_target, c_target) (get_possible_moves piece r_idx c_idx b)
        end
      else false
  | None => false
  end.

(** [ChessGame.is_square_attacked]: the scan returns [True] at the first
    attacking piece. *)
Definition is_square_attacked (r_target c_target : Z) (attacker_color : Color)
    (b : Grid) : bool :=
  existsb (fun r_idx =>
    existsb (fun c_idx =>
      attacks_from b attacker_color r_target c_target r_idx c_idx) range8)
    range8.

(** [ChessGame.is_in_check]: a missing King counts as being in check. *)
Definition is_in_check (clr : Color) (b : Grid) : bool :=
  match find_king clr b with
  | None => true
  | Some king_pos => is_square_attacked (fst king_pos) (snd king_pos) (opponent clr) b
  end.

(** ** Castling eligibility *)

Definition home_row (clr : Color) : Z :=
  match clr with W => 7 | B => 0 end.

(** [ChessGame.can_castle]; [side] is always ['K'] or ['Q'] at the call
    sites, the source answers [False] for anything else. *)
Definition can_castle (g : ChessGame) (clr : Color) (side : Side) (b : Grid)
    (check_intermediate_squares_attack : bool) : bool :=
  if is_in_check clr b then false else
  let king_r := home_row clr in
  let king_c := 4 in
  match cell b king_r king_c with
  | None => false
  | Some king =>
    if negb (kind_eqb (kind king) King) || has_moved king
       || negb (color_eqb (color king) clr) then false else
    let flag := rights_get (castling_rights g) clr side in
    let rook_c_orig := match side with SideK => 7 | SideQ => 0 end in
    let path_squares_to_check_empty :=
      match side with
      | SideK => [(king_r, king_c + 1); (king_r, king_c + 2)]
      | SideQ => [(king_r, king_c - 1); (king_r, king_c - 2); (king_r, king_c - 3)]
      end in
    let squares_king_traverses_for_attack_check :=
      match side with
      | SideK => [(king_r, king_c + 1); (king_r, king_c + 2)]
      | SideQ => [(king_r, king_c - 1); (king_r, king_c - 2)]
      end in
    if negb flag then false else
    match cell b king_r rook_c_orig with
    | None => false
    | Some rook =>
      if negb (kind_eqb (kind rook) Rook) || has_moved rook
         || negb (color_eqb (color rook) clr) then false else
      if negb (forallb (fun s => is_none (cell b (fst s) (snd s)))
                 path_squares_to_check_empty) then false else
      if check_intermediate_squares_attack then
        forallb (fun s => negb (is_square_attacked (fst s) (snd s) (opponent clr) b))
          squares_king_traverses_for_attack_check
      else true
    end
  end.

(** [King.get_possible_moves] with a game context: the adjacent squares,
    then the two castling pseudo-moves. *)
Definition king_moves (self : Piece) (r c : Z) (b : Grid)
    (game_context : option ChessGame) : list Square :=
  step_moves (color self) b r c king_offsets ++
  match game_context with
  | Some g =>
      if negb (has_moved self) then
        (if can_castle g (color self) SideK b false then [(r, c + 2)] else []) ++
        (if can_castle g (color self) SideQ b false then [(r, c - 2)] else [])
      else []
  | None => []
  end.

(** ** Pseudo-legal and legal moves *)

Abbreviation Move := (Square * Square)%type.

Definition move_eqb (a b : Move) : bool :=
  sq_eqb (fst a) (fst b) && sq_eqb (snd a) (snd b).

Definition move_mem (m : Move) (l : list Move) : bool := existsb (move_eqb m) l.

(** [ChessGame.get_all_possible_moves_for_player]. *)
Definition get_all_possible_moves_for_player (g : ChessGame) (clr : Color)
    (board_state : option Grid) (check_castling_rights_in_king : bool)
    : list Move :=
  let b := match board_state with Some b => b | None => board g end in
  let current_en_passant_target :=
    match board_state with None => en_passant_target g | Some _ => None end in
  flat_map (fun r =>
    flat_map (fun c =>
      match cell b r c with
      | Some piece =>
          if color_eqb (color piece) clr then
            let piece_moves :=
              match kind piece with
              | Pawn => pawn_moves piece r c b current_en_passant_target
              | King =>
                  let game_ctx :=
                    if is_none board_state && check_castling_rights_in_king
                    then Some g else None in
                  king_moves piece r c b game_ctx
              | _ => get_possible_moves piece r c b
              end in
            map (fun move => ((r, c), move)) piece_moves
          else []
      | None => []
      end) range8) range8.

(** What one iteration of the loop of [get_all_legal_moves_for_player]
    does before the check test: [continue], or a simulated grid. *)
Inductive SimOutcome := SimSkip | SimBoard (sim_board_state : Grid).

(** The castling part of the simulation. *)
Definition sim_castling (g : ChessGame) (clr : Color) (from_sq to_sq : Square)
    (piece_to_move_sim : Piece) (sim : Grid) : option SimOutcome :=
  if kind_eqb (kind piece_to_move_sim) King
     && (Z.abs (snd to_sq - snd from_sq) =? 2) then
    let side := if snd to_sq >? snd from_sq then SideK else SideQ in
    if negb (can_castle g clr side (board g) true) then Some SimSkip else
    let rook_c1_orig := if snd to_sq <? snd from_sq then 0 else 7 in
    let rook_c2_new := snd from_sq + (if snd to_sq >? snd from_sq then 1 else -1) in
    sim_rook ← getitem2 sim (fst from_sq) rook_c1_orig;
    sim1 ← setitem2 sim (fst from_sq) rook_c2_new sim_rook;
    sim2 ← setitem2 sim1 (fst from_sq) rook_c1_orig None;
    Some (SimBoard sim2)
  else Some (SimBoard sim).

(** The en-passant part of the simulation. *)
Definition sim_en_passant (g : ChessGame) (from_sq to_sq : Square)
    (piece_to_move_sim : Piece) (sim : Grid) : option Grid :=
  if kind_eqb (kind piece_to_move_sim) Pawn
     && match en_passant_target g with
        | Some e => sq_eqb to_sq e
        | None => false
        end
     && (Z.abs (snd to_sq - snd from_sq) =? 1) then
    target ← getitem2 sim (fst to_sq) (snd to_sq);
    if is_none target then setitem2 sim (fst from_sq) (snd to_sq) None
    else Some sim
  else Some sim.

(** One candidate move applied to a deep copy of the live grid; [None] is
    an IndexError.  On the 8x8 grid the comprehension
    [[[board[r][c] for c in range(8)] for r in range(8)]] and [copy.deepcopy]
    give a grid of equal piece values, which is [board g] itself here; that
    the copy is a different object is the subject of module [Heap]. *)
Definition simulate_move (g : ChessGame) (clr : Color) (from_sq to_sq : Square)
    : option SimOutcome :=
  let sim_board_state := board g in
  p ← getitem2 sim_board_state (fst from_sq) (snd from_sq);
  match p with
  | None => Some SimSkip
  | Some piece_to_move_sim =>
      o ← sim_castling g clr from_sq to_sq piece_to_move_sim sim_board_state;
      match o with
      | SimSkip => Some SimSkip
      | SimBoard sim1 =>
          sim2 ← sim_en_passant g from_sq to_sq piece_to_move_sim sim1;
          sim3 ← setitem2 sim2 (fst to_sq) (snd to_sq) (Some piece_to_move_sim);
          sim4 ← setitem2 sim3 (fst from_sq) (snd from_sq) None;
          Some (SimBoard sim4)
      end
  end.

(** The loop of [get_all_legal_moves_for_player] over the raw moves. *)
Fixpoint filter_legal (g : ChessGame) (clr : Color) (raw : list Move)
    : option (list Move) :=
  match raw with
  | [] => Some []
  | (from_sq, to_sq) :: rest =>
      o ← simulate_move g clr from_sq to_sq;
      legal_rest ← filter_legal g clr rest;
      match o with
      | SimSkip => Some legal_rest
      | SimBoard sim =>
          if negb (is_in_check clr sim)
          then Some ((from_sq, to_sq) :: legal_rest)
          else Some legal_rest
      end
  end.

(** [ChessGame.get_all_legal_moves_for_player]. *)
Definition get_all_legal_moves_for_player (g : ChessGame) (clr : Color)
    : option (list Move) :=
  filter_legal g clr (get_all_possible_moves_for_player g clr None true).

(** ** Move application *)

Definition mark_moved (p : Piece) : Piece := mkPiece (kind p) (color p) true.

(** [str(promotion_choice_char)]. *)
Definition py_str (promotion_choice_char : option string) : string :=
  match promotion_choice_char with
  | Some s => s
  | None => "None"
  end.

(** [promo_map.get(str(promotion_choice_char).upper(), Queen)]. *)
Definition promo_class (promotion_choice_char : option string) : Kind :=
  let key := upper (py_str promotion_choice_char) in
  if String.eqb key "Q" then Queen
  else if String.eqb key "R" then Rook
  else if String.eqb key "B" then Bishop
  else if String.eqb key "N" then Knight
  else Queen.

Definition promotion_rank (clr : Color) (r2 : Z) : bool :=
  match clr with W => r2 =? 0 | B => r2 =? 7 end.

(** The two special cases at the head of [Board.make_move]: the grid after
    them, the captured piece and the two flags. *)
Definition make_move_special (b : Grid) (piece : Piece) (r1 c1 r2 c2 : Z)
    (captured_piece : option Piece)
    : option (Grid * option Piece * bool * bool) :=
  if kind_eqb (kind piece) King && (Z.abs (c2 - c1) =? 2) then
    let rook_c1_orig := if c2 <? c1 then 0 else 7 in
    let rook_c2_new := c1 + (if c2 >? c1 then 1 else -1) in
    rook ← getitem2 b r1 rook_c1_orig;
    b1 ← setitem2 b r1 rook_c2_new (mark_moved <$> rook);
    b2 ← setitem2 b1 r1 rook_c1_orig None;
    Some (b2, captured_piece, negb (is_none captured_piece), false)
  else if kind_eqb (kind piece) Pawn && (Z.abs (c2 - c1) =? 1)
          && is_none captured_piece then
    captured_pawn ← getitem2 b r1 c2;
    b1 ← setitem2 b r1 c2 None;
    Some (b1, captured_pawn, true, true)
  else Some (b, captured_piece, negb (is_none captured_piece), false).

(** [Board.make_move]: the grid afterwards and the returned triple
    [(captured_piece, is_pawn_move, is_capture or is_en_passant_capture)].
    The assignments [rook.has_moved = True] and [piece.has_moved = True]
    act on the object a cell refers to; by value they are made where that
    reference is stored. *)
Definition make_move (b : Grid) (from_sq to_sq : Square)
    (promotion_choice_char : option string)
    : option (Grid * (option Piece * bool * bool)) :=
  let '(r1, c1) := from_sq in
  let '(r2, c2) := to_sq in
  p ← getitem2 b r1 c1;
  match p with
  | None => Some (b, (None, false, false))
  | Some piece =>
      captured_piece ← getitem2 b r2 c2;
      let is_pawn_move := kind_eqb (kind piece) Pawn in
      '(b1, captured_piece', is_capture, is_en_passant_capture) ←
        make_move_special b piece r1 c1 r2 c2 captured_piece;
      b2 ← setitem2 b1 r2 c2 (Some (mark_moved piece));
      b3 ← setitem2 b2 r1 c1 None;
      b4 ← (if is_pawn_move && promotion_rank (color piece) r2 then
              setitem2 b3 r2 c2
                (Some (mkPiece (promo_class promotion_choice_char) (color piece) true))
            else Some b3);
      Some (b4, (captured_piece', is_pawn_move, is_capture || is_en_passant_capture))
  end.

(** ** Game orchestration *)

(** [ChessGame.update_castling_rights]. *)
Definition update_castling_rights (cr : CastlingRights) (piece_moved : Piece)
    (from_sq : Square) (captured_piece_at_to_sq_original_pos : option Piece)
    (to_sq_for_capture : Square) : CastlingRights :=
  let clr := color piece_moved in
  let '(r, c) := from_sq in
  let cr1 :=
    match kind piece_moved with
    | King => rights_clear (rights_clear cr clr SideK) clr SideQ
    | Rook =>
        if r =? home_row clr then
          if c =? 0 then rights_clear cr clr SideQ
          else if c =? 7 then rights_clear cr clr SideK
          else cr
        else cr
    | _ => cr
    end in
  match captured_piece_at_to_sq_original_pos with
  | Some captured =>
      if kind_eqb (kind captured) Rook then
        let cap_color := color captured in
        let '(cap_r, cap_c) := to_sq_for_capture in
        if cap_r =? home_row cap_color then
          if cap_c =? 0 then rights_clear cr1 cap_color SideQ
          else if cap_c =? 7 then rights_clear cr1 cap_color SideK
          else cr1
        else cr1
      else cr1
  | None => cr1
  end.

(** What [process_move] returns: [False], [True] or the string
    ["PROMOTION_NEEDED"]. *)
Inductive PyResult := PyBool (v : bool) | PyStr (s : string).

(** Truth value of [game_over_message] and [promotion_choice_char]:
    [None] and the empty string are false. *)
Definition truthy (o : option string) : bool :=
  match o with
  | Some s => negb (String.eqb s "")
  | None => false
  end.

(** The colour as the source stores it, ['W'] or ['B']. *)
Definition color_str (c : Color) : string :=
  match c with W => "W" | B => "B" end.

(** [winner_color_map]. *)
Definition winner_color_map (c : Color) : string :=
  match c with W => "Black" | B => "White" end.

Definition set_status (g : ChessGame) (s : string) : ChessGame :=
  mkGame (board g) (current_player g) (castling_rights g) (en_passant_target g)
         (halfmove_clock g) (fullmove_number g) s (game_over_message g).

(** Step 5 of [process_move]: the status of the player now to move. *)
Definition evaluate_status (g : ChessGame) : option ChessGame :=
  let new_player_in_check := is_in_check (current_player g) (board g) in
  new_player_legal_moves ← get_all_legal_moves_for_player g (current_player g);
  let no_moves := match new_player_legal_moves with [] => true | _ => false end in
  if new_player_in_check && no_moves then
    let msg := String.append "Checkmate! "
                 (String.append (winner_color_map (current_player g)) " wins.") in
    Some (mkGame (board g) (current_player g) (castling_rights g)
            (en_passant_target g) (halfmove_clock g) (fullmove_number g)
            msg (Some msg))
  else if negb new_player_in_check && no_moves then
    let msg := "Stalemate! It's a draw." in
    Some (mkGame (board g) (current_player g) (castling_rights g)
            (en_passant_target g) (halfmove_clock g) (fullmove_number g)
            msg (Some msg))
  else if new_player_in_check then
    Some (set_status g (String.append (color_str (current_player g)) "'s turn. Check!"))
  else
    Some (set_status g (String.append (color_str (current_player g)) "'s turn.")).

(** The part of [process_move] after the promotion test: apply the move
    and update clocks, castling rights, en-passant target and turn. *)
Definition apply_move (g : ChessGame) (from_sq to_sq : Square)
    (promotion_choice_char : option string) : option ChessGame :=
  let '(r1, c1) := from_sq in
  let '(r2, c2) := to_sq in
  let original_piece_at_to_sq := get_piece (board g) r2 c2 in
  '(b', (captured_piece, is_pawn_move, is_capture)) ←
    make_move (board g) from_sq to_sq promotion_choice_char;
  let halfmove := if is_pawn_move || is_capture then 0 else halfmove_clock g + 1 in
  (* update_castling_rights reads piece_moved.color: None raises *)
  piece_moved ← get_piece b' r2 c2;
  let cr := update_castling_rights (castling_rights g) piece_moved from_sq
              original_piece_at_to_sq to_sq in
  let ep :=
    if is_kind Pawn (get_piece b' r2 c2) && (Z.abs (r1 - r2) =? 2)
    then Some ((r1 + r2) / 2, c1) else None in
  (* switch_player *)
  let fullmove :=
    match current_player g with
    | B => fullmove_number g + 1
    | W => fullmove_number g
    end in
  evaluate_status
    (mkGame b' (opponent (current_player g)) cr ep halfmove fullmove
            (status_message g) (game_over_message g)).

(** [ChessGame.process_move]; [None] is an exception escaping the call. *)
Definition process_move (g : ChessGame) (from_sq to_sq : Square)
    (promotion_choice_char : option string) : option (PyResult * ChessGame) :=
  if truthy (game_over_message g) then Some (PyBool false, g) else
  let '(r1, c1) := from_sq in
  let '(r2, c2) := to_sq in
  let piece := get_piece (board g) r1 c1 in
  let g := set_status g "" in
  match piece with
  | None =>
      Some (PyBool false, set_status g "Invalid selection or not your turn.")
  | Some piece =>
      if negb (color_eqb (color piece) (current_player g)) then
        Some (PyBool false, set_status g "Invalid selection or not your turn.")
      else
        legal_moves ← get_all_legal_moves_for_player g (current_player g);
        if negb (move_mem (from_sq, to_sq) legal_moves) then
          Some (PyBool false,
                set_status g
                  (if is_in_check (current_player g) (board g)
                   then String.append "Illegal move. "
                          (String.append (color_str (current_player g)) " is in check!")
                   else "Illegal move."))
        else if kind_eqb (kind piece) Pawn && promotion_rank (color piece) r2
                && negb (truthy promotion_choice_char) then
          Some (PyStr "PROMOTION_NEEDED", g)
        else
          g' ← apply_move g from_sq to_sq promotion_choice_char;
          Some (PyBool true, g')
  end.

(** [ChessGame.needs_promotion]. *)
Definition needs_promotion (g : ChessGame) (from_sq to_sq : Square) : bool :=
  match get_piece (board g) (fst from_sq) (snd from_sq) with
  | Some piece => kind_eqb (kind piece) Pawn && promotion_rank (color piece) (fst to_sq)
  | None => false
  end.

(** ** FEN emission *)

(** [str(n)] for an integer. *)
Definition str_of_Z (n : Z) : string := NilZero.string_of_int (Z.to_int n).

(** [to_coords], for a string argument. *)
Definition to_coords (notation : string) : option Square :=
  match notation with
  | String col_char (String row_char EmptyString) =>
      let col := Z.of_nat (nat_of_ascii col_char) in
      let row := Z.of_nat (nat_of_ascii row_char) in
      if negb ((97 <=? col) && (col <=? 104) && (49 <=? row) && (row <=? 56))
      then None
      else Some (8 - (row - 48), col - 97)
  | _ => None
  end.

(** [to_notation]. *)
Definition to_notation (coords : Square) : option string :=
  let '(row, col) := coords in
  if negb ((0 <=? row) && (row <=? 7) && (0 <=? col) && (col <=? 7)) then None
  else Some (String (ascii_of_nat (Z.to_nat (97 + col))) (str_of_Z (8 - row))).

(** One rank of the piece placement: the loop over [c] with its
    [empty_count] and [rank_str]. *)
Fixpoint fen_rank (b : Grid) (r : Z) (cols : list Z) (empty_count : Z)
    (rank_str : string) : string :=
  match cols with
  | [] =>
      if empty_count >? 0 then String.append rank_str (str_of_Z empty_count)
      else rank_str
  | c :: rest =>
      match cell b r c with
      | Some piece =>
          let rank_str :=
            if empty_count >? 0 then String.append rank_str (str_of_Z empty_count)
            else rank_str in
          fen_rank b r rest 0 (String.append rank_str (String (symbol piece) EmptyString))
      | None => fen_rank b r rest (empty_count + 1) rank_str
      end
  end.

(** ["/".join(parts)]. *)
Fixpoint join (sep : string) (parts : list string) : string :=
  match parts with
  | [] => EmptyString
  | [x] => x
  | x :: rest => String.append x (String.append sep (join sep rest))
  end.

(** [ChessGame.get_fen]. *)
Definition get_fen (g : ChessGame) : string :=
  let fen_parts := map (fun r => fen_rank (board g) r range8 0 EmptyString) range8 in
  let piece_placement := join "/" fen_parts in
  let active_color := match current_player g with W => "w" | B => "b" end in
  let cr := castling_rights g in
  let castling_str :=
    String.append (if WK cr then "K" else "")
      (String.append (if WQ cr then "Q" else "")
        (String.append (if BK cr then "k" else "") (if BQ cr then "q" else ""))) in
  let castling_str := if String.eqb castling_str "" then "-" else castling_str in
  let ep_target_str :=
    match en_passant_target g with
    | Some e => py_str (to_notation e)
    | None => "-"
    end in
  join " " [piece_placement; active_color; castling_str; ep_target_str;
            str_of_Z (halfmove_clock g); str_of_Z (fullmove_number g)].

(** ** The board widget (chess_gui.py) *)

Definition SQUARE_SIZE : Z := 80.
Definition BOARD_SIZE : Z := 8 * SQUARE_SIZE.

(** [get_square_from_mouse]; [//] on integers is floor division, which is
    [Z.div] for a positive divisor. *)
Definition get_square_from_mouse (pos : Z * Z) : option Square :=
  let '(x, y) := pos in
  if y >=? BOARD_SIZE then None else
  let r := y / SQUARE_SIZE in
  let c := x / SQUARE_SIZE in
  if (0 <=? r) && (r <? 8) && (0 <=? c) && (c <? 8) then Some (r, c) else None.

(** ** Runs of the game *)

(** A call of [process_move] with its three arguments. *)
Abbreviation Call := (Square * Square * option string)%type.

(** A sequence of [process_move] calls on a game; the results are dropped,
    an exception ends the run. *)
Definition play (og : option ChessGame) (call : Call) : option ChessGame :=
  g ← og;
  r ← process_move g (fst (fst call)) (snd (fst call)) (snd call);
  Some (snd r).

Definition replay (calls : list Call) : option ChessGame :=
  fold_left play calls (Some new_game).

(** The states a game object can be in: a fresh game, and whatever a call
    of [process_move] that returns leaves behind. *)
Inductive reachable : ChessGame -> Prop :=
| reachable_new : reachable new_game
| reachable_step g from_sq to_sq promo res g' :
    reachable g ->
    process_move g from_sq to_sq promo = Some (res, g') ->
    reachable g'.

(** The game is over: [game_over_message] is set. *)
Definition terminal (g : ChessGame) : Prop := truthy (game_over_message g) = true.

(** Fool's mate: f2f3, e7e5, g2g4, d8h4. *)
Definition fools_mate_calls : list Call :=
  [((6, 5), (5, 5), None); ((1, 4), (3, 4), None);
   ((6, 6), (4, 6), None); ((0, 3), (4, 7), None)].

Definition fools_mate : ChessGame :=
  Eval vm_compute in default new_game (replay fools_mate_calls).

(** ** Games used as examples *)

(** A call written as the GUI's squares are named, e.g. [move "e2" "e4"]. *)
Definition move (from_name to_name : string) : Call :=
  (default (0, 0) (to_coords from_name), default (0, 0) (to_coords to_name), None).

(** Italian opening up to White's castling. *)
Definition castling_calls : list Call :=
  [move "e2" "e4"; move "e7" "e5"; move "g1" "f3"; move "b8" "c6";
   move "f1" "c4"; move "f8" "c5"; move "e1" "g1"].

(** A White pawn reaches e5 and takes the d-pawn en passant. *)
Definition en_passant_calls : list Call :=
  [move "e2" "e4"; move "a7" "a6"; move "e4" "e5"; move "d7" "d5";
   move "e5" "d6"].

(** Scholar's mate. *)
Definition scholars_mate_calls : list Call :=
  [move "e2" "e4"; move "e7" "e5"; move "d1" "h5"; move "b8" "c6";
   move "f1" "c4"; move "g8" "f6"; move "h5" "f7"].

(** Two game objects the rules cannot tell apart: same grid, same castling
    rights, same en-passant target. *)
Definition same_rules (g1 g2 : ChessGame) : Prop :=
  board g1 = board g2 /\ castling_rights g1 = castling_rights g2
  /\ en_passant_target g1 = en_passant_target g2.

(** The status text of a rejected illegal move. *)
Definition illegal_message (g : ChessGame) : string :=
  if is_in_check (current_player g) (board g)
  then String.append "Illegal move. "
         (String.append (color_str (current_player g)) " is in check!")
  else "Illegal move.".

(** The five ways a call of [process_move] can return. *)
Inductive outcome (g : ChessGame) (from_sq to_sq : Square)
    (promo : option string) : PyResult -> ChessGame -> Prop :=
| out_terminal :
    terminal g ->
    outcome g from_sq to_sq promo (PyBool false) g
| out_selection :
    truthy (game_over_message g) = false ->
    (get_piece (board g) (fst from_sq) (snd from_sq) = None
     \/ exists piece, get_piece (board g) (fst from_sq) (snd from_sq) = Some piece
                      /\ color piece <> current_player g) ->
    outcome g from_sq to_sq promo (PyBool false)
      (set_status g "Invalid selection or not your turn.")
| out_illegal piece legal_moves :
    truthy (game_over_message g) = false ->
    get_piece (board g) (fst from_sq) (snd from_sq) = Some piece ->
    color piece = current_player g ->
    get_all_legal_moves_for_player g (current_player g) = Some legal_moves ->
    ~ In (from_sq, to_sq) legal_moves ->
    outcome g from_sq to_sq promo (PyBool false) (set_status g (illegal_message g))
| out_promotion piece legal_moves :
    truthy (game_over_message g) = false ->
    get_piece (board g) (fst from_sq) (snd from_sq) = Some piece ->
    color piece = current_player g ->
    get_all_legal_moves_for_player g (current_player g) = Some legal_moves ->
    In (from_sq, to_sq) legal_moves ->
    kind piece = Pawn ->
    promotion_rank (color piece) (fst to_sq) = true ->
    truthy promo = false ->
    outcome g from_sq to_sq promo (PyStr "PROMOTION_NEEDED") (set_status g "")
| out_moved piece legal_moves g' :
    truthy (game_over_message g) = false ->
    get_piece (board g) (fst from_sq) (snd from_sq) = Some piece ->
    color piece = current_player g ->
    get_all_legal_moves_for_player g (current_player g) = Some legal_moves ->
    In (from_sq, to_sq) legal_moves ->
    (kind piece = Pawn -> promotion_rank (color piece) (fst to_sq) = true ->
     truthy promo = true) ->
    apply_move (set_status g "") from_sq to_sq promo = Some g' ->
    outcome g from_sq to_sq promo (PyBool true) g'.

(** The fields a rejected call must leave alone: grid, side to move,
    castling rights, en-passant target and the two clocks. *)
Definition same_position (g g' : ChessGame) : Prop :=
  board g' = board g
  /\ current_player g' = current_player g
  /\ castling_rights g' = castling_rights g
  /\ en_passant_target g' = en_passant_target g
  /\ halfmove_clock g' = halfmove_clock g
  /\ fullmove_number g' = fullmove_number g.

(** The status texts [process_move] sets when it rejects a call. *)
Definition rejection_messages : list string :=
  ["Invalid selection or not your turn."; "Illegal move.";
   "Illegal move. W is in check!"; "Illegal move. B is in check!"].

(** The move shape [get_all_possible_moves_for_player] asks of a piece of
    the live grid. *)
Definition live_piece_moves (g : ChessGame) (piece : Piece) (r c : Z)
    : list Square :=
  match kind piece with
  | Pawn => pawn_moves piece r c (board g) (en_passant_target g)
  | King => king_moves piece r c (board g) (Some g)
  | _ => get_possible_moves piece r c (board g)
  end.

(** A game in which White can promote: a2a4, b7b5, a4xb5, a7a6, b5xa6,
    Bc8b7, a6xb7, h7h6; the pawn on b7 can now take the rook on a8. *)
Definition promotion_calls : list Call :=
  [((6, 0), (4, 0), None); ((1, 1), (3, 1), None); ((4, 0), (3, 1), None);
   ((1, 0), (2, 0), None); ((3, 1), (2, 0), None); ((0, 2), (1, 1), None);
   ((2, 0), (1, 1), None); ((1, 7), (2, 7), None)].

Definition promotion_game : ChessGame :=
  Eval vm_compute in default new_game (replay promotion_calls).

(** A game in which White has lost both castling rights: e2e4, e7e5, Ke1e2. *)
Definition king_walk_calls : list Call :=
  [((6, 4), (4, 4), None); ((1, 4), (3, 4), None); ((7, 4), (6, 4), None)].

Definition king_walk : ChessGame :=
  Eval vm_compute in default new_game (replay king_walk_calls).

Definition king_walk_next : ChessGame :=
  Eval vm_compute in
    default new_game (replay (king_walk_calls ++ [((1, 0), (2, 0), None)])).

(** Castling legality in the words of the specification. *)
Definition rook_file (side : Side) : Z :=
  match side with SideK => 7 | SideQ => 0 end.

Definition king_destination (side : Side) : Z :=
  match side with SideK => 6 | SideQ => 2 end.

(** A piece of the given kind and colour that has never moved stands on
    the square. *)
Definition unmoved_on (b : Grid) (k : Kind) (clr : Color) (r c : Z) : Prop :=
  exists piece, cell b r c = Some piece
                /\ kind piece = k /\ color piece = clr /\ has_moved piece = false.

Definition can_castle_spec (g : ChessGame) (clr : Color) (side : Side)
    (b : Grid) (check_intermediate_attacks : bool) : Prop :=
  (* the castling-rights flag is set *)
  rights_get (castling_rights g) clr side = true
  (* the King is on its home square, unmoved *)
  /\ unmoved_on b King clr (home_row clr) 4
  (* a Rook of that colour is on the home file, unmoved *)
  /\ unmoved_on b Rook clr (home_row clr) (rook_file side)
  (* every square strictly between King and Rook is empty *)
  /\ (forall c, Z.min 4 (rook_file side) < c < Z.max 4 (rook_file side) ->
                cell b (home_row clr) c = None)
  (* the King is not in check *)
  /\ is_in_check clr b = false
  (* only in the strict mode: the squares the King crosses or lands on *)
  /\ (check_intermediate_attacks = true ->
      forall c, Z.min 4 (king_destination side) <= c <= Z.max 4 (king_destination side) ->
                c <> 4 ->
                is_square_attacked (home_row clr) c (opponent clr) b = false).

(** The per-kind attack rules in the words of the specification: a Pawn
    through its two forward-diagonal cells, a King through its eight
    adjacent cells, a Rook, Knight, Bishop or Queen through its pseudo-legal
    move shape on the grid. *)
Definition attack_rule (b : Grid) (piece : Piece) (r c r_target c_target : Z)
    : Prop :=
  match kind piece with
  | Pawn =>
      r_target = r + direction (color piece)
      /\ (c_target = c + 1 \/ c_target = c - 1)
  | King => Z.max (Z.abs (r_target - r)) (Z.abs (c_target - c)) = 1
  | _ => In (r_target, c_target) (get_possible_moves piece r c b)
  end.

(** A square a piece of colour [own] may land on: empty or held by the
    other colour. *)
Definition free_for (own : Color) (b : Grid) (r c : Z) : Prop :=
  match cell b r c with
  | None => True
  | Some q => color q <> own
  end.

(** The target lies [i] steps along one of the directions, on the board,
    with every square before it on the board and empty. *)
Definition slides_to (own : Color) (b : Grid) (dirs : list (Z * Z))
    (r c r_target c_target : Z) : Prop :=
  exists d i,
    In d dirs /\ 1 <= i <= 7
    /\ r_target = r + fst d * i /\ c_target = c + snd d * i
    /\ in_bounds r_target c_target = true
    /\ (forall j, 1 <= j < i ->
          in_bounds (r + fst d * j) (c + snd d * j) = true
          /\ cell b (r + fst d * j) (c + snd d * j) = None)
    /\ free_for own b r_target c_target.

(** The target lies one of the offsets away, on the board. *)
Definition jumps_to (own : Color) (b : Grid) (offsets : list (Z * Z))
    (r c r_target c_target : Z) : Prop :=
  exists d,
    In d offsets
    /\ r_target = r + fst d /\ c_target = c + snd d
    /\ in_bounds r_target c_target = true
    /\ free_for own b r_target c_target.

(** [k, k+1, ..., k+n-1]. *)
Fixpoint zseq (k : Z) (n : nat) : list Z :=
  match n with
  | O => []
  | S n' => k :: zseq (k + 1) n'
  end.

(** ** Invariants of the reachable states *)

(** The grid has eight rows of eight cells. *)
Definition grid_8x8 (b : Grid) : Prop :=
  length b = 8%nat /\ Forall (fun row => length row = 8%nat) b.

(** A piece whose [has_moved] flag is still [False] stands where
    [setup_pieces] put it. *)
Definition unmoved_at_home (b : Grid) : Prop :=
  forall r c piece,
    0 <= r <= 7 -> 0 <= c <= 7 ->
    cell b r c = Some piece -> has_moved piece = false ->
    cell initial_grid r c = Some piece.

Definition wf (g : ChessGame) : Prop :=
  grid_8x8 (board g) /\ unmoved_at_home (board g).

(** [b[r][c] = v] for a square on the board. *)
Definition set_cell (b : Grid) (r c : Z) (v : option Piece) : Grid :=
  <[Z.to_nat r := <[Z.to_nat c := v]> (nth (Z.to_nat r) b [])]> b.

(** Every cell of [b'] is the cell of [b], is empty, or holds a piece that
    has moved. *)
Definition only_moved (b b' : Grid) : Prop :=
  forall r c,
    cell b' r c = cell b r c \/ cell b' r c = None
    \/ exists q, cell b' r c = Some q /\ has_moved q = true.

(** A value [make_move] writes into a cell: nothing, or a moved piece. *)
Definition moved_or_none (v : option Piece) : Prop :=
  match v with
  | None => True
  | Some q => has_moved q = true
  end.

(** The piece [make_move] leaves on the destination square. *)
Definition moved_piece (piece : Piece) (r2 : Z) (promo : option string) : Piece :=
  if kind_eqb (kind piece) Pawn && promotion_rank (color piece) r2
  then mkPiece (promo_class promo) (color piece) true
  else mark_moved piece.

(** Is the move of [piece] from file [c1] to file [c2] a capture: the
    destination is occupied, or a pawn steps diagonally onto an empty square
    (en passant). *)
Definition captures (piece : Piece) (c1 c2 : Z) (target : option Piece) : bool :=
  negb (is_none target)
  || (kind_eqb (kind piece) Pawn && (Z.abs (c2 - c1) =? 1) && is_none target).

(** The game after 1. e2e4. *)
Definition after_e4 : ChessGame :=
  Eval vm_compute in default new_game (replay [((6, 4), (4, 4), None)]).

(** The legal moves of the value model, under a name that module [Heap]
    does not shadow. *)
Abbreviation value_legal_moves := get_all_legal_moves_for_player.

(** The value-level simulation steps under names that module [Heap] does
    not shadow. *)
Abbreviation value_sim_castling := sim_castling.
Abbreviation value_sim_en_passant := sim_en_passant.
Abbreviation value_simulate_move := simulate_move.
Abbreviation value_filter_legal := filter_legal.

(** ** The scratch copy over an object store *)

(** [get_all_legal_moves_for_player] once more, this time with the Python
    objects it touches kept in a store: piece objects with their mutable
    [has_moved] flag, the row lists and the lists of rows.  A cell of a row
    is [None] or a reference to a piece object; a grid is a list of
    references to rows.  The live grid, the shallow copy
    [original_board_pieces] and the deep copy [sim_board_state] are three
    grids of one store, and an assignment [sim_board_state[r][c] = x]
    updates a row object in place, whoever else refers to it. *)
Module Heap.

(** The attributes of the game object other than the board. *)
Record Fields := mkFields {
  f_current_player : Color;
  f_castling_rights : CastlingRights;
  f_en_passant_target : option Square;
  f_halfmove_clock : Z;
  f_fullmove_number : Z;
  f_status_message : string;
  f_game_over_message : option string
}.

Record World := mkWorld {
  pieces : list Piece;
  rows : list (list (option nat));
  grids : list (list nat);
  (** [self.board_obj.board] *)
  board_ref : nat;
  fields : Fields
}.

(** Computations that read and update the world and may raise; the world
    survives an exception. *)
Definition M (A : Type) : Type := World -> World * option A.

#[export] Instance M_ret : MRet M := fun A a w => (w, Some a).

#[export] Instance M_bind : MBind M := fun A B k m w =>
  match m w with
  | (w1, Some a) => k a w1
  | (w1, None) => (w1, None)
  end.

Definition lift {A} (o : option A) : M A := fun w => (w, o).

Definition gets {A} (f : World -> A) : M A := fun w => (w, Some (f w)).

Definition read_piece (l : nat) : M Piece := fun w => (w, pieces w !! l).
Definition read_row (l : nat) : M (list (option nat)) := fun w => (w, rows w !! l).
Definition read_grid (l : nat) : M (list nat) := fun w => (w, grids w !! l).

Definition alloc_piece (p : Piece) : M nat := fun w =>
  (mkWorld (pieces w ++ [p]) (rows w) (grids w) (board_ref w) (fields w),
   Some (length (pieces w))).

Definition alloc_row (cells : list (option nat)) : M nat := fun w =>
  (mkWorld (pieces w) (rows w ++ [cells]) (grids w) (board_ref w) (fields w),
   Some (length (rows w))).

Definition alloc_grid (row_refs : list nat) : M nat := fun w =>
  (mkWorld (pieces w) (rows w) (grids w ++ [row_refs]) (board_ref w) (fields w),
   Some (length (grids w))).

(** Overwrite the row object [l]. *)
Definition write_row (l : nat) (cells : list (option nat)) : M unit := fun w =>
  if (l <? length (rows w))%nat
  then (mkWorld (pieces w) (<[l := cells]> (rows w)) (grids w) (board_ref w)
          (fields w), Some tt)
  else (w, None).

Fixpoint mapM {A B} (f : A -> M B) (l : list A) : M (list B) :=
  match l with
  | [] => mret []
  | x :: rest => y ← f x; ys ← mapM f rest; mret (y :: ys)
  end.

(** [grid[r][c]]. *)
Definition load_cell (grid : nat) (r c : Z) : M (option nat) :=
  row_refs ← read_grid grid;
  row ← lift (getitem row_refs r);
  cells ← read_row row;
  lift (getitem cells c).

(** [grid[r][c] = v]: the row object is updated in place. *)
Definition store_cell (grid : nat) (r c : Z) (v : option nat) : M unit :=
  row_refs ← read_grid grid;
  row ← lift (getitem row_refs r);
  cells ← read_row row;
  cells' ← lift (setitem cells c v);
  write_row row cells'.

(** [[[grid[r][c] for c in range(8)] for r in range(8)]]: new row lists
    holding the same piece references. *)
Definition copy_rows (grid : nat) : M nat :=
  row_refs ← mapM (fun r =>
                cells ← mapM (fun c => load_cell grid r c) range8;
                alloc_row cells) range8;
  alloc_grid row_refs.

(** [copy.deepcopy]: the memo maps an object already copied to its copy. *)
Fixpoint memo_find (l : nat) (memo : list (nat * nat)) : option nat :=
  match memo with
  | [] => None
  | (old, new) :: rest => if (old =? l)%nat then Some new else memo_find l rest
  end.

Definition deepcopy_cell (memo : list (nat * nat)) (c : option nat)
    : M (list (nat * nat) * option nat) :=
  match c with
  | None => mret (memo, None)
  | Some l =>
      match memo_find l memo with
      | Some l' => mret (memo, Some l')
      | None =>
          p ← read_piece l;
          l' ← alloc_piece p;
          mret ((l, l') :: memo, Some l')
      end
  end.

Fixpoint deepcopy_cells (memo : list (nat * nat)) (cells : list (option nat))
    : M (list (nat * nat) * list (option nat)) :=
  match cells with
  | [] => mret (memo, [])
  | c :: rest =>
      '(memo1, c') ← deepcopy_cell memo c;
      '(memo2, rest') ← deepcopy_cells memo1 rest;
      mret (memo2, c' :: rest')
  end.

Fixpoint deepcopy_rows (memo : list (nat * nat)) (row_refs : list nat)
    : M (list (nat * nat) * list nat) :=
  match row_refs with
  | [] => mret (memo, [])
  | row :: rest =>
      cells ← read_row row;
      '(memo1, cells') ← deepcopy_cells memo cells;
      row' ← alloc_row cells';
      '(memo2, rest') ← deepcopy_rows memo1 rest;
      mret (memo2, row' :: rest')
  end.

Definition deepcopy (grid : nat) : M nat :=
  row_refs ← read_grid grid;
  '(_, row_refs') ← deepcopy_rows [] row_refs;
  alloc_grid row_refs'.

(** The grid of piece values a grid of references stands for; this is
    what the read-only functions of the engine see. *)
Definition snapshot_cell (c : option nat) : M (option Piece) :=
  match c with
  | None => mret None
  | Some l => p ← read_piece l; mret (Some p)
  end.

Definition snapshot (grid : nat) : M Grid :=
  row_refs ← read_grid grid;
  mapM (fun row => cells ← read_row row; mapM snapshot_cell cells) row_refs.

(** The game object as the read-only functions see it. *)
Definition to_value (fs : Fields) (b : Grid) : ChessGame :=
  mkGame b (f_current_player fs) (f_castling_rights fs)
         (f_en_passant_target fs) (f_halfmove_clock fs) (f_fullmove_number fs)
         (f_status_message fs) (f_game_over_message fs).

Definition self_value : M ChessGame :=
  live ← gets board_ref;
  b ← snapshot live;
  fs ← gets fields;
  mret (to_value fs b).

(** What one iteration yields before the check test: [continue], or the
    scratch grid. *)
Inductive SimResult := Skipped | Simulated (sim_board_state : nat).

Definition sim_castling (clr : Color) (from_sq to_sq : Square)
    (piece_to_move_sim : Piece) (sim : nat) : M bool :=
  if kind_eqb (kind piece_to_move_sim) King
     && (Z.abs (snd to_sq - snd from_sq) =? 2) then
    let side := if snd to_sq >? snd from_sq then SideK else SideQ in
    g ← self_value;
    if negb (can_castle g clr side (board g) true) then mret false else
    let rook_c1_orig := if snd to_sq <? snd from_sq then 0 else 7 in
    let rook_c2_new := snd from_sq + (if snd to_sq >? snd from_sq then 1 else -1) in
    sim_rook ← load_cell sim (fst from_sq) rook_c1_orig;
    store_cell sim (fst from_sq) rook_c2_new sim_rook;;
    store_cell sim (fst from_sq) rook_c1_orig None;;
    mret true
  else mret true.

Definition sim_en_passant (from_sq to_sq : Square) (piece_to_move_sim : Piece)
    (sim : nat) : M unit :=
  ep ← gets (fun w => f_en_passant_target (fields w));
  if kind_eqb (kind piece_to_move_sim) Pawn
     && match ep with
        | Some e => sq_eqb to_sq e
        | None => false
        end
     && (Z.abs (snd to_sq - snd from_sq) =? 1) then
    target ← load_cell sim (fst to_sq) (snd to_sq);
    if is_none target then store_cell sim (fst from_sq) (snd to_sq) None
    else mret tt
  else mret tt.

(** One iteration of the loop up to the check test. *)
Definition simulate_move (clr : Color) (from_sq to_sq : Square) : M SimResult :=
  live ← gets board_ref;
  original_board_pieces ← copy_rows live;
  sim_board_state ← deepcopy original_board_pieces;
  p ← load_cell sim_board_state (fst from_sq) (snd from_sq);
  match p with
  | None => mret Skipped
  | Some piece_ref =>
      piece_to_move_sim ← read_piece piece_ref;
      go_on ← sim_castling clr from_sq to_sq piece_to_move_sim sim_board_state;
      if negb go_on then mret Skipped else
      sim_en_passant from_sq to_sq piece_to_move_sim sim_board_state;;
      store_cell sim_board_state (fst to_sq) (snd to_sq) (Some piece_ref);;
      store_cell sim_board_state (fst from_sq) (snd from_sq) None;;
      mret (Simulated sim_board_state)
  end.

Fixpoint filter_legal (clr : Color) (raw : list Move) : M (list Move) :=
  match raw with
  | [] => mret []
  | (from_sq, to_sq) :: rest =>
      o ← simulate_move clr from_sq to_sq;
      keep ← match o with
             | Skipped => mret false
             | Simulated sim =>
                 b ← snapshot sim;
                 mret (negb (is_in_check clr b))
             end;
      legal_rest ← filter_legal clr rest;
      mret (if keep : bool then (from_sq, to_sq) :: legal_rest else legal_rest)
  end.

Definition get_all_legal_moves_for_player (clr : Color) : M (list Move) :=
  g ← self_value;
  filter_legal clr (get_all_possible_moves_for_player g clr None true).

(** A game object in the store: the grid of values is laid out as fresh
    piece, row and grid objects. *)
Definition load_row (cells : list (option Piece)) : M nat :=
  refs ← mapM (fun c => match c with
                        | None => mret None
                        | Some p => l ← alloc_piece p; mret (Some l)
                        end) cells;
  alloc_row refs.

Definition load_game (g : ChessGame) : World :=
  let fs := mkFields (current_player g) (castling_rights g) (en_passant_target g)
              (halfmove_clock g) (fullmove_number g) (status_message g)
              (game_over_message g) in
  let w0 := mkWorld [] [] [] O fs in
  match (row_refs ← mapM load_row (board g); alloc_grid row_refs) w0 with
  | (w1, Some live) => mkWorld (pieces w1) (rows w1) (grids w1) live fs
  | (w1, None) => w1
  end.

(** What of the world a caller can observe of the game: every object that
    exists keeps its content, and the attributes of the game object keep
    their values. *)
Definition unchanged (w w' : World) : Prop :=
  board_ref w' = board_ref w
  /\ fields w' = fields w
  /\ (forall l p, pieces w !! l = Some p -> pieces w' !! l = Some p)
  /\ (forall l cells, rows w !! l = Some cells -> rows w' !! l = Some cells)
  /\ (forall l row_refs, grids w !! l = Some row_refs -> grids w' !! l = Some row_refs).

End Heap.

(** What the simulation may do to a world whose first [n] row objects are
    the ones that existed when the call began: allocate, and overwrite rows
    from [n] on. *)
Definition frame (n : nat) (w w' : Heap.World) : Prop :=
  Heap.board_ref w' = Heap.board_ref w
  /\ Heap.fields w' = Heap.fields w
  /\ (forall l p, Heap.pieces w !! l = Some p -> Heap.pieces w' !! l = Some p)
  /\ (forall l row_refs, Heap.grids w !! l = Some row_refs ->
                         Heap.grids w' !! l = Some row_refs)
  /\ (length (Heap.rows w) <= length (Heap.rows w'))%nat
  /\ (forall l cells, (l < n)%nat -> Heap.rows w !! l = Some cells ->
                      Heap.rows w' !! l = Some cells).

(** The grid object [grid] exists and all its rows were allocated after the
    first [n]. *)
Definition fresh_grid (n : nat) (grid : nat) (w : Heap.World) : Prop :=
  exists row_refs, Heap.grids w !! grid = Some row_refs
                   /\ Forall (fun l => (n <= l)%nat) row_refs.

(** A computation that only reads. *)
Definition reader {A} (m : Heap.M A) : Prop := forall w, fst (m w) = w.

(** A computation that allocates and overwrites rows from [n] on, whatever
    the world it starts in. *)
Definition framer {A} (n : nat) (m : Heap.M A) : Prop :=
  forall w, frame n w (fst (m w)).

(** A cell, a row and a grid of references, and the values they stand for
    in a world. *)
Definition cell_val (w : Heap.World) (c : option nat) (v : option Piece) : Prop :=
  match c, v with
  | None, None => True
  | Some l, Some p => Heap.pieces w !! l = Some p
  | _, _ => False
  end.

Definition row_val (w : Heap.World) (row : nat) (rowv : list (option Piece))
    : Prop :=
  exists cells, Heap.rows w !! row = Some cells /\ Forall2 (cell_val w) cells rowv.

Definition grid_val (w : Heap.World) (grid : nat) (b : Grid) : Prop :=
  exists row_refs, Heap.grids w !! grid = Some row_refs
                   /\ Forall2 (row_val w) row_refs b.

(** The scratch grid [sim_board_state]: it stands for [b], and its rows are
    distinct objects allocated after the first [n]. *)
Definition scratch (n : nat) (w : Heap.World) (sim : nat) (b : Grid) : Prop :=
  exists row_refs,
    Heap.grids w !! sim = Some row_refs
    /\ NoDup row_refs
    /\ Forall (fun l => (n <= l)%nat) row_refs
    /\ Forall2 (row_val w) row_refs b.

(** The memo of [copy.deepcopy]: a copy holds the value of its original. *)
Definition memo_ok (w : Heap.World) (memo : list (nat * nat)) : Prop :=
  forall l l', Heap.memo_find l memo = Some l' ->
    exists p, Heap.pieces w !! l = Some p /\ Heap.pieces w !! l' = Some p.

(** The outcome of a simulation over the store stands for the outcome of
    the simulation by value. *)
Definition outcome_val (w : Heap.World) (n : nat) (oh : option Heap.SimResult)
    (ov : option SimOutcome) : Prop :=
  match oh, ov with
  | None, None => True
  | Some Heap.Skipped, Some SimSkip => True
  | Some (Heap.Simulated sim), Some (SimBoard b) => scratch n w sim b
  | _, _ => False
  end.

(** The result of a step over the store and of the step by value agree:
    both raise, or both return and the scratch grid stands for the value
    grid afterwards. *)
Definition agree {A} (n : nat) (w : Heap.World) (sim : nat) (rh : option A)
    (rv : option Grid) : Prop :=
  match rh, rv with
  | None, None => True
  | Some _, Some bs' => scratch n w sim bs'
  | _, _ => False
  end.

(** Two cells that attack detection on behalf of [clr]'s King cannot tell
    apart: both empty, or both held by the same colour with the same kind,
    except that a piece of [clr] other than its King may differ in kind. *)
Definition alike_cell (clr : Color) (o1 o2 : option Piece) : Prop :=
  match o1, o2 with
  | None, None => True
  | Some p, Some q =>
      color p = color q
      /\ (kind p = kind q \/ (color p = clr /\ kind p <> King /\ kind q <> King))
  | _, _ => False
  end.

Definition alike (clr : Color) (b1 b2 : Grid) : Prop :=
  forall r c, in_bounds r c = true -> alike_cell clr (cell b1 r c) (cell b2 r c).

(** The grid one iteration of the legal-move loop builds for a move between
    two squares of the board (castling already found legal), written with
    [set_cell]. *)
Definition sim_grid (b : Grid) (piece : Piece) (r1 c1 r2 c2 : Z)
    (ep : option Square) : Grid :=
  let b1 :=
    if kind_eqb (kind piece) King && (Z.abs (c2 - c1) =? 2) then
      set_cell
        (set_cell b r1 (c1 + (if c2 >? c1 then 1 else -1))
           (cell b r1 (if c2 <? c1 then 0 else 7)))
        r1 (if c2 <? c1 then 0 else 7) None
    else if kind_eqb (kind piece) Pawn
            && match ep with Some e => sq_eqb (r2, c2) e | None => false end
            && (Z.abs (c2 - c1) =? 1) && is_none (cell b r2 c2) then
      set_cell b r1 c2 None
    else b in
  set_cell (set_cell b1 r2 c2 (Some piece)) r1 c1 None.

(** The grid [make_move] leaves for a move between two squares of the
    board, written with [set_cell]. *)
Definition move_grid (b : Grid) (piece : Piece) (r1 c1 r2 c2 : Z)
    (promo : option string) : Grid :=
  let b1 :=
    if kind_eqb (kind piece) King && (Z.abs (c2 - c1) =? 2) then
      set_cell
        (set_cell b r1 (c1 + (if c2 >? c1 then 1 else -1))
           (mark_moved <$> cell b r1 (if c2 <? c1 then 0 else 7)))
        r1 (if c2 <? c1 then 0 else 7) None
    else if kind_eqb (kind piece) Pawn && (Z.abs (c2 - c1) =? 1)
            && is_none (cell b r2 c2) then
      set_cell b r1 c2 None
    else b in
  let b3 := set_cell (set_cell b1 r2 c2 (Some (mark_moved piece))) r1 c1 None in
  if kind_eqb (kind piece) Pawn && promotion_rank (color piece) r2
  then set_cell b3 r2 c2 (Some (mkPiece (promo_class promo) (color piece) true))
  else b3.

(** Fool's mate one move before its end. *)
Definition fools_mate_before : ChessGame :=
  Eval vm_compute in
    default new_game (replay (firstn 3 fools_mate_calls)).

(** The colour as the game-over text names it. *)
Definition color_name (c : Color) : string :=
  match c with W => "White" | B => "Black" end.

(** What [make_move] does to a square other than the two ends of the move:
    castling takes what stands in the corner to the square the King
    crossed, a pawn that steps diagonally onto an empty square empties the
    square beside it. *)
Definition moved_elsewhere (b : Grid) (piece : Piece) (r1 c1 r2 c2 r c : Z)
    : option Piece :=
  if kind_eqb (kind piece) King && (Z.abs (c2 - c1) =? 2) then
    if sq_eqb (r, c) (r1, if c2 <? c1 then 0 else 7) then None
    else if sq_eqb (r, c) (r1, c1 + (if c2 >? c1 then 1 else -1))
    then mark_moved <$> cell b r1 (if c2 <? c1 then 0 else 7)
    else cell b r c
  else if kind_eqb (kind piece) Pawn && (Z.abs (c2 - c1) =? 1)
          && is_none (cell b r2 c2) then
    if sq_eqb (r, c) (r1, c2) then None else cell b r c
  else cell b r c.

(** ** Invariants of play *)

(** The cell holds a King of the colour. *)
Definition is_king_of (clr : Color) (o : option Piece) : Prop :=
  exists p, o = Some p /\ kind p = King /\ color p = clr.

(** Exactly one square of the board holds a King of the colour. *)
Definition one_king (b : Grid) (clr : Color) : Prop :=
  exists r c,
    in_bounds r c = true /\ is_king_of clr (cell b r c)
    /\ forall r' c', in_bounds r' c' = true -> is_king_of clr (cell b r' c') ->
                     (r', c') = (r, c).

(** The en-passant target, when set, is the empty square that the pawn of
    the player who just moved has jumped over: it lies on the third rank
    counted from that player's side, and the pawn stands right behind it. *)
Definition en_passant_ok (g : ChessGame) : Prop :=
  match en_passant_target g with
  | None => True
  | Some (er, ec) =>
      er = (match current_player g with W => 2 | B => 5 end)
      /\ 0 <= ec <= 7
      /\ cell (board g) er ec = None
      /\ exists p, cell (board g) (er - direction (current_player g)) ec = Some p
                   /\ kind p = Pawn /\ color p = opponent (current_player g)
  end.

(** A castling right that is still set means that the King and the Rook of
    that side have not moved from their home squares. *)
Definition rights_ok (g : ChessGame) : Prop :=
  forall clr side,
    rights_get (castling_rights g) clr side = true ->
    unmoved_on (board g) King clr (home_row clr) 4
    /\ unmoved_on (board g) Rook clr (home_row clr) (rook_file side).

Definition inv (g : ChessGame) : Prop :=
  wf g
  /\ (forall clr, one_king (board g) clr)
  /\ is_in_check (opponent (current_player g)) (board g) = false
  /\ en_passant_ok g
  /\ rights_ok g.

(** The Italian opening before and after White castles. *)
Definition before_castling : ChessGame :=
  Eval vm_compute in default new_game (replay (firstn 6 castling_calls)).

Definition after_castling : ChessGame :=
  Eval vm_compute in default new_game (replay castling_calls).

(** Before and after White takes en passant on d6. *)
Definition before_en_passant : ChessGame :=
  Eval vm_compute in default new_game (replay (firstn 4 en_passant_calls)).

Definition after_en_passant : ChessGame :=
  Eval vm_compute in default new_game (replay en_passant_calls).

(** The promotion game after the pawn has taken on a8 and become a Knight. *)
Definition after_promotion : ChessGame :=
  Eval vm_compute in
    default new_game (replay (promotion_calls ++ [((1, 1), (0, 0), Some "n")])).

(** The file on which the castling Rook ends up, which is the file the King
    crosses. *)
Definition rook_crossing (side : Side) : Z :=
  match side with SideK => 5 | SideQ => 3 end.

(** Reading a rank of a FEN piece placement back: a digit stands for that
    many empty squares, any other character for the piece it names. *)
Definition is_digit (a : ascii) : bool :=
  (Nat.leb 48 (nat_of_ascii a) && Nat.leb (nat_of_ascii a) 57)%bool.

Fixpoint expand_rank (s : string) : list (option ascii) :=
  match s with
  | EmptyString => []
  | String a rest =>
      (if is_digit a then repeat None (nat_of_ascii a - 48) else [Some a])
      ++ expand_rank rest
  end.

(** What the simulation of a move does to a square of the copy other than
    the two ends of the move: when a King moves two files, the corner of
    that side is emptied and what stood there is put on the square the King
    crosses; when a pawn steps onto an empty square of a neighbouring file,
    the square beside it is emptied. *)
Definition simulated_elsewhere (b : Grid) (piece : Piece) (r1 c1 r2 c2 r c : Z)
    : option Piece :=
  if kind_eqb (kind piece) King && (Z.abs (c2 - c1) =? 2) then
    if sq_eqb (r, c) (r1, if c2 <? c1 then 0 else 7) then None
    else if sq_eqb (r, c) (r1, c1 + (if c2 >? c1 then 1 else -1))
    then cell b r1 (if c2 <? c1 then 0 else 7)
    else cell b r c
  else if kind_eqb (kind piece) Pawn && (Z.abs (c2 - c1) =? 1)
          && is_none (cell b r2 c2) then
    if sq_eqb (r, c) (r1, c2) then None else cell b r c
  else cell b r c.

(** The game after 1. e4 e5 2. Qh5. *)
Definition pinned_pawn_game : ChessGame :=
  Eval vm_compute in
    default new_game (replay [move "e2" "e4"; move "e7" "e5"; move "d1" "h5"]).

(** * Properties *)

(** ** FEN of the initial position *)

(** C6: on a freshly constructed game [get_fen] returns exactly
    "rnbqkbnr/pppppppp/8/8/8/8/PPPPPPPP/RNBQKBNR w KQkq - 0 1". *)
Theorem get_fen_new_game :
  get_fen new_game = "rnbqkbnr/pppppppp/8/8/8/8/PPPPPPPP/RNBQKBNR w KQkq - 0 1".
Proof. vm_compute. reflexivity. Qed.

(** ** The engine on some games *)

Example legal_moves_initial_count :
  length <$> get_all_legal_moves_for_player new_game W = Some 20%nat.
Proof. vm_compute. reflexivity. Qed.

Example fools_mate_is_checkmate :
  game_over_message fools_mate = Some "Checkmate! Black wins."
  /\ get_fen fools_mate
     = "rnb1kbnr/pppp1ppp/8/4p3/6Pq/5P2/PPPPP2P/RNBQKBNR w KQkq - 1 3".
Proof. split; vm_compute; reflexivity. Qed.

Example scholars_mate_is_checkmate :
  status_message <$> replay scholars_mate_calls = Some "Checkmate! White wins.".
Proof. vm_compute. reflexivity. Qed.

Example castling_moves_the_rook :
  get_fen <$> replay castling_calls
  = Some "r1bqk1nr/pppp1ppp/2n5/2b1p3/2B1P3/5N2/PPPP1PPP/RNBQ1RK1 b kq - 5 4".
Proof. vm_compute. reflexivity. Qed.

Example en_passant_removes_the_pawn :
  get_fen <$> replay en_passant_calls
  = Some "rnbqkbnr/1pp1pppp/p2P4/8/8/8/PPPP1PPP/RNBQKBNR b KQkq - 0 3".
Proof. vm_compute. reflexivity. Qed.

Example promotion_to_knight :
  get_fen <$> replay (promotion_calls ++ [((1, 1), (0, 0), Some "n")])
  = Some "Nn1qkbnr/2ppppp1/7p/8/8/8/1PPPPPPP/RNBQKBNR b KQk - 0 5".
Proof. vm_compute. reflexivity. Qed.

Example double_step_sets_en_passant_target :
  get_fen after_e4 = "rnbqkbnr/pppppppp/8/8/4P3/8/PPPP1PPP/RNBQKBNR b KQkq e3 0 1".
Proof. vm_compute. reflexivity. Qed.

(** X1: on every square of the board [to_notation] returns a name, and
    [to_coords] maps that name back to the square. *)
Theorem to_coords_to_notation (r c : Z) :
  0 <= r <= 7 -> 0 <= c <= 7 ->
  to_notation (r, c) ≫= to_coords = Some (r, c).
Proof.
  intros Hr Hc.
  assert (Hall : forallb (fun s =>
            match to_notation s ≫= to_coords with
            | Some s' => sq_eqb s' s
            | None => false
            end) all_squares = true) by (vm_compute; reflexivity).
  rewrite forallb_forall in Hall.
  assert (Hin : In (r, c) all_squares).
  { unfold all_squares. apply in_flat_map. exists r.
    assert (Hrange : forall x, 0 <= x <= 7 -> In x range8).
    { intros x Hx. unfold range8.
      assert (x = 0 \/ x = 1 \/ x = 2 \/ x = 3 \/ x = 4 \/ x = 5 \/ x = 6 \/ x = 7)
        as Hc' by lia.
      simpl. intuition auto. }
    split; [apply Hrange; exact Hr|]. apply in_map. apply Hrange. exact Hc. }
  specialize (Hall (r, c) Hin).
  destruct (to_notation (r, c) ≫= to_coords) as [s'|]; [|discriminate].
  destruct s' as [r' c']. unfold sq_eqb in Hall. cbn [fst snd] in Hall.
  apply andb_true_iff in Hall. destruct Hall as [E1 E2].
  apply Z.eqb_eq in E1, E2. subst. reflexivity.
Qed.

Lemma to_coords_to_notation_witness :
  to_notation (4, 4) ≫= to_coords = Some (4, 4).
Proof. apply (to_coords_to_notation 4 4); lia. Defined.

(** X2: a string that [to_coords] accepts names a square of the board, and
    [to_notation] gives the string back; so the two functions are inverse
    bijections between the sixty-four names and the sixty-four squares. *)
Theorem to_notation_to_coords (s : string) (sq : Square) :
  to_coords s = Some sq ->
  in_bounds (fst sq) (snd sq) = true /\ to_notation sq = Some s.
Proof.
  destruct s as [|a [|b [|x y]]]; unfold to_coords; cbv iota; try discriminate.
  pose proof (ascii_nat_embedding a) as Ha. pose proof (ascii_nat_embedding b) as Hb.
  remember (nat_of_ascii a) as n eqn:En. remember (nat_of_ascii b) as m eqn:Em.
  clear En Em. destruct (negb _) eqn:E; [discriminate|]. intros [= <-].
  apply negb_false_iff in E. rewrite !andb_true_iff, !Z.leb_le in E.
  assert (Hn : (n = 97 \/ n = 98 \/ n = 99 \/ n = 100 \/ n = 101 \/ n = 102
                \/ n = 103 \/ n = 104)%nat) by lia.
  assert (Hm : (m = 49 \/ m = 50 \/ m = 51 \/ m = 52 \/ m = 53 \/ m = 54
                \/ m = 55 \/ m = 56)%nat) by lia.
  clear E. subst a b.
  repeat (destruct Hn as [->|Hn]); try subst n;
    repeat (destruct Hm as [->|Hm]); try subst m;
    split; vm_compute; reflexivity.
Qed.

Lemma to_notation_to_coords_witness :
  in_bounds (fst (6, 4)) (snd (6, 4)) = true /\ to_notation (6, 4) = Some "e2".
Proof. apply (to_notation_to_coords "e2" (6, 4)). vm_compute. reflexivity. Defined.

(** ** Replayed games are reachable *)

Lemma replay_reachable (calls : list Call) (g : ChessGame) :
  replay calls = Some g -> reachable g.
Proof.
  unfold replay.
  assert (H : forall calls g0, reachable g0 ->
            forall g', fold_left play calls (Some g0) = Some g' -> reachable g').
  { clear. induction calls as [|[[f t] p] calls IH]; simpl; intros g Hg g' Hrun.
    - congruence.
    - destruct (process_move g f t p) as [[res g1]|] eqn:E; simpl in Hrun.
      + eapply IH; [|exact Hrun]. eapply reachable_step; eauto.
      + clear -Hrun. induction calls; simpl in Hrun; [discriminate|auto]. }
  apply H. constructor.
Qed.

Lemma fools_mate_reachable : reachable fools_mate.
Proof. apply (replay_reachable fools_mate_calls). vm_compute. reflexivity. Qed.

(** ** Terminal states *)

Lemma fools_mate_terminal : terminal fools_mate.
Proof. vm_compute. reflexivity. Qed.

(** C2: once [game_over_message] is set, every call of [process_move],
    whatever its arguments, returns [False] and leaves the whole game
    object (grid, side to move, castling rights, en-passant target, clocks,
    messages) as it was. *)
Theorem process_move_terminal (g : ChessGame) (from_sq to_sq : Square)
    (promo : option string) :
  terminal g ->
  process_move g from_sq to_sq promo = Some (PyBool false, g).
Proof.
  unfold terminal, process_move. intros ->. reflexivity.
Qed.

Lemma process_move_terminal_witness :
  process_move fools_mate (6, 4) (4, 4) None = Some (PyBool false, fools_mate).
Proof.
  apply (process_move_terminal fools_mate (6, 4) (4, 4) None).
  vm_compute. reflexivity.
Defined.

(** ** Boolean tests and the equalities they decide *)

Lemma color_eqb_eq (a b : Color) : color_eqb a b = true <-> a = b.
Proof. destruct a, b; simpl; split; congruence. Qed.

Lemma color_eqb_refl (a : Color) : color_eqb a a = true.
Proof. destruct a; reflexivity. Qed.

Lemma kind_eqb_eq (a b : Kind) : kind_eqb a b = true <-> a = b.
Proof. destruct a, b; simpl; split; congruence. Qed.

Lemma sq_eqb_eq (a b : Square) : sq_eqb a b = true <-> a = b.
Proof.
  destruct a as [r c], b as [r' c']; unfold sq_eqb; simpl.
  rewrite andb_true_iff, !Z.eqb_eq. split; [intros []|intros [=]]; subst; auto.
Qed.

Lemma move_eqb_eq (a b : Move) : move_eqb a b = true <-> a = b.
Proof.
  destruct a as [f t], b as [f' t']; unfold move_eqb; simpl.
  rewrite andb_true_iff, !sq_eqb_eq. split; [intros []|intros [=]]; subst; auto.
Qed.

Lemma sq_mem_In (s : Square) (l : list Square) : sq_mem s l = true <-> In s l.
Proof.
  unfold sq_mem. rewrite existsb_exists. split.
  - intros (x & Hx & E). apply sq_eqb_eq in E. subst. exact Hx.
  - intros H. exists s. split; [exact H|]. apply sq_eqb_eq. reflexivity.
Qed.

Lemma move_mem_In (m : Move) (l : list Move) : move_mem m l = true <-> In m l.
Proof.
  unfold move_mem. rewrite existsb_exists. split.
  - intros (x & Hx & E). apply move_eqb_eq in E. subst. exact Hx.
  - intros H. exists m. split; [exact H|]. apply move_eqb_eq. reflexivity.
Qed.

(** ** The rules read only the grid, the castling rights and the
       en-passant target *)

Lemma same_rules_set_status (g : ChessGame) (s : string) :
  same_rules (set_status g s) g.
Proof. repeat split. Qed.

Section SameRules.
Variables g1 g2 : ChessGame.
Hypothesis Hsame : same_rules g1 g2.

Lemma can_castle_same_rules clr side b chk :
  can_castle g1 clr side b chk = can_castle g2 clr side b chk.
Proof.
  destruct Hsame as (_ & Hcr & _). unfold can_castle. rewrite Hcr. reflexivity.
Qed.

Lemma king_moves_same_rules self r c b :
  king_moves self r c b (Some g1) = king_moves self r c b (Some g2).
Proof.
  unfold king_moves. rewrite !can_castle_same_rules. reflexivity.
Qed.

Lemma possible_moves_same_rules clr :
  get_all_possible_moves_for_player g1 clr None true
  = get_all_possible_moves_for_player g2 clr None true.
Proof.
  destruct Hsame as (Hb & _ & Hep). unfold get_all_possible_moves_for_player.
  rewrite Hb, Hep. cbn [is_none andb].
  apply flat_map_ext; intros r. apply flat_map_ext; intros c.
  destruct (cell (board g2) r c) as [piece|]; [|reflexivity].
  destruct (color_eqb (color piece) clr); [|reflexivity].
  destruct (kind piece); try reflexivity.
  rewrite king_moves_same_rules. reflexivity.
Qed.

Lemma simulate_move_same_rules clr from_sq to_sq :
  simulate_move g1 clr from_sq to_sq = simulate_move g2 clr from_sq to_sq.
Proof.
  destruct Hsame as (Hb & _ & Hep).
  unfold simulate_move, sim_castling, sim_en_passant.
  rewrite Hb, Hep.
  destruct (getitem2 (board g2) (fst from_sq) (snd from_sq)) as [[p|]|];
    simpl; try reflexivity.
  rewrite !can_castle_same_rules. reflexivity.
Qed.

Lemma filter_legal_same_rules clr raw :
  filter_legal g1 clr raw = filter_legal g2 clr raw.
Proof.
  induction raw as [|[f t] raw IH]; simpl; [reflexivity|].
  rewrite simulate_move_same_rules, IH. reflexivity.
Qed.

Lemma legal_moves_same_rules clr :
  get_all_legal_moves_for_player g1 clr = get_all_legal_moves_for_player g2 clr.
Proof.
  unfold get_all_legal_moves_for_player.
  rewrite possible_moves_same_rules. apply filter_legal_same_rules.
Qed.
End SameRules.

(** ** What the legal-move filter keeps *)

Lemma filter_legal_In (g : ChessGame) (clr : Color) (raw l : list Move)
    (from_sq to_sq : Square) :
  filter_legal g clr raw = Some l ->
  In (from_sq, to_sq) l ->
  In (from_sq, to_sq) raw
  /\ exists sim, simulate_move g clr from_sq to_sq = Some (SimBoard sim)
                 /\ is_in_check clr sim = false.
Proof.
  revert l. induction raw as [|[f t] raw IH]; simpl; intros l Hl Hin.
  - injection Hl as <-. destruct Hin.
  - destruct (simulate_move g clr f t) as [o|] eqn:Esim; simpl in Hl; [|discriminate].
    destruct (filter_legal g clr raw) as [rest|] eqn:Erest; simpl in Hl; [|discriminate].
    assert (Hrest : In (from_sq, to_sq) rest ->
              In (from_sq, to_sq) ((f, t) :: raw)
              /\ exists sim, simulate_move g clr from_sq to_sq = Some (SimBoard sim)
                             /\ is_in_check clr sim = false).
    { intros H. destruct (IH rest eq_refl H) as [H1 H2]. split; [right; exact H1|exact H2]. }
    destruct o as [|sim].
    + injection Hl as <-. auto.
    + destruct (is_in_check clr sim) eqn:Echk; simpl in Hl; injection Hl as <-.
      * auto.
      * destruct Hin as [[= <- <-]|Hin]; [|auto].
        split; [left; reflexivity|]. exists sim. auto.
Qed.

(** ** The ways [process_move] returns *)

Lemma set_status_twice (g : ChessGame) (a b : string) :
  set_status (set_status g a) b = set_status g b.
Proof. reflexivity. Qed.

Lemma process_move_outcome (g : ChessGame) (from_sq to_sq : Square)
    (promo : option string) (res : PyResult) (g' : ChessGame) :
  process_move g from_sq to_sq promo = Some (res, g')
  <-> outcome g from_sq to_sq promo res g'.
Proof.
  destruct from_sq as [r1 c1], to_sq as [r2 c2].
  unfold process_move.
  pose proof (legal_moves_same_rules _ _ (same_rules_set_status g "")
                (current_player g)) as Hlegal.
  cbn [current_player set_status board game_over_message] in *.
  rewrite !set_status_twice.
  split.
  - destruct (truthy (game_over_message g)) eqn:Hover.
    { intros [= <- <-]. apply out_terminal. exact Hover. }
    destruct (get_piece (board g) r1 c1) as [piece|] eqn:Hpiece.
    2:{ intros [= <- <-]. apply out_selection; auto. }
    destruct (color_eqb (color piece) (current_player g)) eqn:Hcol; cbn [negb].
    2:{ intros [= <- <-]. apply out_selection; auto. right. exists piece.
        split; [exact Hpiece|]. intros E. apply color_eqb_eq in E. congruence. }
    apply color_eqb_eq in Hcol. rewrite Hlegal.
    destruct (get_all_legal_moves_for_player g (current_player g))
      as [legal_moves|] eqn:El; cbn [mbind option_bind]; [|discriminate].
    destruct (move_mem _ legal_moves) eqn:Hmem; cbn [negb].
    2:{ intros [= <- <-]. eapply out_illegal; eauto.
        rewrite <- move_mem_In. congruence. }
    apply move_mem_In in Hmem.
    destruct (kind_eqb (kind piece) Pawn && promotion_rank (color piece) r2
              && negb (truthy promo)) eqn:Hpromo.
    + intros [= <- <-]. rewrite !andb_true_iff, negb_true_iff, kind_eqb_eq in Hpromo.
      destruct Hpromo as [[Hk Hr] Hp]. eapply out_promotion; eauto.
    + destruct (apply_move _ _ _ _) as [g1|] eqn:Eapply; cbn [mbind option_bind];
        [|discriminate].
      intros [= <- <-]. eapply out_moved; eauto.
      intros Hk Hr. cbn [fst] in Hr. apply kind_eqb_eq in Hk.
      rewrite Hk, Hr in Hpromo. cbn [andb] in Hpromo.
      apply negb_false_iff in Hpromo. exact Hpromo.
  - intros Hout. inversion Hout as
      [Hover Hres Hg
      |Hover Hsel Hres Hg
      |piece l Hover Hpiece Hcol El Hnin Hres Hg
      |piece l Hover Hpiece Hcol El Hin Hk Hr Hp Hres Hg
      |piece l g1 Hover Hpiece Hcol El Hin Hp Happly Hres Hg];
      cbn [fst snd] in *.
    + unfold terminal in Hover. rewrite Hover. reflexivity.
    + rewrite Hover. destruct Hsel as [->|(piece & -> & Hne)]; [reflexivity|].
      destruct (color_eqb (color piece) (current_player g)) eqn:E; [|reflexivity].
      apply color_eqb_eq in E. contradiction.
    + rewrite Hover, Hpiece. rewrite <- color_eqb_eq in Hcol. rewrite Hcol.
      cbn [negb]. rewrite Hlegal, El. cbn [mbind option_bind].
      rewrite <- move_mem_In in Hnin. apply not_true_is_false in Hnin.
      rewrite Hnin. reflexivity.
    + rewrite Hover, Hpiece. rewrite <- color_eqb_eq in Hcol. rewrite Hcol.
      cbn [negb]. rewrite Hlegal, El. cbn [mbind option_bind].
      rewrite <- move_mem_In in Hin. rewrite Hin. cbn [negb].
      rewrite <- kind_eqb_eq in Hk. rewrite Hk, Hr, Hp. reflexivity.
    + rewrite Hover, Hpiece. rewrite <- color_eqb_eq in Hcol. rewrite Hcol.
      cbn [negb]. rewrite Hlegal, El. cbn [mbind option_bind].
      rewrite <- move_mem_In in Hin. rewrite Hin. cbn [negb].
      replace (kind_eqb (kind piece) Pawn && promotion_rank (color piece) r2
               && negb (truthy promo)) with false.
      { rewrite Happly. reflexivity. }
      symmetry. destruct (kind_eqb (kind piece) Pawn) eqn:Hk; [|reflexivity].
      destruct (promotion_rank (color piece) r2) eqn:Hr; [|reflexivity].
      apply kind_eqb_eq in Hk. rewrite (Hp Hk eq_refl). reflexivity.
Qed.

(** ** Pseudo-legal moves start on a piece of the mover *)

Lemma In_range8 (r : Z) : In r range8 <-> 0 <= r <= 7.
Proof.
  unfold range8. simpl. split.
  - intros H. repeat (destruct H as [<-|H]; [lia|]). destruct H.
  - intros H.
    assert (r = 0 \/ r = 1 \/ r = 2 \/ r = 3 \/ r = 4 \/ r = 5 \/ r = 6 \/ r = 7)
      as Hr by lia.
    repeat (destruct Hr as [->|Hr]; [auto 10|]). subst. auto 10.
Qed.

Lemma in_bounds_true (r c : Z) :
  in_bounds r c = true <-> 0 <= r <= 7 /\ 0 <= c <= 7.
Proof. unfold in_bounds. rewrite !andb_true_iff, !Z.leb_le. lia. Qed.

Lemma possible_moves_In (g : ChessGame) (clr : Color) (from_sq to_sq : Square) :
  In (from_sq, to_sq) (get_all_possible_moves_for_player g clr None true)
  <-> exists piece,
        in_bounds (fst from_sq) (snd from_sq) = true
        /\ cell (board g) (fst from_sq) (snd from_sq) = Some piece
        /\ color piece = clr
        /\ In to_sq (live_piece_moves g piece (fst from_sq) (snd from_sq)).
Proof.
  unfold get_all_possible_moves_for_player. cbn [is_none andb].
  rewrite in_flat_map. split.
  - intros (r & Hr & H). apply in_flat_map in H. destruct H as (c & Hc & H).
    destruct (cell (board g) r c) as [piece|] eqn:Hcell; [|destruct H].
    destruct (color_eqb (color piece) clr) eqn:Hcol; [|destruct H].
    apply in_map_iff in H. destruct H as (m & [= <- <-] & Hm).
    exists piece. cbn [fst snd]. apply In_range8 in Hr, Hc.
    apply color_eqb_eq in Hcol. rewrite in_bounds_true. auto.
  - intros (piece & Hb & Hcell & Hcol & Hm). destruct from_sq as [r c].
    cbn [fst snd] in *. apply in_bounds_true in Hb.
    exists r. split; [apply In_range8; lia|]. apply in_flat_map.
    exists c. split; [apply In_range8; lia|]. rewrite Hcell.
    apply color_eqb_eq in Hcol. rewrite Hcol. apply in_map_iff.
    exists to_sq. auto.
Qed.

(** A legal move starts on a piece of the mover and follows its shape. *)
Lemma legal_moves_In (g : ChessGame) (clr : Color) (l : list Move)
    (from_sq to_sq : Square) :
  get_all_legal_moves_for_player g clr = Some l ->
  In (from_sq, to_sq) l ->
  exists piece,
    in_bounds (fst from_sq) (snd from_sq) = true
    /\ cell (board g) (fst from_sq) (snd from_sq) = Some piece
    /\ color piece = clr
    /\ In to_sq (live_piece_moves g piece (fst from_sq) (snd from_sq)).
Proof.
  intros Hl Hin. apply possible_moves_In.
  eapply filter_legal_In; eauto.
Qed.

(** ** Rejected input *)

Lemma same_position_set_status (g : ChessGame) (s : string) :
  same_position g (set_status g s).
Proof. repeat split. Qed.

(** C3: in a game that is not over, a call whose from-square is empty,
    holds a piece of the side not to move, or whose (from, to) pair is not
    among the legal moves of the side to move returns [False], sets one of
    the human-readable rejection texts as status, and leaves grid, side to
    move, castling rights, en-passant target and clocks unchanged. *)
Theorem process_move_rejects (g : ChessGame) (from_sq to_sq : Square)
    (promo : option string) :
  truthy (game_over_message g) = false ->
  (get_piece (board g) (fst from_sq) (snd from_sq) = None
   \/ (exists piece, get_piece (board g) (fst from_sq) (snd from_sq) = Some piece
                     /\ color piece <> current_player g)
   \/ (exists legal_moves,
         get_all_legal_moves_for_player g (current_player g) = Some legal_moves
         /\ ~ In (from_sq, to_sq) legal_moves)) ->
  exists g',
    process_move g from_sq to_sq promo = Some (PyBool false, g')
    /\ same_position g g'
    /\ In (status_message g') rejection_messages
    /\ game_over_message g' = game_over_message g.
Proof.
  intros Hover Hcase.
  assert (Hsel : forall g0, g0 = set_status g "Invalid selection or not your turn." ->
            same_position g g0 /\ In (status_message g0) rejection_messages
            /\ game_over_message g0 = game_over_message g).
  { intros g0 ->. split; [apply same_position_set_status|].
    split; [left; reflexivity|reflexivity]. }
  assert (Hill : forall g0, g0 = set_status g (illegal_message g) ->
            same_position g g0 /\ In (status_message g0) rejection_messages
            /\ game_over_message g0 = game_over_message g).
  { intros g0 ->. split; [apply same_position_set_status|].
    split; [|reflexivity]. unfold illegal_message, rejection_messages.
    cbn [status_message set_status].
    destruct (is_in_check _ _); [|simpl; auto].
    destruct (current_player g); simpl; auto. }
  destruct Hcase as [Hnone|[Hwrong|(l & Hl & Hnin)]].
  - eexists. split; [|apply Hsel; reflexivity].
    apply process_move_outcome. apply out_selection; auto.
  - eexists. split; [|apply Hsel; reflexivity].
    apply process_move_outcome. apply out_selection; auto.
  - destruct (get_piece (board g) (fst from_sq) (snd from_sq)) as [piece|] eqn:Hp.
    2:{ eexists. split; [|apply Hsel; reflexivity].
        apply process_move_outcome. apply out_selection; auto. }
    destruct (color_eqb (color piece) (current_player g)) eqn:Hc.
    + apply color_eqb_eq in Hc. eexists. split; [|apply Hill; reflexivity].
      apply process_move_outcome. eapply out_illegal; eauto.
    + eexists. split; [|apply Hsel; reflexivity].
      apply process_move_outcome. apply out_selection; auto.
      right. exists piece. split; [exact Hp|].
      intros E. apply color_eqb_eq in E. congruence.
Qed.

Lemma process_move_rejects_witness :
  exists g',
    process_move new_game (6, 4) (3, 4) None = Some (PyBool false, g')
    /\ same_position new_game g'
    /\ In (status_message g') rejection_messages
    /\ game_over_message g' = game_over_message new_game.
Proof.
  apply (process_move_rejects new_game (6, 4) (3, 4) None).
  - reflexivity.
  - right. right. eexists. split.
    + vm_compute. reflexivity.
    + rewrite <- move_mem_In. vm_compute. discriminate.
Defined.

(** ** A successful call, field by field *)

Lemma evaluate_status_position (g g' : ChessGame) :
  evaluate_status g = Some g' -> same_position g g'.
Proof.
  unfold evaluate_status.
  destruct (get_all_legal_moves_for_player g (current_player g)) as [l|];
    cbn [mbind option_bind]; [|discriminate].
  repeat match goal with
         | |- context [if ?b then _ else _] => destruct b
         end; intros [= <-]; repeat split.
Qed.

Lemma apply_move_inv (g : ChessGame) (from_sq to_sq : Square)
    (promo : option string) (g' : ChessGame) :
  apply_move g from_sq to_sq promo = Some g' ->
  exists b' captured is_pawn_move is_capture piece_moved,
    make_move (board g) from_sq to_sq promo
      = Some (b', (captured, is_pawn_move, is_capture))
    /\ get_piece b' (fst to_sq) (snd to_sq) = Some piece_moved
    /\ board g' = b'
    /\ current_player g' = opponent (current_player g)
    /\ castling_rights g'
       = update_castling_rights (castling_rights g) piece_moved from_sq
           (get_piece (board g) (fst to_sq) (snd to_sq)) to_sq
    /\ en_passant_target g'
       = (if kind_eqb (kind piece_moved) Pawn && (Z.abs (fst from_sq - fst to_sq) =? 2)
          then Some ((fst from_sq + fst to_sq) / 2, snd from_sq) else None)
    /\ halfmove_clock g'
       = (if is_pawn_move || is_capture then 0 else halfmove_clock g + 1)
    /\ fullmove_number g'
       = match current_player g with
         | B => fullmove_number g + 1
         | W => fullmove_number g
         end.
Proof.
  destruct from_sq as [r1 c1], to_sq as [r2 c2]. unfold apply_move.
  destruct (make_move (board g) (r1, c1) (r2, c2) promo)
    as [[b' [[captured is_pawn_move] is_capture]]|] eqn:Emk;
    cbn [mbind option_bind]; [|discriminate].
  destruct (get_piece b' r2 c2) as [piece_moved|] eqn:Epm;
    cbn [mbind option_bind]; [|discriminate].
  intros Hev. apply evaluate_status_position in Hev.
  destruct Hev as (Hb & Hcp & Hcr & Hep & Hhm & Hfm). cbn in Hb, Hcp, Hcr, Hep, Hhm, Hfm.
  exists b', captured, is_pawn_move, is_capture, piece_moved.
  cbn [fst snd]. repeat split; assumption.
Qed.

(** ** Entering and staying in a terminal state *)

(** The status evaluation leaves [game_over_message] alone or sets it to a
    checkmate or stalemate text, which makes the game terminal. *)
Lemma evaluate_status_game_over (g g' : ChessGame) :
  evaluate_status g = Some g' ->
  game_over_message g' = game_over_message g
  \/ (terminal g'
      /\ In (game_over_message g')
            [Some "Checkmate! Black wins."; Some "Checkmate! White wins.";
             Some "Stalemate! It's a draw."]).
Proof.
  unfold evaluate_status.
  destruct (get_all_legal_moves_for_player g (current_player g)) as [l|];
    cbn [mbind option_bind]; [|discriminate].
  repeat match goal with
         | |- context [if ?b then _ else _] => destruct b
         end; intros [= <-]; cbn [game_over_message set_status]; auto;
    right; destruct (current_player g); split; try reflexivity; simpl; auto.
Qed.

(** A message once set is never cleared. *)
Lemma process_move_keeps_terminal (g : ChessGame) (from_sq to_sq : Square)
    (promo : option string) (res : PyResult) (g' : ChessGame) :
  process_move g from_sq to_sq promo = Some (res, g') ->
  game_over_message g' = game_over_message g \/ terminal g'.
Proof.
  intros Hpm. apply process_move_outcome in Hpm.
  destruct Hpm as [| | | |piece l g' ? ? ? ? ? ? Happly]; auto.
  destruct from_sq as [r1 c1], to_sq as [r2 c2]. unfold apply_move in Happly.
  destruct (make_move _ _ _ _) as [[b' [[cap ipm] icap]]|];
    cbn [mbind option_bind] in Happly; [|discriminate].
  destruct (get_piece b' r2 c2) as [pm|]; cbn [mbind option_bind] in Happly;
    [|discriminate].
  apply evaluate_status_game_over in Happly. cbn [game_over_message] in Happly.
  tauto.
Qed.

(** From a terminal state on, whatever is called, the game stays as it is. *)
Lemma terminal_forever (g : ChessGame) (calls : list Call) :
  terminal g -> fold_left play calls (Some g) = Some g.
Proof.
  intros Hterm. induction calls as [|[[f t] p] calls IH]; [reflexivity|].
  cbn [fold_left]. replace (play (Some g) (f, t, p)) with (Some g); [exact IH|].
  unfold play, process_move. cbn [mbind option_bind fst snd].
  unfold terminal in Hterm. rewrite Hterm. reflexivity.
Qed.

(** ** Castling rights only ever go from true to false *)

Lemma rights_clear_false (cr : CastlingRights) (c c' : Color) (s s' : Side) :
  rights_get cr c' s' = false -> rights_get (rights_clear cr c s) c' s' = false.
Proof. destruct c, s, c', s'; simpl; auto. Qed.

Lemma update_castling_rights_false (cr : CastlingRights) (piece_moved : Piece)
    (from_sq to_sq : Square) (captured : option Piece) (c : Color) (s : Side) :
  rights_get cr c s = false ->
  rights_get (update_castling_rights cr piece_moved from_sq captured to_sq) c s
  = false.
Proof.
  intros H. unfold update_castling_rights.
  destruct from_sq as [r col], to_sq as [cap_r cap_c].
  repeat match goal with
         | |- context [match ?x with _ => _ end] => destruct x
         end; repeat apply rights_clear_false; exact H.
Qed.

(** C8: across a call of [process_move] from any game state, each of the
    four castling-rights flags is monotone: a flag that is false before the
    call is false after it. *)
Theorem castling_rights_monotone (g : ChessGame) (from_sq to_sq : Square)
    (promo : option string) (res : PyResult) (g' : ChessGame)
    (c : Color) (s : Side) :
  process_move g from_sq to_sq promo = Some (res, g') ->
  rights_get (castling_rights g) c s = false ->
  rights_get (castling_rights g') c s = false.
Proof.
  intros Hpm Hflag. apply process_move_outcome in Hpm.
  destruct Hpm as [| | | |piece l g' ? ? ? ? ? ? Happly]; try exact Hflag.
  apply apply_move_inv in Happly.
  destruct Happly as (b' & cap & ipm & icap & pm & _ & _ & _ & _ & Hcr & _).
  rewrite Hcr. apply update_castling_rights_false. exact Hflag.
Qed.

Lemma castling_rights_monotone_witness :
  rights_get (castling_rights king_walk_next) W SideK = false.
Proof.
  apply (castling_rights_monotone king_walk (1, 0) (2, 0) None (PyBool true)
           king_walk_next W SideK).
  - vm_compute. reflexivity.
  - vm_compute. reflexivity.
Defined.

(** ** The promotion signal *)




(** ** Castling eligibility *)

Lemma unmoved_on_test (b : Grid) (k : Kind) (clr : Color) (r c : Z) :
  unmoved_on b k clr r c
  <-> match cell b r c with
      | Some piece =>
          negb (kind_eqb (kind piece) k) || has_moved piece
          || negb (color_eqb (color piece) clr) = false
      | None => False
      end.
Proof.
  unfold unmoved_on. destruct (cell b r c) as [piece|].
  - rewrite !orb_false_iff, !negb_false_iff, kind_eqb_eq, color_eqb_eq. split.
    + intros (p & [= <-] & Hk & Hc & Hm). auto.
    + intros [[Hk Hm] Hc]. exists piece. auto.
  - split; [intros (p & [=] & _)|intros []].
Qed.

(** C5: [can_castle] answers [True] exactly when the castling-rights flag
    is set, the King of the colour is unmoved on its home square, a Rook of
    the colour is unmoved on the home file of the side, the squares strictly
    between them are empty, the King is not in check and, in the strict
    mode only, no square the King crosses or lands on is attacked by the
    opponent. *)
Theorem can_castle_iff (g : ChessGame) (clr : Color) (side : Side) (b : Grid)
    (check_intermediate_attacks : bool) :
  can_castle g clr side b check_intermediate_attacks = true
  <-> can_castle_spec g clr side b check_intermediate_attacks.
Proof.
  unfold can_castle, can_castle_spec. rewrite !unmoved_on_test.
  set (kr := home_row clr).
  destruct (is_in_check clr b); [split; [discriminate|intros (_ & _ & _ & _ & [=] & _)]|].
  destruct (cell b kr 4) as [king|]; [|split; [discriminate|intros (_ & [] & _)]].
  destruct (negb (kind_eqb (kind king) King) || has_moved king
            || negb (color_eqb (color king) clr));
    [split; [discriminate|intros (_ & [=] & _)]|].
  destruct (rights_get (castling_rights g) clr side); cbn [negb];
    [|split; [discriminate|intros ([=] & _)]].
  replace (match side with SideK => 7 | SideQ => 0 end) with (rook_file side)
    by reflexivity.
  destruct (cell b kr (rook_file side)) as [rook|];
    [|split; [discriminate|intros (_ & _ & [] & _)]].
  destruct (negb (kind_eqb (kind rook) Rook) || has_moved rook
            || negb (color_eqb (color rook) clr));
    [split; [discriminate|intros (_ & _ & [=] & _)]|].
  match goal with
  | |- context [forallb ?f ?l] =>
      assert (Hpath : forallb f l = true
                      <-> forall c, Z.min 4 (rook_file side) < c < Z.max 4 (rook_file side)
                                    -> cell b kr c = None)
  end.
  { destruct side; cbn [forallb fst snd rook_file]; rewrite !andb_true_iff.
    - split.
      + intros (H5 & H6 & _) c Hc.
        assert (c = 4 + 1 \/ c = 4 + 2) as [->| ->] by lia;
          [destruct (cell b kr (4 + 1))|destruct (cell b kr (4 + 2))];
          first [reflexivity|discriminate].
      + intros H. rewrite (H (4 + 1)), (H (4 + 2)) by lia. auto.
    - split.
      + intros (H3 & H2 & H1 & _) c Hc.
        assert (c = 4 - 1 \/ c = 4 - 2 \/ c = 4 - 3) as [->|[->| ->]] by lia;
          [destruct (cell b kr (4 - 1))|destruct (cell b kr (4 - 2))
          |destruct (cell b kr (4 - 3))];
          first [reflexivity|discriminate].
      + intros H. rewrite (H (4 - 1)), (H (4 - 2)), (H (4 - 3)) by lia. auto. }
  match goal with
  | |- context [if negb ?x then _ else _] => destruct x eqn:Hp
  end; cbn [negb].
  2:{ split; [discriminate|]. intros (_ & _ & _ & H & _).
      apply Hpath in H. discriminate. }
  clear Hp. pose proof (proj1 Hpath eq_refl) as Hp.
  destruct check_intermediate_attacks.
  - match goal with
    | |- context [forallb ?f ?l] =>
        assert (Hatt : forallb f l = true
                       <-> forall c, Z.min 4 (king_destination side) <= c
                                       <= Z.max 4 (king_destination side) ->
                                     c <> 4 ->
                                     is_square_attacked kr c (opponent clr) b = false)
    end.
    { destruct side; cbn [forallb fst snd king_destination];
        rewrite !andb_true_iff, !negb_true_iff.
      - split.
        + intros (H5 & H6 & _) c Hc Hne.
          assert (c = 4 + 1 \/ c = 4 + 2) as [->| ->] by lia; assumption.
        + intros H. rewrite (H (4 + 1)), (H (4 + 2)) by lia. auto.
      - split.
        + intros (H3 & H2 & _) c Hc Hne.
          assert (c = 4 - 1 \/ c = 4 - 2) as [->| ->] by lia; assumption.
        + intros H. rewrite (H (4 - 1)), (H (4 - 2)) by lia. auto. }
    rewrite Hatt. split.
    + intros H. repeat split; auto.
    + intros (_ & _ & _ & _ & _ & H). apply H. reflexivity.
  - split; [|reflexivity]. intros _. repeat split; auto. discriminate.
Qed.

(** ** Move shapes, square by square *)

Lemma free_for_test (own : Color) (b : Grid) (r c : Z) :
  free_for own b r c
  <-> match cell b r c with
      | None => True
      | Some q => negb (color_eqb (color q) own) = true
      end.
Proof.
  unfold free_for. destruct (cell b r c) as [q|]; [|reflexivity].
  rewrite negb_true_iff. split.
  - intros H. destruct (color_eqb (color q) own) eqn:E; [|reflexivity].
    apply color_eqb_eq in E. contradiction.
  - intros H E. apply color_eqb_eq in E. congruence.
Qed.

Lemma step_moves_In (own : Color) (b : Grid) (r c : Z) (offsets : list (Z * Z))
    (r_target c_target : Z) :
  In (r_target, c_target) (step_moves own b r c offsets)
  <-> jumps_to own b offsets r c r_target c_target.
Proof.
  unfold step_moves, jumps_to. rewrite in_flat_map.
  split; intros (d & Hd & H); exists d; (split; [exact Hd|]).
  - destruct (in_bounds (r + fst d) (c + snd d)) eqn:Hb; [|destruct H].
    assert (E : (r + fst d, c + snd d) = (r_target, c_target)
                /\ free_for own b (r + fst d) (c + snd d)).
    { rewrite free_for_test. destruct (cell b (r + fst d) (c + snd d)) as [q|].
      - destruct (negb (color_eqb (color q) own)); [|destruct H].
        destruct H as [H|[]]. auto.
      - destruct H as [H|[]]. auto. }
    destruct E as [[= <- <-] Hfree]. auto.
  - destruct H as (-> & -> & Hb & Hfree). rewrite Hb.
    apply free_for_test in Hfree.
    destruct (cell b (r + fst d) (c + snd d)) as [q|]; [rewrite Hfree|]; left; reflexivity.
Qed.

Lemma ray_In (own : Color) (b : Grid) (r c dr dc : Z) (n : nat) (k : Z)
    (r_target c_target : Z) :
  In (r_target, c_target) (ray own b r c dr dc (zseq k n))
  <-> exists i,
        k <= i < k + Z.of_nat n
        /\ r_target = r + dr * i /\ c_target = c + dc * i
        /\ in_bounds r_target c_target = true
        /\ (forall j, k <= j < i ->
              in_bounds (r + dr * j) (c + dc * j) = true
              /\ cell b (r + dr * j) (c + dc * j) = None)
        /\ free_for own b r_target c_target.
Proof.
  revert k. induction n as [|n IH]; intros k; cbn [zseq ray].
  - split; [intros []|]. intros (i & Hi & _). lia.
  - destruct (in_bounds (r + dr * k) (c + dc * k)) eqn:Hb; cbn [negb].
    2:{ split; [intros []|]. intros (i & Hi & -> & -> & Hbi & Hpath & _).
        destruct (Z.eq_dec i k) as [->|Hne]; [congruence|].
        destruct (Hpath k) as [Hbk _]; [lia|congruence]. }
    destruct (cell b (r + dr * k) (c + dc * k)) as [q|] eqn:Hcell.
    + assert (Hhere : (exists i,
                  k <= i < k + Z.of_nat (S n)
                  /\ r_target = r + dr * i /\ c_target = c + dc * i
                  /\ in_bounds r_target c_target = true
                  /\ (forall j, k <= j < i ->
                        in_bounds (r + dr * j) (c + dc * j) = true
                        /\ cell b (r + dr * j) (c + dc * j) = None)
                  /\ free_for own b r_target c_target)
                <-> (r_target = r + dr * k /\ c_target = c + dc * k
                     /\ color q <> own)).
      { split.
        - intros (i & Hi & -> & -> & Hbi & Hpath & Hfree).
          destruct (Z.eq_dec i k) as [->|Hne].
          + unfold free_for in Hfree. rewrite Hcell in Hfree. auto.
          + destruct (Hpath k) as [_ Hk]; [lia|congruence].
        - intros (-> & -> & Hq). exists k.
          repeat split; try lia; auto.
          unfold free_for. rewrite Hcell. exact Hq. }
      rewrite Hhere. destruct (color_eqb (color q) own) eqn:Hc; cbn [negb].
      * apply color_eqb_eq in Hc. split; [intros []|]. intros (_ & _ & H). contradiction.
      * split.
        -- intros [[= <- <-]|[]]. repeat split. intros E.
           apply color_eqb_eq in E. congruence.
        -- intros (-> & -> & _). left. reflexivity.
    + cbn [In]. rewrite IH. split.
      * intros [[= <- <-]|(i & Hi & -> & -> & Hbi & Hpath & Hfree)].
        -- exists k. repeat split; try lia; auto.
           unfold free_for. rewrite Hcell. exact I.
        -- exists i. split; [lia|]. do 3 (split; [auto|]). split; [|exact Hfree].
           intros j Hj. destruct (Z.eq_dec j k) as [->|Hne]; [auto|].
           apply Hpath. lia.
      * intros (i & Hi & -> & -> & Hbi & Hpath & Hfree).
        destruct (Z.eq_dec i k) as [->|Hne]; [left; reflexivity|].
        right. exists i. split; [lia|]. do 3 (split; [auto|]). split; [|exact Hfree].
        intros j Hj. apply Hpath. lia.
Qed.

Lemma slide_In (own : Color) (b : Grid) (r c : Z) (dirs : list (Z * Z))
    (r_target c_target : Z) :
  In (r_target, c_target) (slide own b r c dirs)
  <-> slides_to own b dirs r c r_target c_target.
Proof.
  unfold slide, slides_to. rewrite in_flat_map.
  change range1_8 with (zseq 1 7).
  split.
  - intros (d & Hd & H). apply ray_In in H.
    destruct H as (i & Hi & H). exists d, i. split; [exact Hd|].
    split; [lia|exact H].
  - intros (d & i & Hd & Hi & H). exists d. split; [exact Hd|].
    apply ray_In. exists i. split; [lia|exact H].
Qed.

(** The move shape of each of the four long-range and jumping kinds. *)
Lemma get_possible_moves_shape (b : Grid) (piece : Piece) (r c : Z)
    (r_target c_target : Z) :
  In (r_target, c_target) (get_possible_moves piece r c b)
  <-> match kind piece with
      | Rook => slides_to (color piece) b rook_directions r c r_target c_target
      | Bishop => slides_to (color piece) b bishop_directions r c r_target c_target
      | Queen =>
          slides_to (color piece) b rook_directions r c r_target c_target
          \/ slides_to (color piece) b bishop_directions r c r_target c_target
      | Knight => jumps_to (color piece) b knight_offsets r c r_target c_target
      | King => jumps_to (color piece) b king_offsets r c r_target c_target
      | Pawn => In (r_target, c_target) (pawn_moves piece r c b None)
      end.
Proof.
  unfold get_possible_moves, queen_moves, rook_moves, bishop_moves, knight_moves.
  destruct (kind piece);
    rewrite ?in_app_iff, ?slide_In, ?step_moves_In; reflexivity.
Qed.

(** ** Attack detection *)

Lemma king_adjacent (r c r_target c_target : Z) :
  (exists d, In d king_offsets /\ r + fst d = r_target /\ c + snd d = c_target)
  <-> Z.max (Z.abs (r_target - r)) (Z.abs (c_target - c)) = 1.
Proof.
  split.
  - intros (d & Hd & <- & <-). unfold king_offsets in Hd. simpl in Hd.
    repeat (destruct Hd as [<-|Hd]; [simpl; lia|]). destruct Hd.
  - intros H.
    assert (Hcases :
      (r_target = r + 0 /\ c_target = c + 1) \/ (r_target = r + 0 /\ c_target = c + -1)
      \/ (r_target = r + 1 /\ c_target = c + 0) \/ (r_target = r + -1 /\ c_target = c + 0)
      \/ (r_target = r + 1 /\ c_target = c + 1) \/ (r_target = r + 1 /\ c_target = c + -1)
      \/ (r_target = r + -1 /\ c_target = c + 1)
      \/ (r_target = r + -1 /\ c_target = c + -1)) by lia.
    unfold king_offsets.
    destruct Hcases as [[-> ->]|[[-> ->]|[[-> ->]|[[-> ->]|[[-> ->]|[[-> ->]
                       |[[-> ->]|[-> ->]]]]]]]];
      [exists (0, 1)|exists (0, -1)|exists (1, 0)|exists (-1, 0)
      |exists (1, 1)|exists (1, -1)|exists (-1, 1)|exists (-1, -1)];
      simpl; auto 12.
Qed.

Lemma attacks_from_iff (b : Grid) (attacker_color : Color)
    (r_target c_target r_idx c_idx : Z) :
  attacks_from b attacker_color r_target c_target r_idx c_idx = true
  <-> exists piece,
        cell b r_idx c_idx = Some piece
        /\ color piece = attacker_color
        /\ attack_rule b piece r_idx c_idx r_target c_target.
Proof.
  unfold attacks_from, attack_rule.
  destruct (cell b r_idx c_idx) as [piece|];
    [|split; [discriminate|intros (p & [=] & _)]].
  destruct (color_eqb (color piece) attacker_color) eqn:Hc.
  2:{ split; [discriminate|]. intros (p & [= <-] & E & _).
      apply color_eqb_eq in E. congruence. }
  apply color_eqb_eq in Hc.
  assert (Hgen : forall P : Prop,
            (exists p, Some piece = Some p /\ color p = attacker_color
                       /\ match kind p with
                          | Pawn =>
                              r_target = r_idx + direction (color p)
                              /\ (c_target = c_idx + 1 \/ c_target = c_idx - 1)
                          | King =>
                              Z.max (Z.abs (r_target - r_idx)) (Z.abs (c_target - c_idx)) = 1
                          | _ => In (r_target, c_target) (get_possible_moves p r_idx c_idx b)
                          end)
            <-> match kind piece with
                | Pawn =>
                    r_target = r_idx + direction (color piece)
                    /\ (c_target = c_idx + 1 \/ c_target = c_idx - 1)
                | King =>
                    Z.max (Z.abs (r_target - r_idx)) (Z.abs (c_target - c_idx)) = 1
                | _ => In (r_target, c_target) (get_possible_moves piece r_idx c_idx b)
                end).
  { intros _. split.
    - intros (p & [= <-] & _ & H). exact H.
    - intros H. exists piece. auto. }
  rewrite (Hgen True). clear Hgen.
  destruct (kind piece); try apply sq_mem_In.
  - rewrite andb_true_iff, orb_true_iff, !Z.eqb_eq. lia.
  - rewrite sq_mem_In, <- king_adjacent, in_flat_map.
    split; intros (d & Hd & H); exists d; (split; [exact Hd|]).
    + destruct ((r_idx + fst d =? r_target) && (c_idx + snd d =? c_target)) eqn:E;
        [|destruct H].
      apply andb_true_iff in E. rewrite !Z.eqb_eq in E. exact E.
    + destruct H as [<- <-]. rewrite !Z.eqb_refl. left. reflexivity.
Qed.

(** C7: for every grid and target square, [is_square_attacked] answers
    [True] exactly when some piece of the attacking colour stands on the
    board and reaches the target under the rule of its kind: a Pawn only
    through its two forward-diagonal cells, a King only through its eight
    adjacent cells, a Rook, Knight, Bishop or Queen through its pseudo-legal
    move shape on that grid. *)
Theorem is_square_attacked_iff (b : Grid) (r_target c_target : Z)
    (by_color : Color) :
  is_square_attacked r_target c_target by_color b = true
  <-> exists r c piece,
        0 <= r <= 7 /\ 0 <= c <= 7
        /\ cell b r c = Some piece
        /\ color piece = by_color
        /\ attack_rule b piece r c r_target c_target.
Proof.
  unfold is_square_attacked. rewrite existsb_exists. split.
  - intros (r & Hr & H). apply existsb_exists in H. destruct H as (c & Hc & H).
    apply attacks_from_iff in H. destruct H as (piece & H).
    apply In_range8 in Hr, Hc. exists r, c, piece. auto.
  - intros (r & c & piece & Hr & Hc & H).
    exists r. split; [apply In_range8; exact Hr|].
    apply existsb_exists. exists c. split; [apply In_range8; exact Hc|].
    apply attacks_from_iff. exists piece. exact H.
Qed.

(** ** Indexing the grid *)

Lemma py_index_lt {A} (l : list A) (i : Z) (n : nat) :
  py_index l i = Some n -> (n < length l)%nat.
Proof.
  unfold py_index.
  destruct ((0 <=? i) && (i <? Z.of_nat (length l))) eqn:E1.
  - intros [= <-]. apply andb_true_iff in E1. lia.
  - destruct ((- Z.of_nat (length l) <=? i) && (i <? 0)) eqn:E2; [|discriminate].
    intros [= <-]. apply andb_true_iff in E2. lia.
Qed.

Lemma py_index_in_range {A} (l : list A) (i : Z) :
  0 <= i < Z.of_nat (length l) -> py_index l i = Some (Z.to_nat i).
Proof.
  intros H. unfold py_index.
  replace ((0 <=? i) && (i <? Z.of_nat (length l))) with true; [reflexivity|].
  symmetry. apply andb_true_iff. lia.
Qed.

Lemma setitem2_cases (b : Grid) (r c : Z) (v : option Piece) (b' : Grid) :
  setitem2 b r c v = Some b' ->
  exists i j row,
    b !! i = Some row /\ (j < length row)%nat /\ b' = <[i := <[j := v]> row]> b.
Proof.
  unfold setitem2, getitem, setitem.
  destruct (py_index b r) as [i|] eqn:Ei; cbn [mbind option_bind]; [|discriminate].
  destruct (_ !! i) as [row|] eqn:Erow; cbn [mbind option_bind]; [|discriminate].
  destruct (py_index row c) as [j|] eqn:Ej; cbn [mbind option_bind]; [|discriminate].
  intros [= <-]. exists i, j, row. apply py_index_lt in Ej. auto.
Qed.

Lemma cell_insert (b : Grid) (i j : nat) (row : list (option Piece))
    (v : option Piece) (r c : Z) :
  b !! i = Some row -> (j < length row)%nat ->
  cell (<[i := <[j := v]> row]> b) r c
  = if decide (Z.to_nat r = i /\ Z.to_nat c = j) then v else cell b r c.
Proof.
  intros Hrow Hj. unfold cell. rewrite !nth_lookup.
  pose proof (lookup_lt_Some _ _ _ Hrow) as Hi.
  destruct (decide (Z.to_nat r = i)) as [->|Hne].
  - rewrite list_lookup_insert_eq by exact Hi. rewrite Hrow. unfold default, id.
    cbn [from_option].
    destruct (decide (Z.to_nat c = j)) as [->|Hnc].
    + rewrite list_lookup_insert_eq by exact Hj.
      rewrite decide_True by auto. reflexivity.
    + rewrite list_lookup_insert_ne by auto.
      rewrite decide_False by tauto. reflexivity.
  - rewrite list_lookup_insert_ne by auto.
    rewrite decide_False by tauto. reflexivity.
Qed.

(** An assignment that succeeds changes at most one cell, to the value
    assigned, and keeps the shape of the grid. *)
Lemma setitem2_cell (b : Grid) (r c : Z) (v : option Piece) (b' : Grid) :
  setitem2 b r c v = Some b' ->
  forall r' c', cell b' r' c' = cell b r' c' \/ cell b' r' c' = v.
Proof.
  intros H r' c'. apply setitem2_cases in H.
  destruct H as (i & j & row & Hrow & Hj & ->).
  rewrite (cell_insert _ _ _ _ _ _ _ Hrow Hj).
  destruct (decide _); auto.
Qed.

Lemma setitem2_8x8 (b : Grid) (r c : Z) (v : option Piece) (b' : Grid) :
  setitem2 b r c v = Some b' -> grid_8x8 b -> grid_8x8 b'.
Proof.
  intros H [Hlen Hrows]. apply setitem2_cases in H.
  destruct H as (i & j & row & Hrow & Hj & ->). split.
  - rewrite length_insert. exact Hlen.
  - apply Forall_insert; [exact Hrows|]. rewrite length_insert.
    exact (Forall_lookup_1 _ _ _ _ Hrows Hrow).
Qed.

Section InBounds.
Variable b : Grid.
Hypothesis Hb : grid_8x8 b.
Variables r c : Z.
Hypothesis Hrc : in_bounds r c = true.

Lemma row_in_bounds :
  b !! Z.to_nat r = Some (nth (Z.to_nat r) b []) /\
  length (nth (Z.to_nat r) b []) = 8%nat.
Proof.
  destruct Hb as [Hlen Hrows]. apply in_bounds_true in Hrc.
  destruct (nth_lookup_or_length b (Z.to_nat r) []) as [H|H]; [|lia].
  split; [exact H|]. exact (Forall_lookup_1 _ _ _ _ Hrows H).
Qed.

Lemma getitem2_in_bounds : getitem2 b r c = Some (cell b r c).
Proof.
  destruct row_in_bounds as [Hrow Hlen]. destruct Hb as [Hblen _].
  apply in_bounds_true in Hrc.
  unfold getitem2, getitem. rewrite py_index_in_range by lia.
  cbn [mbind option_bind]. rewrite Hrow. cbn [mbind option_bind].
  rewrite py_index_in_range by lia. cbn [mbind option_bind].
  unfold cell.
  destruct (nth_lookup_or_length (nth (Z.to_nat r) b []) (Z.to_nat c) None)
    as [H|H]; [exact H|lia].
Qed.

Lemma setitem2_in_bounds (v : option Piece) :
  setitem2 b r c v = Some (set_cell b r c v).
Proof.
  destruct row_in_bounds as [Hrow Hlen]. destruct Hb as [Hblen _].
  apply in_bounds_true in Hrc.
  unfold setitem2, getitem, setitem. rewrite py_index_in_range by lia.
  cbn [mbind option_bind]. rewrite Hrow. cbn [mbind option_bind].
  rewrite py_index_in_range by lia. reflexivity.
Qed.

Lemma grid_8x8_set_cell (v : option Piece) : grid_8x8 (set_cell b r c v).
Proof. exact (setitem2_8x8 _ _ _ _ _ (setitem2_in_bounds v) Hb). Qed.

Lemma cell_set_cell (v : option Piece) (r' c' : Z) :
  in_bounds r' c' = true ->
  cell (set_cell b r c v) r' c'
  = if (r' =? r) && (c' =? c) then v else cell b r' c'.
Proof.
  intros Hrc'. destruct row_in_bounds as [Hrow Hlen].
  apply in_bounds_true in Hrc, Hrc'.
  unfold set_cell. rewrite (cell_insert _ _ _ _ _ _ _ Hrow) by lia.
  destruct (decide _) as [[H1 H2]|Hne].
  - replace r' with r by lia. replace c' with c by lia.
    rewrite !Z.eqb_refl. reflexivity.
  - destruct (Z.eqb_spec r' r) as [->|Hr]; [|reflexivity].
    destruct (Z.eqb_spec c' c) as [->|Hc]; [|reflexivity].
    exfalso. apply Hne. auto.
Qed.
End InBounds.

(** ** What a move writes into the grid *)

Lemma only_moved_refl (b : Grid) : only_moved b b.
Proof. intros r c. auto. Qed.

Lemma only_moved_trans (b1 b2 b3 : Grid) :
  only_moved b1 b2 -> only_moved b2 b3 -> only_moved b1 b3.
Proof.
  intros H12 H23 r c. destruct (H23 r c) as [E|H]; [|auto].
  rewrite E. apply H12.
Qed.

Lemma setitem2_only_moved (b : Grid) (r c : Z) (v : option Piece) (b' : Grid) :
  setitem2 b r c v = Some b' -> moved_or_none v -> only_moved b b'.
Proof.
  intros H Hv r' c'. destruct (setitem2_cell _ _ _ _ _ H r' c') as [E|E]; [auto|].
  right. destruct v as [q|]; [right; exists q|left]; auto.
Qed.

Lemma moved_or_none_fmap (o : option Piece) : moved_or_none (mark_moved <$> o).
Proof. destruct o; exact eq_refl || exact I. Qed.

(** Peel one monadic step of a hypothesis [H : (x <- e; k x) = Some _]. *)
Ltac bind_step H x E :=
  match type of H with
  | mbind _ ?e = Some _ =>
      destruct e as [x|] eqn:E; cbn [mbind option_bind] in H; [|discriminate H]
  end.

Lemma make_move_special_grid (b : Grid) (piece : Piece) (r1 c1 r2 c2 : Z)
    (captured : option Piece) (b1 : Grid) (captured' : option Piece)
    (is_capture is_ep : bool) :
  make_move_special b piece r1 c1 r2 c2 captured
  = Some (b1, captured', is_capture, is_ep) ->
  (grid_8x8 b -> grid_8x8 b1) /\ only_moved b b1.
Proof.
  unfold make_move_special. intros H.
  destruct (kind_eqb (kind piece) King && (Z.abs (c2 - c1) =? 2)).
  - bind_step H rook Erook. bind_step H b' E1. bind_step H b'' E2.
    injection H as <- _ _ _. split.
    + intros Hb. eapply setitem2_8x8; [exact E2|]. eapply setitem2_8x8; eauto.
    + eapply only_moved_trans; eapply setitem2_only_moved; eauto.
      * apply moved_or_none_fmap.
      * exact I.
  - destruct (kind_eqb (kind piece) Pawn && (Z.abs (c2 - c1) =? 1) && is_none captured).
    + bind_step H pawn Epawn. bind_step H b' E1.
      injection H as <- _ _ _. split.
      * intros Hb. eapply setitem2_8x8; eauto.
      * eapply setitem2_only_moved; eauto. exact I.
    + injection H as <- _ _ _. split; [auto|apply only_moved_refl].
Qed.

Lemma make_move_grid (b : Grid) (from_sq to_sq : Square) (promo : option string)
    (b' : Grid) (out : option Piece * bool * bool) :
  make_move b from_sq to_sq promo = Some (b', out) ->
  (grid_8x8 b -> grid_8x8 b') /\ only_moved b b'.
Proof.
  destruct from_sq as [r1 c1], to_sq as [r2 c2]. unfold make_move. intros H.
  bind_step H p Ep. destruct p as [piece|].
  2:{ injection H as <- _. split; [auto|apply only_moved_refl]. }
  bind_step H captured Ecap. bind_step H sp Esp.
  destruct sp as [[[b1 captured'] is_capture] is_ep].
  apply make_move_special_grid in Esp. destruct Esp as [H8 Hm].
  bind_step H b2 E2. bind_step H b3 E3. bind_step H b4 E4.
  injection H as <- _.
  assert (H34 : (grid_8x8 b3 -> grid_8x8 b4) /\ only_moved b3 b4).
  { destruct (kind_eqb (kind piece) Pawn && promotion_rank (color piece) r2).
    - split; [intros Hb; eapply setitem2_8x8; eauto|].
      eapply setitem2_only_moved; eauto. reflexivity.
    - injection E4 as <-. split; [auto|apply only_moved_refl]. }
  destruct H34 as [H8' Hm']. split.
  - intros Hb. apply H8'. eapply setitem2_8x8; [exact E3|].
    eapply setitem2_8x8; [exact E2|]. auto.
  - eapply only_moved_trans; [exact Hm|].
    eapply only_moved_trans; [|exact Hm'].
    eapply only_moved_trans; eapply setitem2_only_moved; eauto.
    + reflexivity.
    + exact I.
Qed.

(** ** The invariant holds in every reachable state *)

Lemma unmoved_at_home_only_moved (b b' : Grid) :
  unmoved_at_home b -> only_moved b b' -> unmoved_at_home b'.
Proof.
  intros Hb Hm r c piece Hr Hc Hcell Hnm.
  destruct (Hm r c) as [E|[E|(q & E & Hq)]].
  - apply Hb; auto. congruence.
  - congruence.
  - congruence.
Qed.

Lemma wf_new_game : wf new_game.
Proof.
  split.
  - split; [reflexivity|]. repeat constructor.
  - intros r c piece Hr Hc Hcell _. exact Hcell.
Qed.

Lemma process_move_wf (g : ChessGame) (from_sq to_sq : Square)
    (promo : option string) (res : PyResult) (g' : ChessGame) :
  wf g -> process_move g from_sq to_sq promo = Some (res, g') -> wf g'.
Proof.
  intros Hwf Hpm. apply process_move_outcome in Hpm.
  destruct Hpm as [| | | |piece l g' ? ? ? ? ? ? Happly]; try exact Hwf.
  apply apply_move_inv in Happly.
  destruct Happly as (b' & cap & ipm & icap & pm & Hmk & _ & Hb & _).
  apply make_move_grid in Hmk. destruct Hmk as [H8 Hm].
  destruct Hwf as [Hwf1 Hwf2]. unfold wf. rewrite Hb. split.
  - apply H8. exact Hwf1.
  - eapply unmoved_at_home_only_moved; eauto.
Qed.

Lemma reachable_wf (g : ChessGame) : reachable g -> wf g.
Proof.
  induction 1 as [|g f t p res g' _ IH Hpm].
  - apply wf_new_game.
  - eapply process_move_wf; eauto.
Qed.

(** ** Where the pieces of the initial position stand *)

Lemma In_all_squares (r c : Z) :
  0 <= r <= 7 -> 0 <= c <= 7 -> In (r, c) all_squares.
Proof.
  intros Hr Hc. unfold all_squares. apply in_flat_map.
  exists r. split; [apply In_range8; exact Hr|].
  apply in_map. apply In_range8. exact Hc.
Qed.

Lemma initial_king_square (r c : Z) (piece : Piece) :
  0 <= r <= 7 -> 0 <= c <= 7 ->
  cell initial_grid r c = Some piece -> kind piece = King ->
  r = home_row (color piece) /\ c = 4.
Proof.
  intros Hr Hc Hcell Hk.
  assert (Hall : forallb (fun s =>
            match cell initial_grid (fst s) (snd s) with
            | Some p =>
                if kind_eqb (kind p) King
                then (fst s =? home_row (color p)) && (snd s =? 4) else true
            | None => true
            end) all_squares = true) by (vm_compute; reflexivity).
  rewrite forallb_forall in Hall. specialize (Hall (r, c) (In_all_squares r c Hr Hc)).
  cbn [fst snd] in Hall. rewrite Hcell in Hall.
  apply kind_eqb_eq in Hk. rewrite Hk in Hall.
  apply andb_true_iff in Hall. lia.
Qed.

Lemma initial_pawn_rank (r c : Z) (piece : Piece) :
  0 <= r <= 7 -> 0 <= c <= 7 ->
  cell initial_grid r c = Some piece -> kind piece = Pawn ->
  r = match color piece with W => 6 | B => 1 end.
Proof.
  intros Hr Hc Hcell Hk.
  assert (Hall : forallb (fun s =>
            match cell initial_grid (fst s) (snd s) with
            | Some p =>
                if kind_eqb (kind p) Pawn
                then fst s =? match color p with W => 6 | B => 1 end else true
            | None => true
            end) all_squares = true) by (vm_compute; reflexivity).
  rewrite forallb_forall in Hall. specialize (Hall (r, c) (In_all_squares r c Hr Hc)).
  cbn [fst snd] in Hall. rewrite Hcell in Hall.
  apply kind_eqb_eq in Hk. rewrite Hk in Hall. lia.
Qed.

(** ** Pseudo-legal moves stay on the board and leave their square *)

(** A pawn move is one rank forward on its own or a neighbouring file, or
    two ranks forward on its own file for a pawn that has not moved. *)
Lemma pawn_moves_In (self : Piece) (r c : Z) (b : Grid) (ep : option Square)
    (r_target c_target : Z) :
  in_bounds r c = true ->
  In (r_target, c_target) (pawn_moves self r c b ep) ->
  in_bounds r_target c_target = true
  /\ ((r_target = r + direction (color self)
       /\ (c_target = c \/ c_target = c + 1 \/ c_target = c - 1))
      \/ (r_target = r + 2 * direction (color self) /\ c_target = c
          /\ has_moved self = false)).
Proof.
  intros Hb. apply in_bounds_true in Hb. unfold pawn_moves.
  set (d := direction (color self)). rewrite in_app_iff. intros [H|H].
  - destruct ((0 <=? r + d) && (r + d <=? 7) && is_none (cell b (r + d) c)) eqn:E1;
      [|destruct H].
    rewrite !andb_true_iff, !Z.leb_le in E1. destruct H as [[= <- <-]|H].
    + rewrite in_bounds_true. split; [lia|]. left. auto.
    + destruct (negb (has_moved self) && (0 <=? r + 2 * d) && (r + 2 * d <=? 7)
                && is_none (cell b (r + 2 * d) c) && is_none (cell b (r + d) c)) eqn:E2;
        [|destruct H].
      rewrite !andb_true_iff, !Z.leb_le, negb_true_iff in E2.
      destruct H as [[= <- <-]|[]]. rewrite in_bounds_true. split; [lia|].
      right. tauto.
  - apply in_flat_map in H. destruct H as (dc & Hdc & H).
    destruct (in_bounds (r + d) (c + dc)) eqn:E; [|destruct H].
    assert (Hsq : (r_target, c_target) = (r + d, c + dc)).
    { apply in_app_iff in H. destruct H as [H|H].
      - destruct (cell b (r + d) (c + dc)) as [tp|]; [|destruct H].
        destruct (negb (color_eqb (color tp) (color self))); [|destruct H].
        destruct H as [<-|[]]. reflexivity.
      - destruct ep as [e|]; [|destruct H].
        destruct (sq_eqb (r + d, c + dc) e); [|destruct H].
        destruct H as [<-|[]]. reflexivity. }
    injection Hsq as -> ->. split; [exact E|]. left. split; [reflexivity|].
    destruct Hdc as [<-|[<-|[]]]; lia.
Qed.

Lemma slides_to_bounds (own : Color) (b : Grid) (dirs : list (Z * Z))
    (r c r_target c_target : Z) :
  slides_to own b dirs r c r_target c_target ->
  in_bounds r_target c_target = true.
Proof. intros (d & i & _ & _ & _ & _ & H & _). exact H. Qed.

Lemma jumps_to_bounds (own : Color) (b : Grid) (offsets : list (Z * Z))
    (r c r_target c_target : Z) :
  jumps_to own b offsets r c r_target c_target ->
  in_bounds r_target c_target = true.
Proof. intros (d & _ & _ & _ & H & _). exact H. Qed.

Lemma slides_to_distinct (own : Color) (b : Grid) (dirs : list (Z * Z))
    (r c r_target c_target : Z) :
  Forall (fun d => d <> (0, 0)) dirs ->
  slides_to own b dirs r c r_target c_target ->
  (r_target, c_target) <> (r, c).
Proof.
  intros Hdirs (d & i & Hd & Hi & -> & -> & _) [= E1 E2].
  rewrite List.Forall_forall in Hdirs. apply (Hdirs d Hd).
  destruct d as [dr dc]. cbn [fst snd] in *. f_equal; nia.
Qed.

Lemma jumps_to_distinct (own : Color) (b : Grid) (offsets : list (Z * Z))
    (r c r_target c_target : Z) :
  Forall (fun d => d <> (0, 0)) offsets ->
  jumps_to own b offsets r c r_target c_target ->
  (r_target, c_target) <> (r, c).
Proof.
  intros Hoff (d & Hd & -> & -> & _) [= E1 E2].
  rewrite List.Forall_forall in Hoff. apply (Hoff d Hd).
  destruct d as [dr dc]. cbn [fst snd] in *. f_equal; lia.
Qed.

Lemma directions_nonzero :
  Forall (fun d : Z * Z => d <> (0, 0)) rook_directions
  /\ Forall (fun d : Z * Z => d <> (0, 0)) bishop_directions
  /\ Forall (fun d : Z * Z => d <> (0, 0)) knight_offsets
  /\ Forall (fun d : Z * Z => d <> (0, 0)) king_offsets.
Proof. repeat split; repeat constructor; discriminate. Qed.

Section LiveMoves.
Variable g : ChessGame.
Hypothesis Hwf : wf g.
Variables (piece : Piece) (r c : Z).
Hypothesis Hrc : in_bounds r c = true.
Hypothesis Hcell : cell (board g) r c = Some piece.

(** A King that may still castle stands on its home square. *)
Lemma unmoved_king_home :
  kind piece = King -> has_moved piece = false ->
  r = home_row (color piece) /\ c = 4.
Proof.
  intros Hk Hm. destruct Hwf as [_ Hhome]. apply in_bounds_true in Hrc.
  apply (initial_king_square r c piece); try tauto.
  apply Hhome; tauto.
Qed.

Lemma unmoved_pawn_rank :
  kind piece = Pawn -> has_moved piece = false ->
  r = match color piece with W => 6 | B => 1 end.
Proof.
  intros Hk Hm. destruct Hwf as [_ Hhome]. apply in_bounds_true in Hrc.
  apply (initial_pawn_rank r c piece); try tauto.
  apply Hhome; tauto.
Qed.

Lemma king_moves_In (to_sq : Square) :
  kind piece = King ->
  In to_sq (king_moves piece r c (board g) (Some g)) ->
  jumps_to (color piece) (board g) king_offsets r c (fst to_sq) (snd to_sq)
  \/ (has_moved piece = false /\ r = home_row (color piece) /\ c = 4
      /\ ((to_sq = (r, 6) /\ can_castle g (color piece) SideK (board g) false = true)
          \/ (to_sq = (r, 2)
              /\ can_castle g (color piece) SideQ (board g) false = true))).
Proof.
  intros Hk. unfold king_moves. rewrite in_app_iff.
  destruct to_sq as [rt ct]. rewrite step_moves_In. intros [H|H]; [left; exact H|].
  right. destruct (has_moved piece) eqn:Hm; cbn [negb] in H; [destruct H|].
  destruct (unmoved_king_home Hk Hm) as [Hr Hc]. split; [reflexivity|].
  split; [exact Hr|]. split; [exact Hc|]. apply in_app_iff in H.
  destruct H as [H|H].
  - destruct (can_castle g (color piece) SideK (board g) false); [|destruct H].
    destruct H as [[= <- <-]|[]]. left. split; [f_equal; lia|reflexivity].
  - destruct (can_castle g (color piece) SideQ (board g) false); [|destruct H].
    destruct H as [[= <- <-]|[]]. right. split; [f_equal; lia|reflexivity].
Qed.

Lemma live_moves_in_bounds (to_sq : Square) :
  In to_sq (live_piece_moves g piece r c) ->
  in_bounds (fst to_sq) (snd to_sq) = true.
Proof.
  destruct to_sq as [rt ct]. unfold live_piece_moves. cbn [fst snd].
  destruct (kind piece) eqn:Hk.
  - intros H. apply (pawn_moves_In _ _ _ _ _ _ _ Hrc H).
  - intros H. apply get_possible_moves_shape in H. rewrite Hk in H.
    eapply slides_to_bounds; eauto.
  - intros H. apply get_possible_moves_shape in H. rewrite Hk in H.
    eapply jumps_to_bounds; eauto.
  - intros H. apply get_possible_moves_shape in H. rewrite Hk in H.
    eapply slides_to_bounds; eauto.
  - intros H. apply get_possible_moves_shape in H. rewrite Hk in H.
    destruct H as [H|H]; eapply slides_to_bounds; eauto.
  - intros H. apply (king_moves_In _ Hk) in H. cbn [fst snd] in H.
    destruct H as [H|(_ & Hr & Hc & [[[= -> ->] _]|[[= -> ->] _]])].
    + eapply jumps_to_bounds; eauto.
    + apply in_bounds_true in Hrc. apply in_bounds_true. lia.
    + apply in_bounds_true in Hrc. apply in_bounds_true. lia.
Qed.

Lemma live_moves_distinct (to_sq : Square) :
  In to_sq (live_piece_moves g piece r c) -> to_sq <> (r, c).
Proof.
  destruct directions_nonzero as (Hrook & Hbishop & Hknight & Hking).
  destruct to_sq as [rt ct]. unfold live_piece_moves.
  destruct (kind piece) eqn:Hk.
  - intros H. apply (pawn_moves_In _ _ _ _ _ _ _ Hrc) in H.
    destruct H as [_ H]. intros [= -> ->]. revert H.
    destruct (color piece); cbn [direction]; lia.
  - intros H. apply get_possible_moves_shape in H. rewrite Hk in H.
    exact (slides_to_distinct _ _ _ _ _ _ _ Hrook H).
  - intros H. apply get_possible_moves_shape in H. rewrite Hk in H.
    exact (jumps_to_distinct _ _ _ _ _ _ _ Hknight H).
  - intros H. apply get_possible_moves_shape in H. rewrite Hk in H.
    exact (slides_to_distinct _ _ _ _ _ _ _ Hbishop H).
  - intros H. apply get_possible_moves_shape in H. rewrite Hk in H.
    destruct H as [H|H];
      [exact (slides_to_distinct _ _ _ _ _ _ _ Hrook H)
      |exact (slides_to_distinct _ _ _ _ _ _ _ Hbishop H)].
  - intros H. apply (king_moves_In _ Hk) in H. cbn [fst snd] in H.
    destruct H as [H|(_ & Hr & Hc & [[[= -> ->] _]|[[= -> ->] _]])].
    + exact (jumps_to_distinct _ _ _ _ _ _ _ Hking H).
    + intros [= E]. lia.
    + intros [= E]. lia.
Qed.
End LiveMoves.

(** ** Moves between squares of the board never raise *)

Ltac inb := apply in_bounds_true; lia.

Lemma make_move_special_in_bounds (b : Grid) (piece : Piece) (r1 c1 r2 c2 : Z) :
  grid_8x8 b -> in_bounds r1 c1 = true -> in_bounds r2 c2 = true ->
  exists b1 captured' is_capture is_ep,
    make_move_special b piece r1 c1 r2 c2 (cell b r2 c2)
    = Some (b1, captured', is_capture, is_ep)
    /\ grid_8x8 b1
    /\ is_capture || is_ep = captures piece c1 c2 (cell b r2 c2).
Proof.
  intros Hb H1 H2. unfold make_move_special, captures.
  pose proof H1 as H1'. pose proof H2 as H2'.
  apply in_bounds_true in H1', H2'.
  destruct (kind_eqb (kind piece) King) eqn:Hking.
  - destruct (Z.abs (c2 - c1) =? 2) eqn:Habs; cbn [andb].
    + apply Z.eqb_eq in Habs.
      assert (Hrook : in_bounds r1 (if c2 <? c1 then 0 else 7) = true)
        by (destruct (c2 <? c1); inb).
      assert (Hnew : in_bounds r1 (c1 + (if c2 >? c1 then 1 else -1)) = true).
      { destruct (Z.gtb_spec c2 c1); inb. }
      rewrite (getitem2_in_bounds b Hb _ _ Hrook). cbn [mbind option_bind].
      rewrite (setitem2_in_bounds b Hb _ _ Hnew). cbn [mbind option_bind].
      rewrite setitem2_in_bounds by (try apply grid_8x8_set_cell; assumption).
      cbn [mbind option_bind]. do 4 eexists. split; [reflexivity|].
      split; [repeat apply grid_8x8_set_cell; assumption|].
      apply kind_eqb_eq in Hking. rewrite Hking. cbn [kind_eqb andb].
      rewrite !orb_false_r. reflexivity.
    + apply kind_eqb_eq in Hking. rewrite Hking. cbn [kind_eqb andb].
      do 4 eexists. split; [reflexivity|]. split; [assumption|].
      rewrite !orb_false_r. reflexivity.
  - cbn [andb].
    destruct (kind_eqb (kind piece) Pawn && (Z.abs (c2 - c1) =? 1)
              && is_none (cell b r2 c2)) eqn:Hep.
    + assert (Hcap : in_bounds r1 c2 = true) by inb.
      rewrite (getitem2_in_bounds b Hb _ _ Hcap). cbn [mbind option_bind].
      rewrite (setitem2_in_bounds b Hb _ _ Hcap). cbn [mbind option_bind].
      do 4 eexists. split; [reflexivity|].
      split; [apply grid_8x8_set_cell; assumption|].
      rewrite !orb_true_r. reflexivity.
    + do 4 eexists. split; [reflexivity|]. split; [assumption|].
      rewrite !orb_false_r. reflexivity.
Qed.

Lemma make_move_in_bounds (b : Grid) (piece : Piece) (r1 c1 r2 c2 : Z)
    (promo : option string) :
  grid_8x8 b -> in_bounds r1 c1 = true -> in_bounds r2 c2 = true ->
  (r2, c2) <> (r1, c1) ->
  cell b r1 c1 = Some piece ->
  exists b' captured,
    make_move b (r1, c1) (r2, c2) promo
    = Some (b', (captured, kind_eqb (kind piece) Pawn,
                 captures piece c1 c2 (cell b r2 c2)))
    /\ cell b' r2 c2 = Some (moved_piece piece r2 promo).
Proof.
  intros Hb H1 H2 Hne Hcell. unfold make_move.
  rewrite (getitem2_in_bounds b Hb _ _ H1), Hcell. cbn [mbind option_bind].
  rewrite (getitem2_in_bounds b Hb _ _ H2). cbn [mbind option_bind].
  destruct (make_move_special_in_bounds b piece r1 c1 r2 c2 Hb H1 H2)
    as (b1 & captured' & is_capture & is_ep & -> & Hb1 & Hflags).
  cbn [mbind option_bind].
  rewrite (setitem2_in_bounds b1 Hb1 _ _ H2). cbn [mbind option_bind].
  set (b2 := set_cell b1 r2 c2 (Some (mark_moved piece))).
  assert (Hb2 : grid_8x8 b2) by (apply grid_8x8_set_cell; assumption).
  rewrite (setitem2_in_bounds b2 Hb2 _ _ H1). cbn [mbind option_bind].
  set (b3 := set_cell b2 r1 c1 None).
  assert (Hb3 : grid_8x8 b3) by (apply grid_8x8_set_cell; assumption).
  assert (Hb3cell : cell b3 r2 c2 = Some (mark_moved piece)).
  { unfold b3. rewrite (cell_set_cell b2 Hb2 _ _ H1 _ _ _ H2).
    replace ((r2 =? r1) && (c2 =? c1)) with false.
    - unfold b2. rewrite (cell_set_cell b1 Hb1 _ _ H2 _ _ _ H2).
      rewrite !Z.eqb_refl. reflexivity.
    - symmetry. apply andb_false_iff.
      destruct (Z.eqb_spec r2 r1) as [->|]; [|auto]. right.
      apply Z.eqb_neq. congruence. }
  unfold moved_piece.
  destruct (kind_eqb (kind piece) Pawn && promotion_rank (color piece) r2).
  - rewrite (setitem2_in_bounds b3 Hb3 _ _ H2). cbn [mbind option_bind].
    do 2 eexists. split; [rewrite Hflags; reflexivity|].
    rewrite (cell_set_cell b3 Hb3 _ _ H2 _ _ _ H2), !Z.eqb_refl. reflexivity.
  - cbn [mbind option_bind]. do 2 eexists.
    split; [rewrite Hflags; reflexivity|exact Hb3cell].
Qed.

Lemma simulate_move_in_bounds (g : ChessGame) (clr : Color) (piece : Piece)
    (r1 c1 r2 c2 : Z) :
  grid_8x8 (board g) -> in_bounds r1 c1 = true -> in_bounds r2 c2 = true ->
  cell (board g) r1 c1 = Some piece ->
  exists o, simulate_move g clr (r1, c1) (r2, c2) = Some o.
Proof.
  intros Hb H1 H2 Hcell. unfold simulate_move. cbn [fst snd].
  pose proof H1 as H1'. pose proof H2 as H2'.
  apply in_bounds_true in H1', H2'.
  rewrite (getitem2_in_bounds _ Hb _ _ H1), Hcell. cbn [mbind option_bind].
  assert (Hcastle : exists o,
            sim_castling g clr (r1, c1) (r2, c2) piece (board g) = Some o
            /\ match o with SimSkip => True | SimBoard sim1 => grid_8x8 sim1 end).
  { unfold sim_castling. cbn [fst snd].
    destruct (kind_eqb (kind piece) King && (Z.abs (c2 - c1) =? 2)) eqn:E;
      [|eexists; split; [reflexivity|exact Hb]].
    apply andb_true_iff in E. destruct E as [_ Habs]. apply Z.eqb_eq in Habs.
    destruct (negb (can_castle g clr _ (board g) true));
      [eexists; split; [reflexivity|exact I]|].
    assert (Hrook : in_bounds r1 (if c2 <? c1 then 0 else 7) = true)
      by (destruct (c2 <? c1); inb).
    assert (Hnew : in_bounds r1 (c1 + (if c2 >? c1 then 1 else -1)) = true).
    { destruct (Z.gtb_spec c2 c1); inb. }
    rewrite (getitem2_in_bounds _ Hb _ _ Hrook). cbn [mbind option_bind].
    rewrite (setitem2_in_bounds _ Hb _ _ Hnew). cbn [mbind option_bind].
    rewrite setitem2_in_bounds by (try apply grid_8x8_set_cell; assumption).
    cbn [mbind option_bind]. eexists. split; [reflexivity|].
    repeat apply grid_8x8_set_cell; assumption. }
  destruct Hcastle as (o & -> & Ho). cbn [mbind option_bind].
  destruct o as [|sim1]; [eexists; reflexivity|].
  assert (Hep : exists sim2,
            sim_en_passant g (r1, c1) (r2, c2) piece sim1 = Some sim2
            /\ grid_8x8 sim2).
  { unfold sim_en_passant. cbn [fst snd].
    destruct (kind_eqb (kind piece) Pawn && _ && (Z.abs (c2 - c1) =? 1));
      [|eexists; split; [reflexivity|exact Ho]].
    rewrite (getitem2_in_bounds _ Ho _ _ H2). cbn [mbind option_bind].
    destruct (is_none (cell sim1 r2 c2)); [|eexists; split; [reflexivity|exact Ho]].
    assert (Hcap : in_bounds r1 c2 = true) by inb.
    rewrite (setitem2_in_bounds _ Ho _ _ Hcap). eexists. split; [reflexivity|].
    apply grid_8x8_set_cell; assumption. }
  destruct Hep as (sim2 & -> & Hsim2). cbn [mbind option_bind].
  rewrite (setitem2_in_bounds _ Hsim2 _ _ H2). cbn [mbind option_bind].
  rewrite setitem2_in_bounds by (try apply grid_8x8_set_cell; assumption).
  cbn [mbind option_bind]. eexists. reflexivity.
Qed.

(** ** On a reachable state no call raises *)

Lemma filter_legal_total (g : ChessGame) (clr : Color) (raw : list Move) :
  (forall from_sq to_sq, In (from_sq, to_sq) raw ->
     exists o, simulate_move g clr from_sq to_sq = Some o) ->
  exists l, filter_legal g clr raw = Some l.
Proof.
  induction raw as [|[f t] raw IH]; intros Hsim; cbn [filter_legal].
  - eexists. reflexivity.
  - destruct (Hsim f t) as (o & ->); [left; reflexivity|].
    destruct IH as (l & ->); [intros; apply Hsim; right; assumption|].
    cbn [mbind option_bind]. destruct o as [|sim]; [eexists; reflexivity|].
    destruct (negb (is_in_check clr sim)); eexists; reflexivity.
Qed.

Lemma legal_moves_total (g : ChessGame) (clr : Color) :
  wf g -> exists l, get_all_legal_moves_for_player g clr = Some l.
Proof.
  intros Hwf. apply filter_legal_total. intros [r1 c1] [r2 c2] Hin.
  apply possible_moves_In in Hin. cbn [fst snd] in Hin.
  destruct Hin as (piece & H1 & Hcell & _ & Hmove).
  pose proof (live_moves_in_bounds g Hwf piece r1 c1 H1 Hcell _ Hmove) as H2.
  destruct Hwf as [Hb _]. eapply simulate_move_in_bounds; eauto.
Qed.

Lemma evaluate_status_total (g : ChessGame) :
  wf g -> exists g', evaluate_status g = Some g'.
Proof.
  intros Hwf. unfold evaluate_status.
  destruct (legal_moves_total g (current_player g) Hwf) as (l & ->).
  cbn [mbind option_bind].
  repeat match goal with
         | |- context [if ?b then _ else _] => destruct b
         end; eexists; reflexivity.
Qed.

(** What a successful call does to the grid and the flags it reports. *)
Lemma legal_move_applied (g : ChessGame) (clr : Color) (l : list Move)
    (from_sq to_sq : Square) (promo : option string) :
  wf g ->
  get_all_legal_moves_for_player g clr = Some l ->
  In (from_sq, to_sq) l ->
  exists piece b' captured,
    in_bounds (fst from_sq) (snd from_sq) = true
    /\ in_bounds (fst to_sq) (snd to_sq) = true
    /\ cell (board g) (fst from_sq) (snd from_sq) = Some piece
    /\ In to_sq (live_piece_moves g piece (fst from_sq) (snd from_sq))
    /\ make_move (board g) from_sq to_sq promo
       = Some (b', (captured, kind_eqb (kind piece) Pawn,
                    captures piece (snd from_sq) (snd to_sq)
                      (cell (board g) (fst to_sq) (snd to_sq))))
    /\ cell b' (fst to_sq) (snd to_sq) = Some (moved_piece piece (fst to_sq) promo).
Proof.
  intros Hwf Hl Hin.
  destruct (legal_moves_In _ _ _ _ _ Hl Hin) as (piece & H1 & Hcell & _ & Hmove).
  pose proof (live_moves_in_bounds g Hwf piece _ _ H1 Hcell _ Hmove) as H2.
  pose proof (live_moves_distinct g Hwf piece _ _ H1 Hcell _ Hmove) as Hne.
  destruct from_sq as [r1 c1], to_sq as [r2 c2]. cbn [fst snd] in *.
  destruct (make_move_in_bounds (board g) piece r1 c1 r2 c2 promo
              (proj1 Hwf) H1 H2 Hne Hcell) as (b' & captured & Hmk & Hto).
  exists piece, b', captured. auto 10.
Qed.

(** X3: on a game that a run of [process_move] calls has produced from a
    fresh one, a further call returns, whatever its arguments (also squares
    off the board): no IndexError or AttributeError escapes. *)
Theorem process_move_total (g : ChessGame) (from_sq to_sq : Square)
    (promo : option string) :
  reachable g -> exists res g', process_move g from_sq to_sq promo = Some (res, g').
Proof.
  intros Hreach. pose proof (reachable_wf g Hreach) as Hwf.
  destruct (truthy (game_over_message g)) eqn:Hover.
  { do 2 eexists. apply process_move_outcome. apply out_terminal. exact Hover. }
  destruct (get_piece (board g) (fst from_sq) (snd from_sq)) as [piece|] eqn:Hp.
  2:{ do 2 eexists. apply process_move_outcome. apply out_selection; auto. }
  destruct (color_eqb (color piece) (current_player g)) eqn:Hc.
  2:{ do 2 eexists. apply process_move_outcome. apply out_selection; auto.
      right. exists piece. split; [exact Hp|]. intros E.
      apply color_eqb_eq in E. congruence. }
  apply color_eqb_eq in Hc.
  destruct (legal_moves_total g (current_player g) Hwf) as (l & Hl).
  destruct (move_mem (from_sq, to_sq) l) eqn:Hmem.
  2:{ do 2 eexists. apply process_move_outcome. eapply out_illegal; eauto.
      rewrite <- move_mem_In. congruence. }
  apply move_mem_In in Hmem.
  destruct (kind_eqb (kind piece) Pawn && promotion_rank (color piece) (fst to_sq)
            && negb (truthy promo)) eqn:Hpromo.
  { rewrite !andb_true_iff, negb_true_iff, kind_eqb_eq in Hpromo.
    destruct Hpromo as [[Hk Hr] Hpr].
    do 2 eexists. apply process_move_outcome. eapply out_promotion; eauto. }
  destruct (legal_move_applied g _ l from_sq to_sq promo Hwf Hl Hmem)
    as (piece' & b' & captured & H1 & H2 & Hcell & _ & Hmk & Hto).
  assert (Hev : exists g', apply_move (set_status g "") from_sq to_sq promo = Some g').
  { destruct from_sq as [r1 c1], to_sq as [r2 c2]. unfold apply_move.
    cbn [fst snd board set_status] in *. rewrite Hmk. cbn [mbind option_bind].
    assert (Hgp : get_piece b' r2 c2 = Some (moved_piece piece' r2 promo))
      by (unfold get_piece; rewrite H2; exact Hto).
    rewrite Hgp. cbn [mbind option_bind].
    apply evaluate_status_total. split; cbn [board].
    - apply (make_move_grid _ _ _ _ _ _ Hmk). apply Hwf.
    - eapply unmoved_at_home_only_moved; [apply Hwf|].
      apply (make_move_grid _ _ _ _ _ _ Hmk). }
  destruct Hev as (g' & Hev). exists (PyBool true), g'.
  apply process_move_outcome. eapply out_moved; eauto.
  intros Hk Hr. rewrite <- kind_eqb_eq in Hk. rewrite Hk, Hr in Hpromo.
  cbn [andb] in Hpromo. apply negb_false_iff in Hpromo. exact Hpromo.
Qed.

Lemma process_move_total_witness :
  exists res g', process_move after_e4 (9, -3) (3, 4) None = Some (res, g').
Proof.
  apply (process_move_total after_e4 (9, -3) (3, 4) None).
  apply (replay_reachable [((6, 4), (4, 4), None)]). vm_compute. reflexivity.
Defined.

(** ** Clocks and en-passant target after a move *)

(** C9: after a successful call of [process_move] on a reachable game, the
    halfmove clock is 0 if the moved piece is a Pawn or the move captures
    (en passant included) and the previous value plus 1 otherwise; the
    en-passant target is the square behind the destination (the midpoint of
    the two ranks, on the file of the move) if the moved piece is a Pawn that
    advanced exactly two ranks, and [None] otherwise. *)
Theorem process_move_clock_and_en_passant (g : ChessGame)
    (from_sq to_sq : Square) (promo : option string) (g' : ChessGame) :
  reachable g ->
  process_move g from_sq to_sq promo = Some (PyBool true, g') ->
  exists piece,
    cell (board g) (fst from_sq) (snd from_sq) = Some piece
    /\ halfmove_clock g'
       = (if kind_eqb (kind piece) Pawn
             || captures piece (snd from_sq) (snd to_sq)
                  (cell (board g) (fst to_sq) (snd to_sq))
          then 0 else halfmove_clock g + 1)
    /\ en_passant_target g'
       = (if kind_eqb (kind piece) Pawn && (Z.abs (fst to_sq - fst from_sq) =? 2)
          then Some (fst to_sq - direction (color piece), snd to_sq) else None)
    /\ (kind piece = Pawn -> Z.abs (fst to_sq - fst from_sq) = 2 ->
        fst to_sq - direction (color piece) = (fst from_sq + fst to_sq) / 2
        /\ snd to_sq = snd from_sq).
Proof.
  intros Hreach Hpm. pose proof (reachable_wf g Hreach) as Hwf.
  apply process_move_outcome in Hpm.
  inversion Hpm as [| | | |piece0 l g1 Hover Hp0 Hc0 Hl Hin Hpr Happly Hres Hg].
  subst g1.
  destruct (legal_move_applied g _ l from_sq to_sq promo Hwf Hl Hin)
    as (piece & b' & captured & H1 & H2 & Hcell & Hmove & Hmk & Hto).
  apply apply_move_inv in Happly. cbn [board set_status halfmove_clock] in Happly.
  destruct Happly as (b1 & cap1 & ipm & icap & pm & Hmk1 & Hpm1 & _ & _ & _
                      & Hep & Hhm & _).
  rewrite Hmk in Hmk1. injection Hmk1 as <- <- <- <-.
  unfold get_piece in Hpm1. rewrite H2, Hto in Hpm1. injection Hpm1 as <-.
  exists piece. split; [exact Hcell|]. split; [exact Hhm|].
  assert (Hdouble : kind piece = Pawn -> Z.abs (fst to_sq - fst from_sq) = 2 ->
            fst to_sq = fst from_sq + 2 * direction (color piece)
            /\ snd to_sq = snd from_sq
            /\ fst from_sq = match color piece with W => 6 | B => 1 end).
  { intros Hk Habs. unfold live_piece_moves in Hmove. rewrite Hk in Hmove.
    destruct to_sq as [r2 c2]. apply (pawn_moves_In _ _ _ _ _ _ _ H1) in Hmove.
    cbn [fst snd] in *. destruct Hmove as [_ [[Hr _]|(Hr & Hcol & Hm)]].
    - exfalso. revert Hr Habs. destruct (color piece); cbn [direction]; lia.
    - split; [exact Hr|]. split; [exact Hcol|].
      exact (unmoved_pawn_rank g Hwf piece _ _ H1 Hcell Hk Hm). }
  split.
  - rewrite Hep. destruct (kind_eqb (kind piece) Pawn) eqn:Hk.
    + apply kind_eqb_eq in Hk.
      replace (Z.abs (fst from_sq - fst to_sq)) with (Z.abs (fst to_sq - fst from_sq))
        by lia.
      destruct (Z.eqb_spec (Z.abs (fst to_sq - fst from_sq)) 2) as [Habs|Hn];
        [|rewrite andb_false_r; reflexivity].
      destruct (Hdouble Hk Habs) as (Hr & Hcol & Hhome).
      assert (Hnp : promotion_rank (color piece) (fst to_sq) = false).
      { rewrite Hr, Hhome. destruct (color piece); reflexivity. }
      unfold moved_piece. rewrite Hnp, andb_false_r. cbn [mark_moved kind].
      rewrite <- kind_eqb_eq in Hk. rewrite Hk. cbn [andb].
      f_equal. f_equal; [|auto].
      rewrite Hr. destruct (color piece); cbn [direction];
        rewrite Hhome; reflexivity.
    + cbn [andb]. unfold moved_piece. rewrite Hk. cbn [andb mark_moved kind].
      rewrite Hk. reflexivity.
  - intros Hk Habs. destruct (Hdouble Hk Habs) as (Hr & Hcol & Hhome).
    split; [|exact Hcol]. rewrite Hr, Hhome.
    destruct (color piece); reflexivity.
Qed.

Lemma process_move_clock_and_en_passant_witness :
  exists piece,
    cell (board new_game) 6 4 = Some piece
    /\ halfmove_clock after_e4
       = (if kind_eqb (kind piece) Pawn
             || captures piece 4 4 (cell (board new_game) 4 4)
          then 0 else halfmove_clock new_game + 1)
    /\ en_passant_target after_e4
       = (if kind_eqb (kind piece) Pawn && (Z.abs (4 - 6) =? 2)
          then Some (4 - direction (color piece), 4) else None)
    /\ (kind piece = Pawn -> Z.abs (4 - 6) = 2 ->
        4 - direction (color piece) = (6 + 4) / 2 /\ 4 = 4).
Proof.
  apply (process_move_clock_and_en_passant new_game (6, 4) (4, 4) None after_e4).
  - apply reachable_new.
  - vm_compute. reflexivity.
Defined.

(** ** The simulated grid and the grid after the real move *)

Lemma alike_cell_refl (clr : Color) (o : option Piece) : alike_cell clr o o.
Proof. destruct o; cbn; auto. Qed.

Lemma alike_cell_moved (clr : Color) (o : option Piece) :
  alike_cell clr o (mark_moved <$> o).
Proof. destruct o; cbn; auto. Qed.

Lemma alike_refl (clr : Color) (b : Grid) : alike clr b b.
Proof. intros r c _. apply alike_cell_refl. Qed.

Lemma alike_set_cell (clr : Color) (b1 b2 : Grid) (r c : Z) (v1 v2 : option Piece) :
  grid_8x8 b1 -> grid_8x8 b2 -> in_bounds r c = true ->
  alike clr b1 b2 -> alike_cell clr v1 v2 ->
  alike clr (set_cell b1 r c v1) (set_cell b2 r c v2).
Proof.
  intros H1 H2 Hrc Hb Hv r' c' Hrc'.
  rewrite !cell_set_cell by assumption.
  destruct ((r' =? r) && (c' =? c)); auto.
Qed.

Lemma alike_set_right (clr : Color) (b1 b2 : Grid) (r c : Z) (v : option Piece) :
  grid_8x8 b2 -> in_bounds r c = true ->
  alike clr b1 b2 -> alike_cell clr (cell b1 r c) v ->
  alike clr b1 (set_cell b2 r c v).
Proof.
  intros H2 Hrc Hb Hv r' c' Hrc'.
  rewrite cell_set_cell by assumption.
  destruct (Z.eqb_spec r' r) as [->|]; [|apply Hb; assumption].
  destruct (Z.eqb_spec c' c) as [->|]; [exact Hv|apply Hb; assumption].
Qed.

(** *** Attack detection on alike grids *)

Section Alike.
Variables (clr : Color) (b1 b2 : Grid).
Hypothesis Halike : alike clr b1 b2.

Lemma alike_none (r c : Z) :
  in_bounds r c = true -> is_none (cell b1 r c) = is_none (cell b2 r c).
Proof.
  intros H. pose proof (Halike r c H) as Hrc.
  destruct (cell b1 r c), (cell b2 r c); cbn in *; tauto.
Qed.

Lemma ray_alike (own : Color) (r c dr dc : Z) (steps : list Z) :
  ray own b1 r c dr dc steps = ray own b2 r c dr dc steps.
Proof.
  induction steps as [|i steps IH]; cbn [ray]; [reflexivity|].
  destruct (in_bounds (r + dr * i) (c + dc * i)) eqn:Hb; cbn [negb]; [|reflexivity].
  pose proof (Halike _ _ Hb) as Hcell.
  destruct (cell b1 (r + dr * i) (c + dc * i)) as [p|],
           (cell b2 (r + dr * i) (c + dc * i)) as [q|];
    cbn in Hcell; try contradiction.
  - destruct Hcell as [-> _]. reflexivity.
  - rewrite IH. reflexivity.
Qed.

Lemma step_moves_alike (own : Color) (r c : Z) (offsets : list (Z * Z)) :
  step_moves own b1 r c offsets = step_moves own b2 r c offsets.
Proof.
  unfold step_moves. apply flat_map_ext. intros d.
  destruct (in_bounds (r + fst d) (c + snd d)) eqn:Hb; [|reflexivity].
  pose proof (Halike _ _ Hb) as Hcell.
  destruct (cell b1 (r + fst d) (c + snd d)) as [p|],
           (cell b2 (r + fst d) (c + snd d)) as [q|];
    cbn in Hcell; try contradiction; [|reflexivity].
  destruct Hcell as [-> _]. reflexivity.
Qed.

Lemma slide_alike (own : Color) (r c : Z) (dirs : list (Z * Z)) :
  slide own b1 r c dirs = slide own b2 r c dirs.
Proof. unfold slide. apply flat_map_ext. intros d. apply ray_alike. Qed.

(** A piece of the other colour attacks the same squares on both grids. *)
Lemma attacks_from_alike (r_target c_target r c : Z) :
  in_bounds r c = true ->
  attacks_from b1 (opponent clr) r_target c_target r c
  = attacks_from b2 (opponent clr) r_target c_target r c.
Proof.
  intros Hb. unfold attacks_from. pose proof (Halike _ _ Hb) as Hcell.
  destruct (cell b1 r c) as [p|], (cell b2 r c) as [q|];
    cbn in Hcell; try contradiction; [|reflexivity].
  destruct Hcell as [Hc Hk]. rewrite <- Hc.
  destruct (color_eqb (color p) (opponent clr)) eqn:E; [|reflexivity].
  apply color_eqb_eq in E.
  assert (Hkind : kind p = kind q).
  { destruct Hk as [Hk|[Hk _]]; [exact Hk|].
    rewrite Hk in E. destruct clr; discriminate. }
  rewrite <- Hkind. destruct (kind p) eqn:Hkp; try reflexivity;
    unfold get_possible_moves; rewrite <- Hkind, Hkp, <- Hc;
    unfold rook_moves, knight_moves, bishop_moves, queen_moves,
      rook_moves, bishop_moves;
    rewrite ?slide_alike, ?step_moves_alike; reflexivity.
Qed.

Lemma is_square_attacked_alike (r_target c_target : Z) :
  is_square_attacked r_target c_target (opponent clr) b1
  = is_square_attacked r_target c_target (opponent clr) b2.
Proof.
  unfold is_square_attacked.
  assert (Hext : forall (f h : Z -> bool) (l : list Z),
            (forall x, In x l -> f x = h x) -> existsb f l = existsb h l).
  { intros f h l. induction l as [|x l IH]; intros H; cbn [existsb]; [reflexivity|].
    rewrite (H x (or_introl eq_refl)), IH; [reflexivity|].
    intros y Hy. apply H. right. exact Hy. }
  apply Hext. intros r Hr. apply Hext. intros c Hc.
  apply attacks_from_alike. apply In_range8 in Hr, Hc. apply in_bounds_true. lia.
Qed.

Lemma find_king_alike : find_king clr b1 = find_king clr b2.
Proof.
  unfold find_king.
  assert (Hext : forall (f h : Z * Z -> bool) (l : list (Z * Z)),
            (forall x, In x l -> f x = h x) -> List.find f l = List.find h l).
  { intros f h l. induction l as [|x l IH]; intros H; cbn [List.find]; [reflexivity|].
    rewrite (H x (or_introl eq_refl)), IH; [reflexivity|].
    intros y Hy. apply H. right. exact Hy. }
  apply Hext. intros [r c] Hin. cbn [fst snd].
  assert (Hb : in_bounds r c = true).
  { unfold all_squares in Hin. apply in_flat_map in Hin.
    destruct Hin as (r' & Hr & Hin). apply in_map_iff in Hin.
    destruct Hin as (c' & [= <- <-] & Hc). apply In_range8 in Hr, Hc.
    apply in_bounds_true. lia. }
  pose proof (Halike _ _ Hb) as Hcell.
  destruct (cell b1 r c) as [p|], (cell b2 r c) as [q|];
    cbn in Hcell; try contradiction; [|reflexivity].
  destruct Hcell as [Hc [Hk|(_ & Hp & Hq)]].
  - rewrite Hk, Hc. reflexivity.
  - rewrite <- Hc. replace (kind_eqb (kind p) King) with false;
      [replace (kind_eqb (kind q) King) with false; [reflexivity|]|];
      symmetry; apply not_true_is_false; rewrite kind_eqb_eq; assumption.
Qed.

Lemma is_in_check_alike : is_in_check clr b1 = is_in_check clr b2.
Proof.
  unfold is_in_check. rewrite find_king_alike.
  destruct (find_king clr b2) as [king_pos|]; [|reflexivity].
  apply is_square_attacked_alike.
Qed.
End Alike.

(** *** The simulation and the move played *)

(** A pawn steps onto an empty square of a neighbouring file only when that
    square is the en-passant target. *)
Lemma pawn_diagonal_empty (self : Piece) (r c : Z) (b : Grid) (ep : option Square)
    (r_target c_target : Z) :
  In (r_target, c_target) (pawn_moves self r c b ep) ->
  c_target <> c -> cell b r_target c_target = None ->
  match ep with
  | Some e => sq_eqb (r_target, c_target) e
  | None => false
  end = true.
Proof.
  unfold pawn_moves. set (d := direction (color self)).
  rewrite in_app_iff. intros [H|H] Hne Hnone.
  - exfalso. destruct (_ && _ && is_none (cell b (r + d) c)); [|destruct H].
    destruct H as [[= _ <-]|H]; [congruence|].
    destruct (_ && _ && _ && _ && _); [|destruct H].
    destruct H as [[= _ <-]|[]]. congruence.
  - apply in_flat_map in H. destruct H as (dc & _ & H).
    destruct (in_bounds (r + d) (c + dc)); [|destruct H].
    apply in_app_iff in H. destruct H as [H|H].
    + exfalso. destruct (cell b (r + d) (c + dc)) as [tp|] eqn:E; [|destruct H].
      destruct (negb _); [|destruct H]. destruct H as [[= <- <-]|[]]. congruence.
    + destruct ep as [e|]; [|destruct H].
      destruct (sq_eqb (r + d, c + dc) e) eqn:E; [|destruct H].
      destruct H as [[= <- <-]|[]]. exact E.
Qed.

Ltac grid_side := first [assumption | repeat apply grid_8x8_set_cell; assumption].

Ltac grid_step :=
  first [rewrite getitem2_in_bounds by grid_side
        |rewrite setitem2_in_bounds by grid_side];
  cbn [mbind option_bind].

Lemma promo_class_not_king (promo : option string) : promo_class promo <> King.
Proof.
  unfold promo_class.
  repeat match goal with
         | |- context [if ?b then _ else _] => destruct b
         end; discriminate.
Qed.

Section BothGrids.
Variables (b : Grid) (piece : Piece) (r1 c1 r2 c2 : Z).
Hypothesis Hb : grid_8x8 b.
Hypothesis H1 : in_bounds r1 c1 = true.
Hypothesis H2 : in_bounds r2 c2 = true.
Hypothesis Hcell : cell b r1 c1 = Some piece.

Lemma castling_squares_in_bounds :
  Z.abs (c2 - c1) = 2 ->
  in_bounds r1 (if c2 <? c1 then 0 else 7) = true
  /\ in_bounds r1 (c1 + (if c2 >? c1 then 1 else -1)) = true.
Proof.
  intros Habs. pose proof H1 as H1'. pose proof H2 as H2'.
  apply in_bounds_true in H1', H2'. split.
  - destruct (c2 <? c1); inb.
  - destruct (Z.gtb_spec c2 c1); inb.
Qed.

Lemma capture_square_in_bounds : in_bounds r1 c2 = true.
Proof.
  pose proof H1 as H1'. pose proof H2 as H2'.
  apply in_bounds_true in H1', H2'. inb.
Qed.

Lemma simulate_move_eq (g : ChessGame) (clr : Color) (sim : Grid) :
  board g = b ->
  simulate_move g clr (r1, c1) (r2, c2) = Some (SimBoard sim) ->
  sim = sim_grid b piece r1 c1 r2 c2 (en_passant_target g).
Proof.
  intros Hg. unfold simulate_move, sim_castling, sim_en_passant, sim_grid.
  cbn [fst snd]. rewrite Hg.
  pose proof capture_square_in_bounds as Hcap.
  rewrite (getitem2_in_bounds _ Hb _ _ H1), Hcell. cbn [mbind option_bind].
  destruct (kind_eqb (kind piece) King) eqn:Hking; cbn [andb].
  - apply kind_eqb_eq in Hking. rewrite Hking. cbn [kind_eqb andb].
    destruct (Z.eqb_spec (Z.abs (c2 - c1)) 2) as [Habs|Habs].
    + destruct (castling_squares_in_bounds Habs) as [Hrook Hnew].
      destruct (negb (can_castle g clr _ b true)); [discriminate|].
      repeat grid_step. intros [= <-]. reflexivity.
    + cbn [mbind option_bind]. repeat grid_step. intros [= <-]. reflexivity.
  - cbn [mbind option_bind].
    destruct (kind_eqb (kind piece) Pawn
              && match en_passant_target g with
                 | Some e => sq_eqb (r2, c2) e
                 | None => false
                 end && (Z.abs (c2 - c1) =? 1)); cbn [andb].
    + grid_step. destruct (is_none (cell b r2 c2)).
      * repeat grid_step. intros [= <-]. reflexivity.
      * cbn [mbind option_bind]. repeat grid_step. intros [= <-]. reflexivity.
    + cbn [mbind option_bind]. repeat grid_step. intros [= <-]. reflexivity.
Qed.

Lemma make_move_eq (promo : option string) (b' : Grid)
    (out : option Piece * bool * bool) :
  make_move b (r1, c1) (r2, c2) promo = Some (b', out) ->
  b' = move_grid b piece r1 c1 r2 c2 promo.
Proof.
  unfold make_move, make_move_special, move_grid.
  pose proof capture_square_in_bounds as Hcap.
  rewrite (getitem2_in_bounds _ Hb _ _ H1), Hcell. cbn [mbind option_bind].
  rewrite (getitem2_in_bounds _ Hb _ _ H2). cbn [mbind option_bind].
  destruct (kind_eqb (kind piece) King && (Z.abs (c2 - c1) =? 2)) eqn:Ecastle.
  - apply andb_true_iff in Ecastle. destruct Ecastle as [Hking Habs].
    apply kind_eqb_eq in Hking. apply Z.eqb_eq in Habs.
    destruct (castling_squares_in_bounds Habs) as [Hrook Hnew].
    rewrite Hking. cbn [kind_eqb andb].
    repeat grid_step. intros [= <- _]. reflexivity.
  - destruct (kind_eqb (kind piece) Pawn && (Z.abs (c2 - c1) =? 1)
              && is_none (cell b r2 c2)).
    + repeat grid_step.
      destruct (kind_eqb (kind piece) Pawn && promotion_rank (color piece) r2);
        repeat grid_step; intros [= <- _]; reflexivity.
    + cbn [mbind option_bind]. repeat grid_step.
      destruct (kind_eqb (kind piece) Pawn && promotion_rank (color piece) r2);
        repeat grid_step; intros [= <- _]; reflexivity.
Qed.
(** The two grids differ in [has_moved] flags and in the kind of a
    promoted pawn only. *)
Lemma sim_grid_alike (ep : option Square) (promo : option string) :
  (r2, c2) <> (r1, c1) ->
  (kind piece = Pawn -> c2 <> c1 -> cell b r2 c2 = None ->
   match ep with Some e => sq_eqb (r2, c2) e | None => false end = true) ->
  alike (color piece) (sim_grid b piece r1 c1 r2 c2 ep)
        (move_grid b piece r1 c1 r2 c2 promo).
Proof.
  intros Hne Hep. pose proof capture_square_in_bounds as Hcap.
  set (clr := color piece).
  assert (Hspecial : exists b1s b1m,
            sim_grid b piece r1 c1 r2 c2 ep
            = set_cell (set_cell b1s r2 c2 (Some piece)) r1 c1 None
            /\ move_grid b piece r1 c1 r2 c2 promo
               = (let b3 := set_cell (set_cell b1m r2 c2 (Some (mark_moved piece)))
                              r1 c1 None in
                  if kind_eqb (kind piece) Pawn && promotion_rank (color piece) r2
                  then set_cell b3 r2 c2
                         (Some (mkPiece (promo_class promo) (color piece) true))
                  else b3)
            /\ grid_8x8 b1s /\ grid_8x8 b1m /\ alike clr b1s b1m).
  { unfold sim_grid, move_grid.
    destruct (kind_eqb (kind piece) King && (Z.abs (c2 - c1) =? 2)) eqn:Ecastle.
    - apply andb_true_iff in Ecastle. destruct Ecastle as [_ Habs].
      apply Z.eqb_eq in Habs.
      destruct (castling_squares_in_bounds Habs) as [Hrook Hnew].
      do 2 eexists. split; [reflexivity|]. split; [reflexivity|].
      split; [grid_side|]. split; [grid_side|].
      repeat (apply alike_set_cell; try grid_side; try exact I);
        first [apply alike_refl|apply alike_cell_moved].
    - assert (Hcond : kind_eqb (kind piece) Pawn
                      && match ep with Some e => sq_eqb (r2, c2) e | None => false end
                      && (Z.abs (c2 - c1) =? 1) && is_none (cell b r2 c2)
                      = kind_eqb (kind piece) Pawn && (Z.abs (c2 - c1) =? 1)
                        && is_none (cell b r2 c2)).
      { destruct (kind_eqb (kind piece) Pawn) eqn:Hp; [|reflexivity].
        destruct (Z.eqb_spec (Z.abs (c2 - c1)) 1) as [Habs|Habs];
          [|rewrite !andb_false_r; reflexivity].
        destruct (cell b r2 c2) as [q|] eqn:Hq; [rewrite !andb_false_r; reflexivity|].
        apply kind_eqb_eq in Hp. rewrite (Hep Hp ltac:(lia) eq_refl). reflexivity. }
      rewrite Hcond.
      destruct (kind_eqb (kind piece) Pawn && (Z.abs (c2 - c1) =? 1)
                && is_none (cell b r2 c2)).
      + do 2 eexists. split; [reflexivity|]. split; [reflexivity|].
        split; [grid_side|]. split; [grid_side|].
        apply alike_set_cell; try grid_side; try exact I. apply alike_refl.
      + do 2 eexists. split; [reflexivity|]. split; [reflexivity|].
        split; [grid_side|]. split; [grid_side|]. apply alike_refl. }
  destruct Hspecial as (b1s & b1m & -> & -> & H8s & H8m & Halike).
  assert (H3 : alike clr (set_cell (set_cell b1s r2 c2 (Some piece)) r1 c1 None)
                 (set_cell (set_cell b1m r2 c2 (Some (mark_moved piece))) r1 c1 None)).
  { repeat (apply alike_set_cell; try grid_side; try exact I);
      first [exact Halike|cbn; auto]. }
  cbv zeta.
  destruct (kind_eqb (kind piece) Pawn) eqn:Hp; cbn [andb].
  2:{ exact H3. }
  destruct (promotion_rank (color piece) r2).
  2:{ exact H3. }
  apply alike_set_right; try grid_side.
  rewrite !cell_set_cell by grid_side.
  replace ((r2 =? r1) && (c2 =? c1)) with false.
  - rewrite !Z.eqb_refl. cbn. split; [reflexivity|]. right.
    split; [reflexivity|]. apply kind_eqb_eq in Hp.
    split; [rewrite Hp; discriminate|apply promo_class_not_king].
  - symmetry. apply andb_false_iff.
    destruct (Z.eqb_spec r2 r1) as [->|]; [|auto]. right.
    apply Z.eqb_neq. congruence.
Qed.
End BothGrids.

(** *** Playing a legal move leaves the mover's King safe *)

(** What the filter finds on the simulated grid holds of the grid
    [make_move] leaves as well: on a reachable game, a legal move played for
    real gives a grid on which the mover is not in check. *)
Theorem legal_move_played_keeps_king_safe (g : ChessGame) (clr : Color)
    (l : list Move) (from_sq to_sq : Square) (promo : option string) :
  reachable g ->
  get_all_legal_moves_for_player g clr = Some l ->
  In (from_sq, to_sq) l ->
  exists b' out,
    make_move (board g) from_sq to_sq promo = Some (b', out)
    /\ is_in_check clr b' = false.
Proof.
  intros Hreach Hl Hin. pose proof (reachable_wf g Hreach) as Hwf.
  destruct (legal_move_applied g clr l from_sq to_sq promo Hwf Hl Hin)
    as (piece & b' & captured & H1 & H2 & Hcell & Hmove & Hmk & _).
  destruct (legal_moves_In _ _ _ _ _ Hl Hin) as (piece' & _ & Hcell' & Hcol & _).
  assert (piece' = piece) as -> by congruence.
  destruct (filter_legal_In _ _ _ _ _ _ Hl Hin) as (_ & sim & Hsim & Hchk).
  pose proof (live_moves_distinct g Hwf piece _ _ H1 Hcell _ Hmove) as Hne.
  destruct from_sq as [r1 c1], to_sq as [r2 c2]. cbn [fst snd] in *.
  do 2 eexists. split; [exact Hmk|].
  rewrite (simulate_move_eq (board g) piece r1 c1 r2 c2 (proj1 Hwf) H1 H2 Hcell
             g clr sim eq_refl Hsim) in Hchk.
  rewrite (make_move_eq (board g) piece r1 c1 r2 c2 (proj1 Hwf) H1 H2 Hcell
             promo b' _ Hmk).
  rewrite <- Hchk. symmetry. rewrite <- Hcol. apply is_in_check_alike.
  apply sim_grid_alike; try assumption; [apply Hwf|].
  intros Hk Hc Hnone. unfold live_piece_moves in Hmove. rewrite Hk in Hmove.
  exact (pawn_diagonal_empty _ _ _ _ _ _ _ Hmove Hc Hnone).
Qed.

Lemma legal_move_played_keeps_king_safe_witness :
  exists b' out,
    make_move (board after_e4) (1, 4) (3, 4) None = Some (b', out)
    /\ is_in_check B b' = false.
Proof.
  eapply (legal_move_played_keeps_king_safe after_e4 B _ (1, 4) (3, 4) None).
  - apply (replay_reachable [((6, 4), (4, 4), None)]). vm_compute. reflexivity.
  - vm_compute. reflexivity.
  - apply move_mem_In. vm_compute. reflexivity.
Defined.

(** *** The copy with the move applied, square by square *)

Section SimGridCells.
Variables (b : Grid) (piece : Piece) (r1 c1 r2 c2 : Z) (ep : option Square).
Hypothesis Hb : grid_8x8 b.
Hypothesis H1 : in_bounds r1 c1 = true.
Hypothesis H2 : in_bounds r2 c2 = true.
Hypothesis Hne : (r2, c2) <> (r1, c1).

Lemma sim_grid_to : cell (sim_grid b piece r1 c1 r2 c2 ep) r2 c2 = Some piece.
Proof.
  pose proof (capture_square_in_bounds r1 c1 r2 c2 H1 H2) as Hcap.
  assert (Hfalse : (r2 =? r1) && (c2 =? c1) = false).
  { apply andb_false_iff. destruct (Z.eqb_spec r2 r1) as [->|]; [|auto]. right.
    apply Z.eqb_neq. congruence. }
  unfold sim_grid. cbv zeta.
  destruct (kind_eqb (kind piece) King && (Z.abs (c2 - c1) =? 2)) eqn:Ecastle.
  - apply andb_true_iff in Ecastle. destruct Ecastle as [_ Habs].
    apply Z.eqb_eq in Habs.
    destruct (castling_squares_in_bounds r1 c1 r2 c2 H1 H2 Habs) as [Hrook Hnew].
    rewrite !cell_set_cell by grid_side. rewrite Hfalse, !Z.eqb_refl. reflexivity.
  - destruct (kind_eqb (kind piece) Pawn
              && match ep with Some e => sq_eqb (r2, c2) e | None => false end
              && (Z.abs (c2 - c1) =? 1) && is_none (cell b r2 c2));
      rewrite !cell_set_cell by grid_side; rewrite Hfalse, !Z.eqb_refl; reflexivity.
Qed.

Lemma sim_grid_from : cell (sim_grid b piece r1 c1 r2 c2 ep) r1 c1 = None.
Proof.
  pose proof (capture_square_in_bounds r1 c1 r2 c2 H1 H2) as Hcap.
  unfold sim_grid. cbv zeta.
  destruct (kind_eqb (kind piece) King && (Z.abs (c2 - c1) =? 2)) eqn:Ecastle.
  - apply andb_true_iff in Ecastle. destruct Ecastle as [_ Habs].
    apply Z.eqb_eq in Habs.
    destruct (castling_squares_in_bounds r1 c1 r2 c2 H1 H2 Habs) as [Hrook Hnew].
    rewrite !cell_set_cell by grid_side. rewrite !Z.eqb_refl. reflexivity.
  - destruct (kind_eqb (kind piece) Pawn
              && match ep with Some e => sq_eqb (r2, c2) e | None => false end
              && (Z.abs (c2 - c1) =? 1) && is_none (cell b r2 c2));
      rewrite !cell_set_cell by grid_side; rewrite !Z.eqb_refl; reflexivity.
Qed.

(** A pawn reaches an empty square of another file only as an en-passant
    capture, so the test on the target can be dropped. *)
Hypothesis Hep :
  kind piece = Pawn -> c2 <> c1 -> cell b r2 c2 = None ->
  match ep with Some e => sq_eqb (r2, c2) e | None => false end = true.

Lemma sim_grid_elsewhere (r c : Z) :
  in_bounds r c = true -> (r, c) <> (r1, c1) -> (r, c) <> (r2, c2) ->
  cell (sim_grid b piece r1 c1 r2 c2 ep) r c
  = simulated_elsewhere b piece r1 c1 r2 c2 r c.
Proof.
  intros Hrc Hn1 Hn2.
  pose proof (capture_square_in_bounds r1 c1 r2 c2 H1 H2) as Hcap.
  assert (Hf1 : (r =? r1) && (c =? c1) = false).
  { apply andb_false_iff. destruct (Z.eqb_spec r r1) as [->|]; [|auto]. right.
    apply Z.eqb_neq. congruence. }
  assert (Hf2 : (r =? r2) && (c =? c2) = false).
  { apply andb_false_iff. destruct (Z.eqb_spec r r2) as [->|]; [|auto]. right.
    apply Z.eqb_neq. congruence. }
  unfold sim_grid, simulated_elsewhere, sq_eqb. cbv zeta. cbn [fst snd].
  destruct (kind_eqb (kind piece) King && (Z.abs (c2 - c1) =? 2)) eqn:Ecastle.
  - apply andb_true_iff in Ecastle. destruct Ecastle as [_ Habs].
    apply Z.eqb_eq in Habs.
    destruct (castling_squares_in_bounds r1 c1 r2 c2 H1 H2 Habs) as [Hrook Hnew].
    rewrite !cell_set_cell by grid_side. rewrite Hf1, Hf2. reflexivity.
  - assert (Hcond : kind_eqb (kind piece) Pawn
                    && match ep with Some e => sq_eqb (r2, c2) e | None => false end
                    && (Z.abs (c2 - c1) =? 1) && is_none (cell b r2 c2)
                    = kind_eqb (kind piece) Pawn && (Z.abs (c2 - c1) =? 1)
                      && is_none (cell b r2 c2)).
    { destruct (kind_eqb (kind piece) Pawn) eqn:Hp; [|reflexivity].
      destruct (Z.eqb_spec (Z.abs (c2 - c1)) 1) as [Habs|Habs];
        [|rewrite !andb_false_r; reflexivity].
      destruct (cell b r2 c2) as [q|] eqn:Hq; [rewrite !andb_false_r; reflexivity|].
      apply kind_eqb_eq in Hp. rewrite (Hep Hp ltac:(lia) eq_refl). reflexivity. }
    unfold sq_eqb in Hcond. cbn [fst snd] in Hcond. rewrite Hcond.
    destruct (kind_eqb (kind piece) Pawn && (Z.abs (c2 - c1) =? 1)
              && is_none (cell b r2 c2));
      rewrite !cell_set_cell by grid_side; rewrite Hf1, Hf2; reflexivity.
Qed.
End SimGridCells.

(** C1: for every reachable game state and every (from, to) pair that
    [get_all_legal_moves_for_player] returns for a colour, the copy of the
    current grid to which the loop applies the move is the current grid with
    the start square emptied, the piece put on the destination, the rook
    taken from its corner to the square the King crossed when a King moves
    two files, and the square beside the pawn emptied when a pawn steps
    diagonally onto an empty square, every other square as it was; on that
    grid the colour's King stands and is not attacked by the other colour.
    The same holds of the grid [Board.make_move] leaves when the move is
    played. *)
Theorem legal_move_keeps_king_safe (g : ChessGame) (clr : Color)
    (legal_moves : list Move) (r1 c1 r2 c2 : Z) (promo : option string) :
  reachable g ->
  get_all_legal_moves_for_player g clr = Some legal_moves ->
  In ((r1, c1), (r2, c2)) legal_moves ->
  exists piece sim king_pos,
    in_bounds r1 c1 = true /\ in_bounds r2 c2 = true
    /\ cell (board g) r1 c1 = Some piece /\ color piece = clr
    /\ simulate_move g clr (r1, c1) (r2, c2) = Some (SimBoard sim)
    /\ cell sim r1 c1 = None
    /\ cell sim r2 c2 = Some piece
    /\ (forall r c,
          in_bounds r c = true -> (r, c) <> (r1, c1) -> (r, c) <> (r2, c2) ->
          cell sim r c = simulated_elsewhere (board g) piece r1 c1 r2 c2 r c)
    /\ find_king clr sim = Some king_pos
    /\ is_square_attacked (fst king_pos) (snd king_pos) (opponent clr) sim = false
    /\ exists b' out,
         make_move (board g) (r1, c1) (r2, c2) promo = Some (b', out)
         /\ is_in_check clr b' = false.
Proof.
  intros Hreach Hl Hin. pose proof (reachable_wf g Hreach) as Hwf.
  destruct (legal_moves_In _ _ _ _ _ Hl Hin) as (piece & H1 & Hcell & Hcol & Hmove).
  cbn [fst snd] in *.
  pose proof (live_moves_in_bounds g Hwf piece r1 c1 H1 Hcell _ Hmove) as H2.
  pose proof (live_moves_distinct g Hwf piece r1 c1 H1 Hcell _ Hmove) as Hne.
  cbn [fst snd] in H2.
  destruct (filter_legal_In _ _ _ _ _ _ Hl Hin) as (_ & sim & Hsim & Hchk).
  pose proof (simulate_move_eq (board g) piece r1 c1 r2 c2 (proj1 Hwf) H1 H2 Hcell
                g clr sim eq_refl Hsim) as Heq.
  assert (Hep : kind piece = Pawn -> c2 <> c1 -> cell (board g) r2 c2 = None ->
                match en_passant_target g with
                | Some e => sq_eqb (r2, c2) e
                | None => false
                end = true).
  { intros Hk Hc Hnone. unfold live_piece_moves in Hmove. rewrite Hk in Hmove.
    exact (pawn_diagonal_empty _ _ _ _ _ _ _ Hmove Hc Hnone). }
  unfold is_in_check in Hchk.
  destruct (find_king clr sim) as [king_pos|] eqn:Hk; [|discriminate].
  exists piece, sim, king_pos.
  split; [exact H1|]. split; [exact H2|]. split; [exact Hcell|].
  split; [exact Hcol|]. split; [exact Hsim|].
  split; [rewrite Heq; apply sim_grid_from; assumption || apply Hwf|].
  split; [rewrite Heq; apply sim_grid_to; assumption || apply Hwf|].
  split.
  { intros r c Hrc Hn1 Hn2. rewrite Heq.
    apply sim_grid_elsewhere; assumption || apply Hwf. }
  split; [exact Hk|]. split; [exact Hchk|].
  exact (legal_move_played_keeps_king_safe g clr legal_moves _ _ promo Hreach Hl Hin).
Qed.

Lemma legal_move_keeps_king_safe_witness :
  exists piece sim king_pos,
    in_bounds 7 4 = true /\ in_bounds 7 6 = true
    /\ cell (board before_castling) 7 4 = Some piece /\ color piece = W
    /\ simulate_move before_castling W (7, 4) (7, 6) = Some (SimBoard sim)
    /\ cell sim 7 4 = None
    /\ cell sim 7 6 = Some piece
    /\ (forall r c,
          in_bounds r c = true -> (r, c) <> (7, 4) -> (r, c) <> (7, 6) ->
          cell sim r c = simulated_elsewhere (board before_castling) piece 7 4 7 6 r c)
    /\ find_king W sim = Some king_pos
    /\ is_square_attacked (fst king_pos) (snd king_pos) (opponent W) sim = false
    /\ exists b' out,
         make_move (board before_castling) (7, 4) (7, 6) None = Some (b', out)
         /\ is_in_check W b' = false.
Proof.
  eapply (legal_move_keeps_king_safe before_castling W _ 7 4 7 6 None).
  - apply (replay_reachable (firstn 6 castling_calls)). vm_compute. reflexivity.
  - vm_compute. reflexivity.
  - apply move_mem_In. vm_compute. reflexivity.
Defined.

(** The filter at work: after 1. e4 e5 2. Qh5 the pawn on f7 shields the
    black King from the Queen, and its two moves are not offered. *)
Example pinned_pawn_is_not_legal :
  (fun l => (move_mem ((1, 5), (2, 5)) l, move_mem ((1, 5), (3, 5)) l,
             length l))
    <$> get_all_legal_moves_for_player pinned_pawn_game B
  = Some (false, false, 26%nat)
  /\ move_mem ((1, 5), (2, 5))
       (get_all_possible_moves_for_player pinned_pawn_game B None true) = true.
Proof. split; vm_compute; reflexivity. Qed.

(** X4: after a successful call of [process_move] on a reachable game the
    turn has passed to the other player and the player who moved is not in
    check on the grid the move left. *)
Theorem mover_not_in_check_after_move (g : ChessGame) (from_sq to_sq : Square)
    (promo : option string) (g' : ChessGame) :
  reachable g ->
  process_move g from_sq to_sq promo = Some (PyBool true, g') ->
  current_player g' = opponent (current_player g)
  /\ is_in_check (current_player g) (board g') = false.
Proof.
  intros Hreach Hpm. apply process_move_outcome in Hpm.
  inversion Hpm as [| | | |piece0 l g1 Hover Hp0 Hc0 Hl Hin Hpr Happly Hres Hg].
  subst g1. apply apply_move_inv in Happly. cbn [board set_status current_player] in Happly.
  destruct Happly as (b1 & cap1 & ipm & icap & pm & Hmk1 & _ & Hb & Hcp & _).
  split; [exact Hcp|].
  destruct (legal_move_played_keeps_king_safe g _ l from_sq to_sq promo Hreach Hl Hin)
    as (b' & out & Hmk & Hchk).
  rewrite Hmk in Hmk1. injection Hmk1 as <- _. rewrite Hb. exact Hchk.
Qed.

Lemma mover_not_in_check_after_move_witness :
  current_player after_e4 = opponent (current_player new_game)
  /\ is_in_check (current_player new_game) (board after_e4) = false.
Proof.
  apply (mover_not_in_check_after_move new_game (6, 4) (4, 4) None after_e4).
  - apply reachable_new.
  - vm_compute. reflexivity.
Defined.

(** ** What [process_move] accepts *)

Lemma needs_promotion_piece (g : ChessGame) (from_sq to_sq : Square) (piece : Piece) :
  get_piece (board g) (fst from_sq) (snd from_sq) = Some piece ->
  needs_promotion g from_sq to_sq
  = kind_eqb (kind piece) Pawn && promotion_rank (color piece) (fst to_sq).
Proof. intros H. unfold needs_promotion. rewrite H. reflexivity. Qed.

(** A legal move starts on a piece of the mover that [get_piece] finds. *)
Lemma legal_move_piece (g : ChessGame) (clr : Color) (l : list Move)
    (from_sq to_sq : Square) :
  get_all_legal_moves_for_player g clr = Some l ->
  In (from_sq, to_sq) l ->
  exists piece,
    get_piece (board g) (fst from_sq) (snd from_sq) = Some piece
    /\ color piece = clr.
Proof.
  intros Hl Hin.
  destruct (legal_moves_In _ _ _ _ _ Hl Hin) as (piece & Hb & Hcell & Hcol & _).
  exists piece. unfold get_piece. rewrite Hb. auto.
Qed.

(** On a well-formed game a legal move can be applied without an exception. *)
Lemma legal_move_applies (g : ChessGame) (l : list Move) (from_sq to_sq : Square)
    (promo : option string) :
  wf g ->
  get_all_legal_moves_for_player g (current_player g) = Some l ->
  In (from_sq, to_sq) l ->
  exists g', apply_move (set_status g "") from_sq to_sq promo = Some g'.
Proof.
  intros Hwf Hl Hin.
  destruct (legal_move_applied g _ l from_sq to_sq promo Hwf Hl Hin)
    as (piece & b' & captured & H1 & H2 & Hcell & _ & Hmk & Hto).
  destruct from_sq as [r1 c1], to_sq as [r2 c2]. unfold apply_move.
  cbn [fst snd board set_status] in *. rewrite Hmk. cbn [mbind option_bind].
  assert (Hgp : get_piece b' r2 c2 = Some (moved_piece piece r2 promo))
    by (unfold get_piece; rewrite H2; exact Hto).
  rewrite Hgp. cbn [mbind option_bind].
  apply evaluate_status_total. split; cbn [board].
  - apply (make_move_grid _ _ _ _ _ _ Hmk). apply Hwf.
  - eapply unmoved_at_home_only_moved; [apply Hwf|].
    apply (make_move_grid _ _ _ _ _ _ Hmk).
Qed.

(** X6: on a reachable game [process_move] returns [True] exactly when the
    game is not over, the pair of squares is among the legal moves of the
    player to move, and a promotion choice is passed whenever
    [needs_promotion] holds of the pair. *)
Theorem process_move_accepts_iff (g : ChessGame) (from_sq to_sq : Square)
    (promo : option string) :
  reachable g ->
  (exists g', process_move g from_sq to_sq promo = Some (PyBool true, g'))
  <-> truthy (game_over_message g) = false
      /\ (exists l, get_all_legal_moves_for_player g (current_player g) = Some l
                    /\ In (from_sq, to_sq) l)
      /\ (needs_promotion g from_sq to_sq = true -> truthy promo = true).
Proof.
  intros Hreach. split.
  - intros (g' & Hpm). apply process_move_outcome in Hpm.
    inversion Hpm as [| | | |piece l g1 Hover Hp Hc Hl Hin Hpr Happly Hres Hg].
    split; [exact Hover|]. split; [exists l; auto|].
    rewrite (needs_promotion_piece _ _ _ _ Hp), andb_true_iff, kind_eqb_eq.
    intros [Hk Hr]. auto.
  - intros (Hover & (l & Hl & Hin) & Hnp).
    destruct (legal_move_piece _ _ _ _ _ Hl Hin) as (piece & Hp & Hc).
    destruct (legal_move_applies g l from_sq to_sq promo (reachable_wf g Hreach) Hl Hin)
      as (g' & Happly).
    exists g'. apply process_move_outcome. eapply out_moved; eauto.
    intros Hk Hr. apply Hnp.
    rewrite (needs_promotion_piece _ _ _ _ Hp), andb_true_iff, kind_eqb_eq. auto.
Qed.

Lemma process_move_accepts_iff_witness :
  (exists g', process_move new_game (6, 4) (4, 4) None = Some (PyBool true, g'))
  <-> truthy (game_over_message new_game) = false
      /\ (exists l, get_all_legal_moves_for_player new_game (current_player new_game)
                    = Some l
                    /\ In ((6, 4), (4, 4)) l)
      /\ (needs_promotion new_game (6, 4) (4, 4) = true -> truthy None = true).
Proof. apply (process_move_accepts_iff new_game (6, 4) (4, 4) None). apply reachable_new. Defined.

(** X7: [process_move] returns a string exactly when the game is not over,
    the pair of squares is a legal move of the player to move,
    [needs_promotion] holds of the pair and no promotion choice (or an empty
    one) was passed; the string is then "PROMOTION_NEEDED" and the game
    differs from the one before in its emptied status message only. *)
Theorem promotion_signal_iff (g : ChessGame) (from_sq to_sq : Square)
    (promo : option string) (s : string) (g' : ChessGame) :
  process_move g from_sq to_sq promo = Some (PyStr s, g')
  <-> s = "PROMOTION_NEEDED" /\ g' = set_status g ""
      /\ truthy (game_over_message g) = false
      /\ (exists l, get_all_legal_moves_for_player g (current_player g) = Some l
                    /\ In (from_sq, to_sq) l)
      /\ needs_promotion g from_sq to_sq = true
      /\ truthy promo = false.
Proof.
  rewrite process_move_outcome. split.
  - intros Hout.
    inversion Hout as [| | |piece l Hover Hp Hc Hl Hin Hk Hr Hpr Hres Hg|].
    repeat split; auto; [exists l; auto|].
    rewrite (needs_promotion_piece _ _ _ _ Hp), Hk, Hr. reflexivity.
  - intros (-> & -> & Hover & (l & Hl & Hin) & Hnp & Hpr).
    destruct (legal_move_piece _ _ _ _ _ Hl Hin) as (piece & Hp & Hc).
    rewrite (needs_promotion_piece _ _ _ _ Hp), andb_true_iff, kind_eqb_eq in Hnp.
    destruct Hnp as [Hk Hr]. eapply out_promotion; eauto.
Qed.

(** ** The turn and the end of the game *)

(** X8: a call of [process_move] that returns [True] passes the turn to the
    other player, and the fullmove number goes up by one exactly when it was
    Black who moved. *)
Theorem process_move_switches_player (g : ChessGame) (from_sq to_sq : Square)
    (promo : option string) (g' : ChessGame) :
  process_move g from_sq to_sq promo = Some (PyBool true, g') ->
  current_player g' = opponent (current_player g)
  /\ fullmove_number g'
     = fullmove_number g + (match current_player g with B => 1 | W => 0 end).
Proof.
  intros Hpm. apply process_move_outcome in Hpm.
  inversion Hpm as [| | | |piece l g1 Hover Hp Hc Hl Hin Hpr Happly Hres Hg].
  apply apply_move_inv in Happly.
  cbn [board set_status current_player fullmove_number] in Happly.
  destruct Happly as (b' & cap & ipm & icap & pm & _ & _ & _ & Hcp & _ & _ & _ & Hfm).
  split; [exact Hcp|]. rewrite Hfm. destruct (current_player g); lia.
Qed.

Lemma process_move_switches_player_witness :
  current_player after_e4 = opponent (current_player new_game)
  /\ fullmove_number after_e4
     = fullmove_number new_game
       + (match current_player new_game with B => 1 | W => 0 end).
Proof.
  apply (process_move_switches_player new_game (6, 4) (4, 4) None after_e4).
  vm_compute. reflexivity.
Defined.

(** What the status evaluation decides, in terms of the game it returns. *)
Lemma evaluate_status_inv (g g' : ChessGame) :
  evaluate_status g = Some g' ->
  exists l,
    get_all_legal_moves_for_player g' (current_player g') = Some l
    /\ same_position g g'
    /\ (l = [] ->
        game_over_message g' = Some (status_message g')
        /\ status_message g'
           = if is_in_check (current_player g') (board g')
             then String.append "Checkmate! "
                    (String.append (winner_color_map (current_player g')) " wins.")
             else "Stalemate! It's a draw.")
    /\ (l <> [] ->
        game_over_message g' = game_over_message g
        /\ status_message g'
           = String.append (color_str (current_player g'))
               (if is_in_check (current_player g') (board g')
                then "'s turn. Check!" else "'s turn.")).
Proof.
  intros Hev. pose proof (evaluate_status_position _ _ Hev) as Hpos.
  assert (Hsame : same_rules g' g).
  { destruct Hpos as (Hb & _ & Hcr & Hep & _). repeat split; assumption. }
  pose proof (legal_moves_same_rules _ _ Hsame) as Hlegal.
  destruct Hpos as (Hb & Hcp & Hrest). rewrite Hlegal, Hcp, Hb.
  revert Hev. unfold evaluate_status.
  destruct (get_all_legal_moves_for_player g (current_player g)) as [l|];
    cbn [mbind option_bind]; [|discriminate].
  intros Hev. exists l. split; [reflexivity|].
  split; [repeat split; tauto|].
  destruct (is_in_check (current_player g) (board g)), l as [|m l];
    cbn [andb negb] in Hev; injection Hev as <-;
    cbn [game_over_message status_message set_status current_player];
    split; intros H; try congruence; split; reflexivity.
Qed.

(** X9: after a call of [process_move] that returns [True] the game is over
    exactly when the player now to move has no legal move.  In that case the
    game-over text, also the status text, is "Checkmate! <mover> wins." if
    that player is in check and "Stalemate! It's a draw." if not; otherwise
    the status text is "<colour>'s turn.", with " Check!" appended when the
    player to move is in check. *)
Theorem process_move_game_end (g : ChessGame) (from_sq to_sq : Square)
    (promo : option string) (g' : ChessGame) :
  process_move g from_sq to_sq promo = Some (PyBool true, g') ->
  exists l,
    get_all_legal_moves_for_player g' (current_player g') = Some l
    /\ (terminal g' <-> l = [])
    /\ (l = [] ->
        game_over_message g' = Some (status_message g')
        /\ status_message g'
           = if is_in_check (current_player g') (board g')
             then String.append "Checkmate! "
                    (String.append (color_name (current_player g)) " wins.")
             else "Stalemate! It's a draw.")
    /\ (l <> [] ->
        status_message g'
        = String.append (color_str (current_player g'))
            (if is_in_check (current_player g') (board g')
             then "'s turn. Check!" else "'s turn.")).
Proof.
  intros Hpm. apply process_move_outcome in Hpm.
  inversion Hpm as [| | | |piece l0 g1 Hover Hp Hc Hl Hin Hpr Happly Hres Hg].
  pose proof (apply_move_inv _ _ _ _ _ Happly) as Hinv.
  cbn [board set_status current_player] in Hinv.
  destruct Hinv as (b0 & cap0 & ipm0 & icap0 & pm0 & _ & _ & _ & Hcp & _).
  destruct from_sq as [r1 c1], to_sq as [r2 c2]. unfold apply_move in Happly.
  destruct (make_move _ _ _ _) as [[b' [[cap ipm] icap]]|];
    cbn [mbind option_bind] in Happly; [|discriminate].
  destruct (get_piece b' r2 c2) as [pm|]; cbn [mbind option_bind] in Happly;
    [|discriminate].
  apply evaluate_status_inv in Happly.
  destruct Happly as (l & Hl' & _ & Hnil & Hcons).
  cbn [game_over_message set_status] in Hcons.
  exists l. split; [exact Hl'|]. split; [|split].
  - split.
    + intros Hterm. destruct l as [|m l]; [reflexivity|]. exfalso.
      destruct Hcons as [Hgo _]; [discriminate|].
      unfold terminal in Hterm. congruence.
    + intros ->. destruct (Hnil eq_refl) as [Hgo Hst]. unfold terminal.
      rewrite Hgo, Hst.
      destruct (is_in_check _ _); [|reflexivity].
      destruct (current_player g'); reflexivity.
  - intros Hl0. destruct (Hnil Hl0) as [Hgo Hst]. split; [exact Hgo|].
    rewrite Hst, Hcp. destruct (current_player g); reflexivity.
  - intros Hl0. apply Hcons. exact Hl0.
Qed.

Lemma process_move_game_end_witness :
  exists l,
    get_all_legal_moves_for_player fools_mate (current_player fools_mate) = Some l
    /\ (terminal fools_mate <-> l = [])
    /\ (l = [] ->
        game_over_message fools_mate = Some (status_message fools_mate)
        /\ status_message fools_mate
           = if is_in_check (current_player fools_mate) (board fools_mate)
             then String.append "Checkmate! "
                    (String.append (color_name (current_player fools_mate_before))
                       " wins.")
             else "Stalemate! It's a draw.")
    /\ (l <> [] ->
        status_message fools_mate
        = String.append (color_str (current_player fools_mate))
            (if is_in_check (current_player fools_mate) (board fools_mate)
             then "'s turn. Check!" else "'s turn.")).
Proof.
  apply (process_move_game_end fools_mate_before (0, 3) (4, 7) None fools_mate).
  vm_compute. reflexivity.
Defined.

(** ** The grid after a move, square by square *)

Section MoveGridCells.
Variables (b : Grid) (piece : Piece) (r1 c1 r2 c2 : Z) (promo : option string).
Hypothesis Hb : grid_8x8 b.
Hypothesis H1 : in_bounds r1 c1 = true.
Hypothesis H2 : in_bounds r2 c2 = true.
Hypothesis Hne : (r2, c2) <> (r1, c1).

Lemma move_grid_to : cell (move_grid b piece r1 c1 r2 c2 promo) r2 c2
                     = Some (moved_piece piece r2 promo).
Proof.
  pose proof (capture_square_in_bounds r1 c1 r2 c2 H1 H2) as Hcap.
  assert (Hfalse : (r2 =? r1) && (c2 =? c1) = false).
  { apply andb_false_iff. destruct (Z.eqb_spec r2 r1) as [->|]; [|auto]. right.
    apply Z.eqb_neq. congruence. }
  unfold move_grid, moved_piece. cbv zeta.
  destruct (kind_eqb (kind piece) King && (Z.abs (c2 - c1) =? 2)) eqn:Ecastle.
  - apply andb_true_iff in Ecastle. destruct Ecastle as [_ Habs].
    apply Z.eqb_eq in Habs.
    destruct (castling_squares_in_bounds r1 c1 r2 c2 H1 H2 Habs) as [Hrook Hnew].
    destruct (kind_eqb (kind piece) Pawn && promotion_rank (color piece) r2);
      rewrite !cell_set_cell by grid_side;
      rewrite ?Hfalse, !Z.eqb_refl; reflexivity.
  - destruct (kind_eqb (kind piece) Pawn && (Z.abs (c2 - c1) =? 1)
              && is_none (cell b r2 c2));
      destruct (kind_eqb (kind piece) Pawn && promotion_rank (color piece) r2);
      rewrite !cell_set_cell by grid_side;
      rewrite ?Hfalse, !Z.eqb_refl; reflexivity.
Qed.

Lemma move_grid_from : cell (move_grid b piece r1 c1 r2 c2 promo) r1 c1 = None.
Proof.
  pose proof (capture_square_in_bounds r1 c1 r2 c2 H1 H2) as Hcap.
  assert (Hfalse : (r1 =? r2) && (c1 =? c2) = false).
  { apply andb_false_iff. destruct (Z.eqb_spec r1 r2) as [->|]; [|auto]. right.
    apply Z.eqb_neq. congruence. }
  unfold move_grid. cbv zeta.
  destruct (kind_eqb (kind piece) King && (Z.abs (c2 - c1) =? 2)) eqn:Ecastle.
  - apply andb_true_iff in Ecastle. destruct Ecastle as [_ Habs].
    apply Z.eqb_eq in Habs.
    destruct (castling_squares_in_bounds r1 c1 r2 c2 H1 H2 Habs) as [Hrook Hnew].
    destruct (kind_eqb (kind piece) Pawn && promotion_rank (color piece) r2);
      rewrite !cell_set_cell by grid_side;
      rewrite ?Hfalse, !Z.eqb_refl; reflexivity.
  - destruct (kind_eqb (kind piece) Pawn && (Z.abs (c2 - c1) =? 1)
              && is_none (cell b r2 c2));
      destruct (kind_eqb (kind piece) Pawn && promotion_rank (color piece) r2);
      rewrite !cell_set_cell by grid_side;
      rewrite ?Hfalse, !Z.eqb_refl; reflexivity.
Qed.

Lemma move_grid_elsewhere (r c : Z) :
  in_bounds r c = true -> (r, c) <> (r1, c1) -> (r, c) <> (r2, c2) ->
  cell (move_grid b piece r1 c1 r2 c2 promo) r c
  = moved_elsewhere b piece r1 c1 r2 c2 r c.
Proof.
  intros Hrc Hn1 Hn2.
  pose proof (capture_square_in_bounds r1 c1 r2 c2 H1 H2) as Hcap.
  assert (Hf1 : (r =? r1) && (c =? c1) = false).
  { apply andb_false_iff. destruct (Z.eqb_spec r r1) as [->|]; [|auto]. right.
    apply Z.eqb_neq. congruence. }
  assert (Hf2 : (r =? r2) && (c =? c2) = false).
  { apply andb_false_iff. destruct (Z.eqb_spec r r2) as [->|]; [|auto]. right.
    apply Z.eqb_neq. congruence. }
  unfold move_grid, moved_elsewhere, sq_eqb. cbv zeta. cbn [fst snd].
  destruct (kind_eqb (kind piece) King && (Z.abs (c2 - c1) =? 2)) eqn:Ecastle.
  - apply andb_true_iff in Ecastle. destruct Ecastle as [_ Habs].
    apply Z.eqb_eq in Habs.
    destruct (castling_squares_in_bounds r1 c1 r2 c2 H1 H2 Habs) as [Hrook Hnew].
    destruct (kind_eqb (kind piece) Pawn && promotion_rank (color piece) r2);
      rewrite !cell_set_cell by grid_side;
      rewrite ?Hf1, ?Hf2; reflexivity.
  - destruct (kind_eqb (kind piece) Pawn && (Z.abs (c2 - c1) =? 1)
              && is_none (cell b r2 c2));
      destruct (kind_eqb (kind piece) Pawn && promotion_rank (color piece) r2);
      rewrite !cell_set_cell by grid_side;
      rewrite ?Hf1, ?Hf2; reflexivity.
Qed.
End MoveGridCells.

(** A successful call, in terms of the grid before it. *)
Lemma process_move_moved (g : ChessGame) (from_sq to_sq : Square)
    (promo : option string) (g' : ChessGame) :
  wf g ->
  process_move g from_sq to_sq promo = Some (PyBool true, g') ->
  exists piece l,
    truthy (game_over_message g) = false
    /\ get_all_legal_moves_for_player g (current_player g) = Some l
    /\ In (from_sq, to_sq) l
    /\ in_bounds (fst from_sq) (snd from_sq) = true
    /\ in_bounds (fst to_sq) (snd to_sq) = true
    /\ to_sq <> from_sq
    /\ cell (board g) (fst from_sq) (snd from_sq) = Some piece
    /\ color piece = current_player g
    /\ In to_sq (live_piece_moves g piece (fst from_sq) (snd from_sq))
    /\ board g' = move_grid (board g) piece (fst from_sq) (snd from_sq)
                    (fst to_sq) (snd to_sq) promo
    /\ current_player g' = opponent (current_player g)
    /\ castling_rights g'
       = update_castling_rights (castling_rights g)
           (moved_piece piece (fst to_sq) promo) from_sq
           (cell (board g) (fst to_sq) (snd to_sq)) to_sq
    /\ en_passant_target g'
       = (if kind_eqb (kind (moved_piece piece (fst to_sq) promo)) Pawn
             && (Z.abs (fst from_sq - fst to_sq) =? 2)
          then Some ((fst from_sq + fst to_sq) / 2, snd from_sq) else None).
Proof.
  intros Hwf Hpm. apply process_move_outcome in Hpm.
  inversion Hpm as [| | | |piece0 l g1 Hover Hp0 Hc0 Hl Hin Hpr Happly Hres Hg].
  subst g1.
  destruct (legal_move_applied g _ l from_sq to_sq promo Hwf Hl Hin)
    as (piece & b' & captured & H1 & H2 & Hcell & Hmove & Hmk & Hto).
  destruct (legal_moves_In _ _ _ _ _ Hl Hin) as (piece' & _ & Hcell' & Hcol & _).
  assert (piece' = piece) as -> by congruence.
  pose proof (live_moves_distinct g Hwf piece _ _ H1 Hcell _ Hmove) as Hne.
  apply apply_move_inv in Happly.
  cbn [board set_status current_player castling_rights] in Happly.
  destruct Happly as (b1 & cap1 & ipm & icap & pm & Hmk1 & Hpm1 & Hb & Hcp & Hcr & Hep & _).
  rewrite Hmk in Hmk1. injection Hmk1 as <- _ _ _.
  assert (pm = moved_piece piece (fst to_sq) promo) as ->.
  { unfold get_piece in Hpm1. rewrite H2 in Hpm1. congruence. }
  exists piece, l. repeat split; try assumption.
  - destruct from_sq. exact Hne.
  - destruct from_sq as [r1 c1], to_sq as [r2 c2]. cbn [fst snd] in *.
    rewrite Hb. eapply make_move_eq; eauto. apply Hwf.
  - rewrite Hcr. unfold get_piece. rewrite H2. reflexivity.
Qed.

(** X10: a call of [process_move] that returns [True] on a reachable game
    empties the square it starts from, puts the piece found there on the
    destination (marked as moved, or replaced by the promotion piece for a
    pawn that reaches its last rank), and leaves every other square of the
    board as it was, except that castling takes the piece in the corner to
    the square the King crossed and a pawn that steps diagonally onto an
    empty square empties the square beside it. *)
Theorem process_move_board (g : ChessGame) (r1 c1 r2 c2 : Z)
    (promo : option string) (g' : ChessGame) :
  reachable g ->
  process_move g (r1, c1) (r2, c2) promo = Some (PyBool true, g') ->
  exists piece,
    cell (board g) r1 c1 = Some piece
    /\ cell (board g') r1 c1 = None
    /\ cell (board g') r2 c2 = Some (moved_piece piece r2 promo)
    /\ forall r c,
         in_bounds r c = true -> (r, c) <> (r1, c1) -> (r, c) <> (r2, c2) ->
         cell (board g') r c = moved_elsewhere (board g) piece r1 c1 r2 c2 r c.
Proof.
  intros Hreach Hpm. pose proof (reachable_wf g Hreach) as Hwf.
  destruct (process_move_moved g _ _ promo g' Hwf Hpm)
    as (piece & l & _ & _ & _ & H1 & H2 & Hne & Hcell & _ & _ & Hb & _).
  cbn [fst snd] in *. exists piece. rewrite Hb.
  split; [exact Hcell|]. split; [|split].
  - apply move_grid_from; try assumption. apply Hwf.
  - apply move_grid_to; try assumption. apply Hwf.
  - intros r c. apply move_grid_elsewhere; try assumption. apply Hwf.
Qed.

Lemma process_move_board_witness :
  exists piece,
    cell (board new_game) 6 4 = Some piece
    /\ cell (board after_e4) 6 4 = None
    /\ cell (board after_e4) 4 4 = Some (moved_piece piece 4 None)
    /\ forall r c,
         in_bounds r c = true -> (r, c) <> (6, 4) -> (r, c) <> (4, 4) ->
         cell (board after_e4) r c = moved_elsewhere (board new_game) piece 6 4 4 4 r c.
Proof.
  apply (process_move_board new_game 6 4 4 4 None after_e4).
  - apply reachable_new.
  - vm_compute. reflexivity.
Defined.

(** ** Kings, pawns and castling on the grid *)

Lemma all_squares_in_bounds (s : Square) :
  In s all_squares -> in_bounds (fst s) (snd s) = true.
Proof.
  unfold all_squares. intros Hin. apply in_flat_map in Hin.
  destruct Hin as (r & Hr & Hin). apply in_map_iff in Hin.
  destruct Hin as (c & <- & Hc). apply In_range8 in Hr, Hc.
  apply in_bounds_true. cbn [fst snd]. lia.
Qed.

Lemma is_king_of_test (clr : Color) (o : option Piece) :
  match o with
  | Some piece => kind_eqb (kind piece) King && color_eqb (color piece) clr
  | None => false
  end = true <-> is_king_of clr o.
Proof.
  unfold is_king_of. destruct o as [p|].
  - rewrite andb_true_iff, kind_eqb_eq, color_eqb_eq. split.
    + intros [Hk Hc]. exists p. auto.
    + intros (q & [= <-] & Hk & Hc). auto.
  - split; [discriminate|]. intros (q & Hq & _). discriminate.
Qed.

Lemma find_king_Some (clr : Color) (b : Grid) (r c : Z) :
  find_king clr b = Some (r, c) ->
  in_bounds r c = true /\ is_king_of clr (cell b r c).
Proof.
  unfold find_king. intros H. apply find_some in H. destruct H as [Hin Htest].
  split; [exact (all_squares_in_bounds _ Hin)|].
  apply is_king_of_test. exact Htest.
Qed.

Lemma find_king_None (clr : Color) (b : Grid) (r c : Z) :
  find_king clr b = None -> in_bounds r c = true -> ~ is_king_of clr (cell b r c).
Proof.
  unfold find_king. intros H Hb Hk. apply in_bounds_true in Hb.
  pose proof (find_none _ _ H (r, c) (In_all_squares r c (proj1 Hb) (proj2 Hb))) as Hf.
  cbn [fst snd] in Hf. apply is_king_of_test in Hk. congruence.
Qed.

(** With one King on the board, [find_king] finds it. *)
Lemma find_king_one (clr : Color) (b : Grid) (r c : Z) :
  one_king b clr -> in_bounds r c = true -> is_king_of clr (cell b r c) ->
  find_king clr b = Some (r, c).
Proof.
  intros (kr & kc & Hkb & Hk & Huniq) Hb Hking.
  destruct (find_king clr b) as [[fr fc]|] eqn:E.
  - apply find_king_Some in E. destruct E as [Hfb Hf].
    rewrite (Huniq _ _ Hfb Hf), (Huniq _ _ Hb Hking). reflexivity.
  - exfalso. exact (find_king_None _ _ _ _ E Hb Hking).
Qed.

(** The moves of a pawn, square by square. *)
Lemma pawn_moves_cases (self : Piece) (r c : Z) (b : Grid) (ep : option Square)
    (rt ct : Z) :
  in_bounds r c = true ->
  In (rt, ct) (pawn_moves self r c b ep)
  <-> (rt = r + direction (color self) /\ ct = c /\ 0 <= rt <= 7
       /\ cell b rt ct = None)
      \/ (rt = r + 2 * direction (color self) /\ ct = c /\ 0 <= rt <= 7
          /\ has_moved self = false
          /\ cell b (r + direction (color self)) c = None /\ cell b rt ct = None)
      \/ (rt = r + direction (color self) /\ (ct = c - 1 \/ ct = c + 1)
          /\ in_bounds rt ct = true
          /\ ((exists q, cell b rt ct = Some q /\ color q <> color self)
              \/ ep = Some (rt, ct))).
Proof.
  intros Hb. apply in_bounds_true in Hb. unfold pawn_moves.
  set (d := direction (color self)).
  assert (Hd : d = 1 \/ d = -1) by (unfold d; destruct (color self); cbn; lia).
  assert (Hnone : forall o : option Piece, is_none o = true <-> o = None).
  { intros [q|]; cbn; split; congruence. }
  assert (Hdiag : forall dc,
            In (rt, ct)
              (if in_bounds (r + d) (c + dc)
               then (match cell b (r + d) (c + dc) with
                     | Some target_piece =>
                         if negb (color_eqb (color target_piece) (color self))
                         then [(r + d, c + dc)] else []
                     | None => []
                     end) ++
                    (match ep with
                     | Some e => if sq_eqb (r + d, c + dc) e then [(r + d, c + dc)] else []
                     | None => []
                     end)
               else [])
            <-> rt = r + d /\ ct = c + dc /\ in_bounds rt ct = true
                /\ ((exists q, cell b rt ct = Some q /\ color q <> color self)
                    \/ ep = Some (rt, ct))).
  { intros dc. destruct (in_bounds (r + d) (c + dc)) eqn:E.
    - rewrite in_app_iff. split.
      + intros [H|H].
        * destruct (cell b (r + d) (c + dc)) as [tp|] eqn:Etp; [|destruct H].
          destruct (color_eqb (color tp) (color self)) eqn:Ec; cbn [negb] in H;
            [destruct H|].
          destruct H as [[= <- <-]|[]]. repeat split; auto. left. exists tp.
          split; [exact Etp|]. intros Heq. apply color_eqb_eq in Heq. congruence.
        * destruct ep as [e|]; [|destruct H].
          destruct (sq_eqb (r + d, c + dc) e) eqn:Ee; [|destruct H].
          destruct H as [[= <- <-]|[]]. apply sq_eqb_eq in Ee. subst e.
          repeat split; auto.
      + intros (-> & -> & _ & [(q & Hq & Hcol)| -> ]).
        * left. rewrite Hq.
          replace (color_eqb (color q) (color self)) with false;
            [left; reflexivity|].
          symmetry. apply not_true_is_false. rewrite color_eqb_eq. exact Hcol.
        * right. replace (sq_eqb (r + d, c + dc) (r + d, c + dc)) with true;
            [left; reflexivity|].
          symmetry. apply sq_eqb_eq. reflexivity.
    - split; [intros []|]. intros (-> & -> & Hb' & _). congruence. }
  rewrite in_app_iff. cbn [flat_map]. rewrite !in_app_iff, !Hdiag. split.
  - intros [H|[H|[H|[]]]].
    + destruct ((0 <=? r + d) && (r + d <=? 7) && is_none (cell b (r + d) c)) eqn:E1;
        [|destruct H].
      rewrite !andb_true_iff, !Z.leb_le, Hnone in E1. destruct H as [[= <- <-]|H].
      * left. intuition lia.
      * destruct (negb (has_moved self) && (0 <=? r + 2 * d) && (r + 2 * d <=? 7)
                  && is_none (cell b (r + 2 * d) c) && is_none (cell b (r + d) c)) eqn:E2;
          [|destruct H].
        rewrite !andb_true_iff, !Z.leb_le, negb_true_iff, !Hnone in E2.
        destruct H as [[= <- <-]|[]]. right. left. intuition lia.
    + right. right. destruct H as (-> & -> & Hb' & H). repeat split; auto.
    + right. right. destruct H as (-> & -> & Hb' & H). repeat split; auto.
  - intros [(-> & -> & Hrt & Hc)|[(-> & -> & Hrt & Hm & Hc1 & Hc2)|(-> & Hct & Hb' & H)]].
    + left. replace ((0 <=? r + d) && (r + d <=? 7) && is_none (cell b (r + d) c))
        with true; [left; reflexivity|].
      symmetry. rewrite !andb_true_iff, !Z.leb_le, Hnone. intuition lia.
    + left. replace ((0 <=? r + d) && (r + d <=? 7) && is_none (cell b (r + d) c))
        with true.
      2:{ symmetry. rewrite !andb_true_iff, !Z.leb_le, Hnone. intuition lia. }
      right.
      replace (negb (has_moved self) && (0 <=? r + 2 * d) && (r + 2 * d <=? 7)
               && is_none (cell b (r + 2 * d) c) && is_none (cell b (r + d) c))
        with true; [left; reflexivity|].
      symmetry. rewrite !andb_true_iff, !Z.leb_le, negb_true_iff, !Hnone.
      intuition lia.
    + right. destruct Hct as [ -> | -> ].
      * left. replace (c + -1) with (c - 1) by lia. auto.
      * right. left. auto.
Qed.

(** What [can_castle] has found when it answers [True]. *)
Lemma can_castle_inv (g : ChessGame) (clr : Color) (side : Side) (b : Grid)
    (chk : bool) :
  can_castle g clr side b chk = true ->
  rights_get (castling_rights g) clr side = true
  /\ unmoved_on b King clr (home_row clr) 4
  /\ unmoved_on b Rook clr (home_row clr) (rook_file side)
  /\ match side with
     | SideK => cell b (home_row clr) 5 = None /\ cell b (home_row clr) 6 = None
     | SideQ => cell b (home_row clr) 3 = None /\ cell b (home_row clr) 2 = None
                /\ cell b (home_row clr) 1 = None
     end.
Proof.
  unfold can_castle. destruct (is_in_check clr b); [discriminate|].
  destruct (cell b (home_row clr) 4) as [king|] eqn:Eking; [|discriminate].
  destruct (negb (kind_eqb (kind king) King) || has_moved king
            || negb (color_eqb (color king) clr)) eqn:Ek; [discriminate|].
  destruct (rights_get (castling_rights g) clr side); cbn [negb]; [|discriminate].
  assert (Hrook : match side with SideK => 7 | SideQ => 0 end = rook_file side)
    by (destruct side; reflexivity).
  rewrite Hrook.
  destruct (cell b (home_row clr) (rook_file side)) as [rook|] eqn:Erook;
    [|discriminate].
  destruct (negb (kind_eqb (kind rook) Rook) || has_moved rook
            || negb (color_eqb (color rook) clr)) eqn:Er; [discriminate|].
  destruct (forallb _ _) eqn:Epath; cbn [negb]; [|discriminate].
  intros _. split; [reflexivity|].
  split; [apply unmoved_on_test; rewrite Eking; exact Ek|].
  split; [apply unmoved_on_test; rewrite Erook; exact Er|].
  assert (Hnone : forall o : option Piece, is_none o = true -> o = None).
  { intros [q|]; cbn; congruence. }
  destruct side; cbn [forallb fst snd] in Epath;
    rewrite !andb_true_iff in Epath;
    replace (4 + 1) with 5 in Epath by lia; replace (4 + 2) with 6 in Epath by lia;
    replace (4 - 1) with 3 in Epath by lia; replace (4 - 2) with 2 in Epath by lia;
    replace (4 - 3) with 1 in Epath by lia;
    intuition auto.
Qed.

(** ** One step of play keeps the invariants *)

Lemma not_king_none (clr : Color) : ~ is_king_of clr None.
Proof. intros (p & H & _). discriminate. Qed.

Lemma not_king_kind (clr : Color) (p : Piece) :
  kind p <> King -> ~ is_king_of clr (Some p).
Proof. intros Hk (q & [= <-] & Hq & _). contradiction. Qed.

Lemma promo_class_not_pawn (promo : option string) : promo_class promo <> Pawn.
Proof.
  unfold promo_class.
  repeat match goal with
         | |- context [if ?b then _ else _] => destruct b
         end; discriminate.
Qed.

Lemma moved_piece_color (piece : Piece) (r2 : Z) (promo : option string) :
  color (moved_piece piece r2 promo) = color piece.
Proof. unfold moved_piece. destruct (_ && _); reflexivity. Qed.

Lemma moved_piece_king (piece : Piece) (r2 : Z) (promo : option string) :
  kind (moved_piece piece r2 promo) = King <-> kind piece = King.
Proof.
  unfold moved_piece.
  destruct (kind_eqb (kind piece) Pawn) eqn:Hp; cbn [andb]; [|reflexivity].
  apply kind_eqb_eq in Hp.
  destruct (promotion_rank (color piece) r2); cbn [kind mark_moved].
  - split; [intros H; exfalso; exact (promo_class_not_king _ H)|congruence].
  - reflexivity.
Qed.

Lemma moved_piece_pawn (piece : Piece) (r2 : Z) (promo : option string) :
  kind (moved_piece piece r2 promo) = Pawn ->
  kind piece = Pawn /\ promotion_rank (color piece) r2 = false
  /\ moved_piece piece r2 promo = mark_moved piece.
Proof.
  unfold moved_piece.
  destruct (kind_eqb (kind piece) Pawn) eqn:Hp; cbn [andb].
  - apply kind_eqb_eq in Hp.
    destruct (promotion_rank (color piece) r2); cbn [kind mark_moved].
    + intros H. exfalso. exact (promo_class_not_pawn _ H).
    + auto.
  - cbn [kind mark_moved]. intros H. rewrite <- kind_eqb_eq in H. congruence.
Qed.

Lemma moved_piece_not_pawn (piece : Piece) (r2 : Z) (promo : option string) :
  kind piece <> Pawn -> moved_piece piece r2 promo = mark_moved piece.
Proof.
  intros H. unfold moved_piece.
  replace (kind_eqb (kind piece) Pawn) with false; [reflexivity|].
  symmetry. apply not_true_is_false. rewrite kind_eqb_eq. exact H.
Qed.

Lemma opponent_involutive (c : Color) : opponent (opponent c) = c.
Proof. destruct c; reflexivity. Qed.

Lemma color_other (a b : Color) : a <> b -> a = opponent b.
Proof. destruct a, b; auto; intros H; contradiction H; reflexivity. Qed.

Lemma home_row_inj (a b : Color) : home_row a = home_row b -> a = b.
Proof. destruct a, b; cbn; auto; lia. Qed.

(** One attacking piece on the board is enough for [is_square_attacked]. *)
Lemma is_square_attacked_from (b : Grid) (attacker_color : Color)
    (r_target c_target r c : Z) :
  in_bounds r c = true ->
  attacks_from b attacker_color r_target c_target r c = true ->
  is_square_attacked r_target c_target attacker_color b = true.
Proof.
  intros Hb H. apply in_bounds_true in Hb. unfold is_square_attacked.
  apply existsb_exists. exists r. split; [apply In_range8; lia|].
  apply existsb_exists. exists c. split; [apply In_range8; lia|exact H].
Qed.

(** The castling rights of a colour after one of its pieces has moved. *)
Lemma update_castling_rights_king (cr : CastlingRights) (pm : Piece)
    (from_sq to_sq : Square) (captured : option Piece) (side : Side) :
  kind pm = King ->
  rights_get (update_castling_rights cr pm from_sq captured to_sq) (color pm) side
  = false.
Proof.
  intros Hk. unfold update_castling_rights. rewrite Hk.
  destruct from_sq as [r c], to_sq as [cap_r cap_c].
  assert (H : rights_get (rights_clear (rights_clear cr (color pm) SideK)
                            (color pm) SideQ) (color pm) side = false)
    by (destruct (color pm), side; reflexivity).
  repeat match goal with
         | |- context [match ?x with _ => _ end] => destruct x
         end; first [exact H | apply rights_clear_false; exact H].
Qed.

Lemma update_castling_rights_rook (cr : CastlingRights) (pm : Piece)
    (r c : Z) (to_sq : Square) (captured : option Piece) (side : Side) :
  kind pm = Rook -> r = home_row (color pm) -> c = rook_file side ->
  rights_get (update_castling_rights cr pm (r, c) captured to_sq) (color pm) side
  = false.
Proof.
  intros Hk -> ->. unfold update_castling_rights. rewrite Hk, Z.eqb_refl.
  destruct to_sq as [cap_r cap_c].
  assert (H : rights_get
                (if rook_file side =? 0 then rights_clear cr (color pm) SideQ
                 else if rook_file side =? 7 then rights_clear cr (color pm) SideK
                 else cr) (color pm) side = false)
    by (destruct side, (color pm); reflexivity).
  repeat match goal with
         | |- context [match ?x with _ => _ end] =>
             lazymatch x with
             | rook_file _ =? _ => fail
             | _ => destruct x
             end
         end; first [exact H | apply rights_clear_false; exact H].
Qed.

Lemma update_castling_rights_captured (cr : CastlingRights) (pm q : Piece)
    (from_sq : Square) (r c : Z) (side : Side) :
  kind q = Rook -> r = home_row (color q) -> c = rook_file side ->
  rights_get (update_castling_rights cr pm from_sq (Some q) (r, c)) (color q) side
  = false.
Proof.
  intros Hk -> ->. unfold update_castling_rights.
  destruct from_sq as [r1 c1]. rewrite <- kind_eqb_eq in Hk. rewrite Hk, Z.eqb_refl.
  destruct side, (color q); reflexivity.
Qed.

Section LegalStep.
Variable g : ChessGame.
Hypothesis Hinv : inv g.
Variables (piece : Piece) (r1 c1 r2 c2 : Z).
Hypothesis H1 : in_bounds r1 c1 = true.
Hypothesis Hcell : cell (board g) r1 c1 = Some piece.
Hypothesis Hcol : color piece = current_player g.
Hypothesis Hmove : In (r2, c2) (live_piece_moves g piece r1 c1).

Lemma step_wf : wf g.
Proof. apply Hinv. Qed.

Lemma step_in_bounds : in_bounds r2 c2 = true.
Proof. exact (live_moves_in_bounds g step_wf piece r1 c1 H1 Hcell _ Hmove). Qed.

Lemma step_distinct : (r2, c2) <> (r1, c1).
Proof. exact (live_moves_distinct g step_wf piece r1 c1 H1 Hcell _ Hmove). Qed.

(** A King that moves two files castles. *)
Lemma step_castling :
  kind piece = King -> Z.abs (c2 - c1) = 2 ->
  r1 = home_row (color piece) /\ c1 = 4 /\ r2 = r1
  /\ exists side rook,
       c2 = king_destination side
       /\ (if c2 <? c1 then 0 else 7) = rook_file side
       /\ cell (board g) r1 (rook_file side) = Some rook
       /\ kind rook = Rook /\ color rook = color piece
       /\ cell (board g) r1 c2 = None
       /\ cell (board g) r1 (c1 + (if c2 >? c1 then 1 else -1)) = None.
Proof.
  intros Hk Habs. unfold live_piece_moves in Hmove. rewrite Hk in Hmove.
  apply (king_moves_In g step_wf piece r1 c1 H1 Hcell _ Hk) in Hmove.
  cbn [fst snd] in Hmove. destruct Hmove as [Hjump|(_ & Hr & Hc & Hcastle)].
  - exfalso. destruct Hjump as (d & Hd & -> & -> & _). unfold king_offsets in Hd.
    simpl in Hd. repeat (destruct Hd as [<-|Hd]; [cbn [fst snd] in Habs; lia|]).
    destruct Hd.
  - split; [exact Hr|]. split; [exact Hc|].
    destruct Hcastle as [[[= -> ->] Hcan]|[[= -> ->] Hcan]];
      apply can_castle_inv in Hcan;
      destruct Hcan as (_ & _ & (rook & Hrook & Hrk & Hrc & _) & Hpath);
      rewrite <- Hr in *; subst c1; split; try reflexivity.
    + exists SideK, rook. cbn [king_destination rook_file]. intuition auto.
    + exists SideQ, rook. cbn [king_destination rook_file]. intuition auto.
Qed.

(** A pawn that steps diagonally onto an empty square takes en passant. *)
Lemma step_en_passant :
  kind piece = Pawn -> c2 <> c1 -> cell (board g) r2 c2 = None ->
  en_passant_target g = Some (r2, c2)
  /\ r2 = r1 + direction (color piece)
  /\ exists p, cell (board g) r1 c2 = Some p
               /\ kind p = Pawn /\ color p = opponent (color piece).
Proof.
  intros Hk Hc Hnone. unfold live_piece_moves in Hmove. rewrite Hk in Hmove.
  apply (pawn_moves_cases _ _ _ _ _ _ _ H1) in Hmove.
  destruct Hmove as [(_ & Hc' & _)|[(_ & Hc' & _)|(Hr & _ & _ & Hcap)]];
    [contradiction|contradiction|].
  destruct Hcap as [(q & Hq & _)|Hep]; [congruence|].
  split; [exact Hep|]. split; [exact Hr|].
  destruct Hinv as (_ & _ & _ & Hepok & _). unfold en_passant_ok in Hepok.
  rewrite Hep in Hepok. destruct Hepok as (_ & _ & _ & p & Hp & Hpk & Hpc).
  exists p. rewrite <- Hcol in Hp, Hpc.
  replace (r2 - direction (color piece)) with r1 in Hp by lia. auto.
Qed.

(** The destination is empty or holds a piece of the other colour that the
    moving piece attacks. *)
Lemma step_target :
  match cell (board g) r2 c2 with
  | None => True
  | Some q =>
      color q = opponent (color piece)
      /\ attacks_from (board g) (color piece) r2 c2 r1 c1 = true
  end.
Proof.
  destruct (cell (board g) r2 c2) as [q|] eqn:Eq; [|exact I].
  assert (Hfree : forall own, free_for own (board g) r2 c2 -> color q <> own).
  { intros own. unfold free_for. rewrite Eq. auto. }
  assert (H : color q <> color piece
              /\ attack_rule (board g) piece r1 c1 r2 c2).
  { unfold attack_rule. pose proof Hmove as Hm. unfold live_piece_moves in Hm.
    destruct (kind piece) eqn:Hk.
    - apply (pawn_moves_cases _ _ _ _ _ _ _ H1) in Hm.
      destruct Hm as [(_ & _ & _ & Hn)|[(_ & _ & _ & _ & _ & Hn)|(Hr & Hc & _ & Hcap)]];
        [congruence|congruence|].
      destruct Hcap as [(q' & Hq' & Hne)|Hep].
      + assert (q' = q) as -> by congruence. split; [exact Hne|]. lia.
      + exfalso. destruct Hinv as (_ & _ & _ & Hepok & _).
        unfold en_passant_ok in Hepok. rewrite Hep in Hepok.
        destruct Hepok as (_ & _ & Hn & _). congruence.
    - split; [|exact Hm]. apply get_possible_moves_shape in Hm. rewrite Hk in Hm.
      destruct Hm as (d & i & _ & _ & _ & _ & _ & _ & Hf). exact (Hfree _ Hf).
    - split; [|exact Hm]. apply get_possible_moves_shape in Hm. rewrite Hk in Hm.
      destruct Hm as (d & _ & _ & _ & _ & Hf). exact (Hfree _ Hf).
    - split; [|exact Hm]. apply get_possible_moves_shape in Hm. rewrite Hk in Hm.
      destruct Hm as (d & i & _ & _ & _ & _ & _ & _ & Hf). exact (Hfree _ Hf).
    - split; [|exact Hm]. apply get_possible_moves_shape in Hm. rewrite Hk in Hm.
      destruct Hm as [Hm|Hm];
        destruct Hm as (d & i & _ & _ & _ & _ & _ & _ & Hf); exact (Hfree _ Hf).
    - apply (king_moves_In g step_wf piece r1 c1 H1 Hcell _ Hk) in Hm.
      cbn [fst snd] in Hm. destruct Hm as [Hjump|(_ & Hr & Hc & Hcastle)].
      + destruct Hjump as (d & Hd & Hr & Hc & _ & Hf). split; [exact (Hfree _ Hf)|].
        apply king_adjacent. exists d. auto.
      + exfalso.
        destruct Hcastle as [[[= -> ->] Hcan]|[[= -> ->] Hcan]];
          apply can_castle_inv in Hcan; destruct Hcan as (_ & _ & _ & Hpath);
          rewrite <- Hr in Hpath; cbv beta iota in Hpath; intuition congruence. }
  destruct H as [Hne Hrule]. split; [apply color_other; exact Hne|].
  apply attacks_from_iff. exists piece. auto.
Qed.

(** No King stands on the destination. *)
Lemma step_no_king (clr : Color) : ~ is_king_of clr (cell (board g) r2 c2).
Proof.
  intros (q & Hq & Hk & Hc). pose proof step_target as Ht. rewrite Hq in Ht.
  destruct Ht as [Hopp Hatt].
  destruct Hinv as (_ & Hone & Hchk & _).
  assert (Hfind : find_king (color q) (board g) = Some (r2, c2)).
  { apply find_king_one; [apply Hone|exact step_in_bounds|].
    exists q. auto. }
  rewrite <- Hcol, <- Hopp in Hchk. unfold is_in_check in Hchk.
  rewrite Hfind in Hchk. cbn [fst snd] in Hchk.
  rewrite Hopp, opponent_involutive in Hchk.
  rewrite (is_square_attacked_from _ _ _ _ _ _ H1 Hatt) in Hchk. discriminate.
Qed.

Variable promo : option string.

(** A King elsewhere on the board stays where it is, and none appears. *)
Lemma step_king_elsewhere (clr : Color) (r c : Z) :
  in_bounds r c = true -> (r, c) <> (r1, c1) -> (r, c) <> (r2, c2) ->
  is_king_of clr (cell (move_grid (board g) piece r1 c1 r2 c2 promo) r c)
  <-> is_king_of clr (cell (board g) r c).
Proof.
  intros Hrc Hn1 Hn2.
  rewrite (move_grid_elsewhere (board g) piece r1 c1 r2 c2 promo
             (proj1 step_wf) H1 step_in_bounds r c Hrc Hn1 Hn2).
  unfold moved_elsewhere.
  destruct (kind_eqb (kind piece) King && (Z.abs (c2 - c1) =? 2)) eqn:Ecastle.
  - apply andb_true_iff in Ecastle. destruct Ecastle as [Hk Habs].
    apply kind_eqb_eq in Hk. apply Z.eqb_eq in Habs.
    destruct (step_castling Hk Habs)
      as (_ & _ & _ & side & rook & _ & Hfile & Hrook & Hrk & _ & _ & Hnew).
    rewrite Hfile.
    destruct (sq_eqb (r, c) (r1, rook_file side)) eqn:E1.
    { apply sq_eqb_eq in E1. injection E1 as -> ->. rewrite Hrook. split.
      - intros H. exfalso. exact (not_king_none _ H).
      - intros H. exfalso. apply (not_king_kind clr rook); [congruence|exact H]. }
    destruct (sq_eqb (r, c) (r1, c1 + (if c2 >? c1 then 1 else -1))) eqn:E2;
      [|reflexivity].
    apply sq_eqb_eq in E2. injection E2 as -> ->. rewrite Hrook, Hnew.
    cbn [fmap option_fmap option_map]. split.
    + intros H. exfalso. apply (not_king_kind clr (mark_moved rook)); [|exact H].
      cbn [kind mark_moved]. congruence.
    + intros H. exfalso. exact (not_king_none _ H).
  - destruct (kind_eqb (kind piece) Pawn && (Z.abs (c2 - c1) =? 1)
              && is_none (cell (board g) r2 c2)) eqn:Eep; [|reflexivity].
    rewrite !andb_true_iff in Eep. destruct Eep as [[Hk Habs] Hnone].
    apply kind_eqb_eq in Hk. apply Z.eqb_eq in Habs.
    assert (Hn : cell (board g) r2 c2 = None)
      by (destruct (cell (board g) r2 c2); [discriminate|reflexivity]).
    destruct (step_en_passant Hk ltac:(lia) Hn) as (_ & _ & p & Hp & Hpk & _).
    destruct (sq_eqb (r, c) (r1, c2)) eqn:E1; [|reflexivity].
    apply sq_eqb_eq in E1. injection E1 as -> ->. rewrite Hp. split.
    + intros H. exfalso. exact (not_king_none _ H).
    + intros H. exfalso. apply (not_king_kind clr p); [congruence|exact H].
Qed.

(** A piece other than a pawn that is neither moved nor captured, and is
    not the castling rook, stays where it is. *)
Lemma step_cell_kept (r c : Z) (p : Piece) :
  in_bounds r c = true -> cell (board g) r c = Some p ->
  (r, c) <> (r1, c1) -> (r, c) <> (r2, c2) -> kind p <> Pawn ->
  (kind piece = King -> Z.abs (c2 - c1) = 2 ->
   (r, c) <> (r1, if c2 <? c1 then 0 else 7)) ->
  cell (move_grid (board g) piece r1 c1 r2 c2 promo) r c = Some p.
Proof.
  intros Hrc Hp Hn1 Hn2 Hnp Hcorner.
  rewrite (move_grid_elsewhere (board g) piece r1 c1 r2 c2 promo
             (proj1 step_wf) H1 step_in_bounds r c Hrc Hn1 Hn2).
  unfold moved_elsewhere.
  destruct (kind_eqb (kind piece) King && (Z.abs (c2 - c1) =? 2)) eqn:Ecastle.
  - apply andb_true_iff in Ecastle. destruct Ecastle as [Hk Habs].
    apply kind_eqb_eq in Hk. apply Z.eqb_eq in Habs.
    destruct (step_castling Hk Habs)
      as (_ & _ & _ & side & rook & _ & Hfile & Hrook & Hrk & _ & _ & Hnew).
    destruct (sq_eqb (r, c) (r1, if c2 <? c1 then 0 else 7)) eqn:E1.
    { apply sq_eqb_eq in E1. exfalso. exact (Hcorner Hk Habs E1). }
    destruct (sq_eqb (r, c) (r1, c1 + (if c2 >? c1 then 1 else -1))) eqn:E2;
      [|exact Hp].
    apply sq_eqb_eq in E2. injection E2 as -> ->. congruence.
  - destruct (kind_eqb (kind piece) Pawn && (Z.abs (c2 - c1) =? 1)
              && is_none (cell (board g) r2 c2)) eqn:Eep; [|exact Hp].
    rewrite !andb_true_iff in Eep. destruct Eep as [[Hk Habs] Hnone].
    apply kind_eqb_eq in Hk. apply Z.eqb_eq in Habs.
    assert (Hn : cell (board g) r2 c2 = None)
      by (destruct (cell (board g) r2 c2); [discriminate|reflexivity]).
    destruct (step_en_passant Hk ltac:(lia) Hn) as (_ & _ & q & Hq & Hqk & _).
    destruct (sq_eqb (r, c) (r1, c2)) eqn:E1; [|exact Hp].
    apply sq_eqb_eq in E1. injection E1 as -> ->. congruence.
Qed.

Lemma step_one_king (clr : Color) :
  one_king (move_grid (board g) piece r1 c1 r2 c2 promo) clr.
Proof.
  pose proof step_in_bounds as H2. pose proof step_distinct as Hne.
  pose proof (proj1 step_wf) as Hb.
  pose proof (move_grid_to (board g) piece r1 c1 r2 c2 promo Hb H1 H2 Hne) as Hto.
  pose proof (move_grid_from (board g) piece r1 c1 r2 c2 promo Hb H1 H2 Hne) as Hfrom.
  assert (Hmoved : is_king_of clr (Some (moved_piece piece r2 promo))
                   <-> is_king_of clr (Some piece)).
  { split; intros (q & [= <-] & Hk & Hc).
    - exists piece. rewrite moved_piece_king in Hk.
      rewrite moved_piece_color in Hc. auto.
    - exists (moved_piece piece r2 promo).
      rewrite moved_piece_king, moved_piece_color. auto. }
  destruct Hinv as (_ & Hone & _). destruct (Hone clr) as (kr & kc & Hkb & Hk & Huniq).
  destruct (sq_eqb (kr, kc) (r1, c1)) eqn:E.
  - apply sq_eqb_eq in E. injection E as -> ->. rewrite Hcell in Hk.
    exists r2, c2. split; [exact H2|]. split; [rewrite Hto; apply Hmoved; exact Hk|].
    intros r' c' Hb' Hk'.
    destruct (sq_eqb (r', c') (r2, c2)) eqn:E2; [apply sq_eqb_eq; exact E2|].
    destruct (sq_eqb (r', c') (r1, c1)) eqn:E1.
    { apply sq_eqb_eq in E1. injection E1 as -> ->. rewrite Hfrom in Hk'.
      exfalso. exact (not_king_none _ Hk'). }
    exfalso. apply step_king_elsewhere in Hk'; try assumption.
    + apply Huniq in Hk'; [|exact Hb']. rewrite <- sq_eqb_eq in Hk'. congruence.
    + rewrite <- sq_eqb_eq. congruence.
    + rewrite <- sq_eqb_eq. congruence.
  - assert (Hn1 : (kr, kc) <> (r1, c1)) by (rewrite <- sq_eqb_eq; congruence).
    assert (Hn2 : (kr, kc) <> (r2, c2)).
    { intros [= -> ->]. exact (step_no_king clr Hk). }
    exists kr, kc. split; [exact Hkb|].
    split; [apply step_king_elsewhere; assumption|].
    intros r' c' Hb' Hk'.
    destruct (sq_eqb (r', c') (r2, c2)) eqn:E2.
    { apply sq_eqb_eq in E2. injection E2 as -> ->. rewrite Hto in Hk'.
      apply Hmoved in Hk'. rewrite <- Hcell in Hk'. apply Huniq in Hk'; [|exact H1].
      congruence. }
    destruct (sq_eqb (r', c') (r1, c1)) eqn:E1.
    { apply sq_eqb_eq in E1. injection E1 as -> ->. rewrite Hfrom in Hk'.
      exfalso. exact (not_king_none _ Hk'). }
    apply step_king_elsewhere in Hk'; try assumption.
    + apply Huniq; assumption.
    + rewrite <- sq_eqb_eq. congruence.
    + rewrite <- sq_eqb_eq. congruence.
Qed.
End LegalStep.

Section LegalStepState.
Variable g : ChessGame.
Hypothesis Hinv : inv g.
Variables (piece : Piece) (r1 c1 r2 c2 : Z) (promo : option string).
Hypothesis H1 : in_bounds r1 c1 = true.
Hypothesis Hcell : cell (board g) r1 c1 = Some piece.
Hypothesis Hcol : color piece = current_player g.
Hypothesis Hmove : In (r2, c2) (live_piece_moves g piece r1 c1).
Variable g' : ChessGame.
Hypothesis Hboard : board g' = move_grid (board g) piece r1 c1 r2 c2 promo.
Hypothesis Hplayer : current_player g' = opponent (current_player g).
Hypothesis Hrights :
  castling_rights g'
  = update_castling_rights (castling_rights g) (moved_piece piece r2 promo)
      (r1, c1) (cell (board g) r2 c2) (r2, c2).
Hypothesis Htarget :
  en_passant_target g'
  = (if kind_eqb (kind (moved_piece piece r2 promo)) Pawn && (Z.abs (r1 - r2) =? 2)
     then Some ((r1 + r2) / 2, c1) else None).

Lemma step_en_passant_ok : en_passant_ok g'.
Proof.
  clear Hrights. unfold en_passant_ok. rewrite Htarget.
  destruct (kind_eqb (kind (moved_piece piece r2 promo)) Pawn
            && (Z.abs (r1 - r2) =? 2)) eqn:E; [|exact I].
  apply andb_true_iff in E. destruct E as [Hk Habs].
  apply kind_eqb_eq in Hk. apply Z.eqb_eq in Habs.
  destruct (moved_piece_pawn _ _ _ Hk) as (Hpawn & _ & Hmp).
  pose proof (step_wf g Hinv) as Hwf.
  pose proof (step_in_bounds g Hinv piece r1 c1 r2 c2 H1 Hcell Hmove) as H2.
  pose proof (step_distinct g Hinv piece r1 c1 r2 c2 H1 Hcell Hmove) as Hne.
  pose proof Hmove as Hm. unfold live_piece_moves in Hm. rewrite Hpawn in Hm.
  apply (pawn_moves_cases _ _ _ _ _ _ _ H1) in Hm.
  assert (Hd : direction (color piece) = 1 \/ direction (color piece) = -1)
    by (destruct (color piece); cbn; lia).
  destruct Hm as [(Hr & _)|[(Hr & Hc & _ & Hunmoved & Hmid & _)|(Hr & _)]];
    [lia| |lia].
  pose proof (unmoved_pawn_rank g Hwf piece r1 c1 H1 Hcell Hpawn Hunmoved) as Hrank.
  assert (Hmidpoint : (r1 + r2) / 2 = r1 + direction (color piece)).
  { rewrite Hr, Hrank. destruct (color piece); reflexivity. }
  rewrite Hmidpoint, Hplayer, Hboard, <- Hcol.
  pose proof H1 as H1'. apply in_bounds_true in H1'.
  pose proof H2 as H2'. apply in_bounds_true in H2'.
  split; [rewrite Hrank; destruct (color piece); reflexivity|].
  split; [lia|]. split.
  - rewrite (move_grid_elsewhere (board g) piece r1 c1 r2 c2 promo
               (proj1 Hwf) H1 H2).
    + unfold moved_elsewhere. rewrite Hpawn, Hc. cbn [kind_eqb andb].
      replace (Z.abs (c1 - c1) =? 1) with false; [exact Hmid|].
      symmetry. apply Z.eqb_neq. lia.
    + apply in_bounds_true. lia.
    + intros [= E]. lia.
    + intros [= E]. lia.
  - exists (mark_moved piece).
    replace (r1 + direction (color piece) - direction (opponent (color piece)))
      with r2 by (rewrite Hr; destruct (color piece); cbn; lia).
    rewrite <- Hc at 2.
    rewrite (move_grid_to (board g) piece r1 c1 r2 c2 promo (proj1 Hwf) H1 H2 Hne).
    rewrite Hmp, opponent_involutive. auto.
Qed.

Lemma step_rights_ok : rights_ok g'.
Proof.
  clear Htarget Hplayer. intros clr side Hright.
  pose proof (step_wf g Hinv) as Hwf.
  pose proof (step_in_bounds g Hinv piece r1 c1 r2 c2 H1 Hcell Hmove) as H2.
  assert (Hold : rights_get (castling_rights g) clr side = true).
  { destruct (rights_get (castling_rights g) clr side) eqn:E; [reflexivity|].
    rewrite Hrights, update_castling_rights_false in Hright by exact E.
    discriminate. }
  destruct Hinv as (_ & _ & _ & _ & Hrok).
  destruct (Hrok clr side Hold) as [(king & Hking & Hkk & Hkc & Hkm)
                                    (rook & Hrook & Hrk & Hrc & Hrm)].
  assert (Hhome : 0 <= home_row clr <= 7) by (destruct clr; cbn; lia).
  assert (Hfile : rook_file side = 0 \/ rook_file side = 7)
    by (destruct side; cbn; lia).
  assert (Hcastle_color :
            kind piece = King -> rights_get (castling_rights g') (color piece) side
                                 = false).
  { intros Hk. rewrite Hrights. rewrite <- (moved_piece_color piece r2 promo).
    apply update_castling_rights_king. apply moved_piece_king. exact Hk. }
  rewrite Hboard. split.
  - exists king. split; [|auto].
    apply (step_cell_kept g Hinv piece r1 c1 r2 c2 H1 Hcell Hcol Hmove);
      [apply in_bounds_true; lia|exact Hking| | |congruence|].
    + intros [= <- <-]. assert (piece = king) as -> by congruence.
      rewrite <- Hkc, Hcastle_color in Hright by exact Hkk. discriminate.
    + intros [= <- <-].
      apply (step_no_king g Hinv piece r1 c1 (home_row clr) 4 H1 Hcell Hcol Hmove clr).
      exists king. auto.
    + intros _ _ [= _ E]. destruct (c2 <? c1); lia.
  - exists rook. split; [|auto].
    apply (step_cell_kept g Hinv piece r1 c1 r2 c2 H1 Hcell Hcol Hmove);
      [apply in_bounds_true; lia|exact Hrook| | |congruence|].
    + intros [= <- <-]. assert (piece = rook) as -> by congruence.
      rewrite Hrights, (moved_piece_not_pawn rook) in Hright by congruence.
      rewrite <- Hrc in Hright at 2.
      rewrite (update_castling_rights_rook _ (mark_moved rook)) in Hright;
        [discriminate|exact Hrk|cbn [color mark_moved]; congruence|reflexivity].
    + intros [= <- <-].
      pose proof (update_castling_rights_captured (castling_rights g)
                    (moved_piece piece (home_row clr) promo) rook (r1, c1) _ _ side
                    Hrk (eq_sym (f_equal home_row Hrc)) eq_refl) as Hf.
      rewrite Hrc in Hf. rewrite Hrights, Hrook, Hf in Hright. discriminate.
    + intros Hk Habs [= Hr _].
      destruct (step_castling g Hinv piece r1 c1 r2 c2 H1 Hcell Hmove Hk Habs)
        as (Hr1 & _).
      rewrite Hr1 in Hr. apply home_row_inj in Hr. rewrite Hr in Hright.
      rewrite Hcastle_color in Hright by exact Hk. discriminate.
Qed.
End LegalStepState.

Lemma inv_new_game : inv new_game.
Proof.
  split; [exact wf_new_game|]. split; [|split; [|split]].
  - intros clr. exists (home_row clr), 4.
    split; [destruct clr; reflexivity|].
    split; [destruct clr; eexists; repeat split|].
    intros r' c' Hb (p & Hp & Hk & Hc). apply in_bounds_true in Hb.
    destruct (initial_king_square r' c' p) as [-> ->]; try tauto.
    subst clr. reflexivity.
  - vm_compute. reflexivity.
  - exact I.
  - intros clr side _. destruct clr, side; split; eexists; repeat split.
Qed.

(** A call of [process_move] on a reachable game keeps the invariants. *)
Lemma inv_step (g : ChessGame) (from_sq to_sq : Square) (promo : option string)
    (res : PyResult) (g' : ChessGame) :
  reachable g -> inv g ->
  process_move g from_sq to_sq promo = Some (res, g') -> inv g'.
Proof.
  intros Hreach Hinv Hpm.
  assert (Hreach' : reachable g') by (eapply reachable_step; eauto).
  pose proof Hpm as Hout. apply process_move_outcome in Hout.
  destruct Hout as [| | | |piece0 l g' Hover Hp0 Hc0 Hl Hin Hpr Happly];
    try exact Hinv.
  destruct (process_move_moved g _ _ promo g' (proj1 Hinv) Hpm)
    as (piece & l' & _ & Hl' & Hin' & H1 & H2 & Hne & Hcell & Hcol & Hmove
        & Hb & Hcp & Hcr & Hep).
  destruct from_sq as [r1 c1], to_sq as [r2 c2]. cbn [fst snd] in *.
  split; [exact (reachable_wf g' Hreach')|]. split; [|split; [|split]].
  - intros clr. rewrite Hb. apply step_one_king; assumption.
  - rewrite Hcp, opponent_involutive.
    destruct (legal_move_played_keeps_king_safe g _ l' (r1, c1) (r2, c2) promo
                Hreach Hl' Hin') as (b' & out & Hmk & Hchk).
    rewrite Hb.
    rewrite <- (make_move_eq (board g) piece r1 c1 r2 c2 (proj1 (proj1 Hinv))
                  H1 H2 Hcell promo b' out Hmk).
    exact Hchk.
  - exact (step_en_passant_ok g Hinv piece r1 c1 r2 c2 promo H1 Hcell Hcol Hmove
             g' Hb Hcp Hep).
  - exact (step_rights_ok g Hinv piece r1 c1 r2 c2 promo H1 Hcell Hcol Hmove
             g' Hb Hcr).
Qed.

Lemma reachable_inv (g : ChessGame) : reachable g -> inv g.
Proof.
  induction 1 as [|g from_sq to_sq promo res g' Hreach IH Hpm].
  - exact inv_new_game.
  - exact (inv_step g from_sq to_sq promo res g' Hreach IH Hpm).
Qed.

(** ** What holds in every reachable state *)

(** X11: on a reachable game [find_king] finds a King of either colour, and
    the square it returns is the only square of the board that holds a King
    of that colour; so the branch of [is_in_check] for a missing King is
    never taken. *)
Theorem reachable_one_king (g : ChessGame) (clr : Color) :
  reachable g ->
  exists r c,
    find_king clr (board g) = Some (r, c)
    /\ in_bounds r c = true
    /\ forall r' c', in_bounds r' c' = true ->
         (is_king_of clr (cell (board g) r' c') <-> (r', c') = (r, c)).
Proof.
  intros Hreach. destruct (reachable_inv g Hreach) as (_ & Hone & _).
  destruct (Hone clr) as (r & c & Hb & Hk & Huniq).
  exists r, c. split; [apply find_king_one; auto|]. split; [exact Hb|].
  intros r' c' Hb'. split; [apply Huniq; exact Hb'|].
  intros [= -> ->]. exact Hk.
Qed.

Lemma reachable_one_king_witness :
  exists r c,
    find_king B (board after_e4) = Some (r, c)
    /\ in_bounds r c = true
    /\ forall r' c', in_bounds r' c' = true ->
         (is_king_of B (cell (board after_e4) r' c') <-> (r', c') = (r, c)).
Proof.
  apply (reachable_one_king after_e4 B).
  apply (replay_reachable [((6, 4), (4, 4), None)]). vm_compute. reflexivity.
Defined.

(** X12: on a reachable game an en-passant target, when set, lies on the
    board, on the third rank counted from the side of the player who just
    moved; the square is empty and the square behind it, seen from the
    player to move, holds a pawn of the player who just moved.  [to_notation]
    names the square, so the en-passant field of [get_fen] is never the text
    of [None]. *)
Theorem reachable_en_passant_target (g : ChessGame) (er ec : Z) :
  reachable g ->
  en_passant_target g = Some (er, ec) ->
  er = (match current_player g with W => 2 | B => 5 end)
  /\ 0 <= ec <= 7
  /\ cell (board g) er ec = None
  /\ (exists p, cell (board g) (er - direction (current_player g)) ec = Some p
                /\ kind p = Pawn /\ color p = opponent (current_player g))
  /\ exists name, to_notation (er, ec) = Some name.
Proof.
  intros Hreach Hep. destruct (reachable_inv g Hreach) as (_ & _ & _ & Hok & _).
  unfold en_passant_ok in Hok. rewrite Hep in Hok.
  destruct Hok as (Hr & Hc & Hnone & Hpawn). repeat split; try assumption; try lia.
  unfold to_notation.
  replace (negb ((0 <=? er) && (er <=? 7) && (0 <=? ec) && (ec <=? 7))) with false.
  - eexists. reflexivity.
  - symmetry. apply negb_false_iff. rewrite !andb_true_iff, !Z.leb_le.
    destruct (current_player g); lia.
Qed.

Lemma reachable_en_passant_target_witness :
  5 = (match current_player after_e4 with W => 2 | B => 5 end)
  /\ 0 <= 4 <= 7
  /\ cell (board after_e4) 5 4 = None
  /\ (exists p, cell (board after_e4) (5 - direction (current_player after_e4)) 4
                = Some p
                /\ kind p = Pawn /\ color p = opponent (current_player after_e4))
  /\ exists name, to_notation (5, 4) = Some name.
Proof.
  apply (reachable_en_passant_target after_e4 5 4).
  - apply (replay_reachable [((6, 4), (4, 4), None)]). vm_compute. reflexivity.
  - vm_compute. reflexivity.
Defined.

(** X13: on a reachable game a castling right that is still set means that
    the King of that colour stands on its home square and the Rook of that
    side in its corner, both with [has_moved] unset. *)
Theorem reachable_castling_rights (g : ChessGame) (clr : Color) (side : Side) :
  reachable g ->
  rights_get (castling_rights g) clr side = true ->
  unmoved_on (board g) King clr (home_row clr) 4
  /\ unmoved_on (board g) Rook clr (home_row clr) (rook_file side).
Proof.
  intros Hreach. destruct (reachable_inv g Hreach) as (_ & _ & _ & _ & Hok).
  apply Hok.
Qed.

Lemma reachable_castling_rights_witness :
  unmoved_on (board after_e4) King B (home_row B) 4
  /\ unmoved_on (board after_e4) Rook B (home_row B) (rook_file SideQ).
Proof.
  apply (reachable_castling_rights after_e4 B SideQ).
  - apply (replay_reachable [((6, 4), (4, 4), None)]). vm_compute. reflexivity.
  - vm_compute. reflexivity.
Defined.

(** X14: on a reachable game every legal move of the player to move starts
    on a square of the board that holds a piece of that player and ends on a
    different square of the board that is empty or holds a piece of the
    other player which is not a King: no move lands on a piece of the
    mover's own colour and no King is ever captured. *)
Theorem legal_move_target (g : ChessGame) (l : list Move) (r1 c1 r2 c2 : Z) :
  reachable g ->
  get_all_legal_moves_for_player g (current_player g) = Some l ->
  In ((r1, c1), (r2, c2)) l ->
  in_bounds r1 c1 = true /\ in_bounds r2 c2 = true /\ (r2, c2) <> (r1, c1)
  /\ (exists piece, cell (board g) r1 c1 = Some piece
                    /\ color piece = current_player g)
  /\ match cell (board g) r2 c2 with
     | None => True
     | Some q => color q = opponent (current_player g) /\ kind q <> King
     end.
Proof.
  intros Hreach Hl Hin. pose proof (reachable_inv g Hreach) as Hinv.
  destruct (legal_moves_In _ _ _ _ _ Hl Hin) as (piece & H1 & Hcell & Hcol & Hmove).
  cbn [fst snd] in *.
  split; [exact H1|].
  split; [exact (step_in_bounds g Hinv piece r1 c1 r2 c2 H1 Hcell Hmove)|].
  split; [exact (step_distinct g Hinv piece r1 c1 r2 c2 H1 Hcell Hmove)|].
  split; [exists piece; auto|].
  pose proof (step_target g Hinv piece r1 c1 r2 c2 H1 Hcell Hmove) as Ht.
  destruct (cell (board g) r2 c2) as [q|] eqn:Eq; [|exact I].
  destruct Ht as [Hopp _]. rewrite <- Hcol. split; [exact Hopp|].
  intros Hk.
  apply (step_no_king g Hinv piece r1 c1 r2 c2 H1 Hcell Hcol Hmove (color q)).
  rewrite Eq. exists q. auto.
Qed.

Lemma legal_move_target_witness :
  in_bounds 1 4 = true /\ in_bounds 3 4 = true /\ (3, 4) <> (1, 4)
  /\ (exists piece, cell (board after_e4) 1 4 = Some piece
                    /\ color piece = current_player after_e4)
  /\ match cell (board after_e4) 3 4 with
     | None => True
     | Some q => color q = opponent (current_player after_e4) /\ kind q <> King
     end.
Proof.
  eapply (legal_move_target after_e4 _ 1 4 3 4).
  - apply (replay_reachable [((6, 4), (4, 4), None)]). vm_compute. reflexivity.
  - vm_compute. reflexivity.
  - apply move_mem_In. vm_compute. reflexivity.
Defined.

(** ** Castling and en passant as they are played *)

(** A castling move survives the legal-move filter only if [can_castle]
    holds in its strict mode. *)
Lemma simulate_castling_checked (g : ChessGame) (clr : Color) (piece : Piece)
    (r1 c1 r2 c2 : Z) (sim : Grid) :
  grid_8x8 (board g) -> in_bounds r1 c1 = true ->
  cell (board g) r1 c1 = Some piece ->
  kind piece = King -> Z.abs (c2 - c1) = 2 ->
  simulate_move g clr (r1, c1) (r2, c2) = Some (SimBoard sim) ->
  can_castle g clr (if c2 >? c1 then SideK else SideQ) (board g) true = true.
Proof.
  intros Hb H1 Hcell Hk Habs. unfold simulate_move, sim_castling. cbn [fst snd].
  rewrite (getitem2_in_bounds _ Hb _ _ H1), Hcell. cbn [mbind option_bind].
  rewrite Hk. cbn [kind_eqb andb].
  replace (Z.abs (c2 - c1) =? 2) with true by (symmetry; apply Z.eqb_eq; exact Habs).
  destruct (can_castle g clr (if c2 >? c1 then SideK else SideQ) (board g) true);
    [reflexivity|]. cbn [negb mbind option_bind]. discriminate.
Qed.

(** X15: when a call of [process_move] on a reachable game moves a King two
    files and returns [True], the King stood unmoved on its home square,
    [can_castle] held in its strict mode (attacks on the squares the King
    crosses checked), the Rook of that side goes from its corner to the
    square the King crossed, both pieces are marked as moved, every other
    square keeps its content, and the mover has lost both castling rights. *)
Theorem castling_played (g : ChessGame) (r1 c1 r2 c2 : Z) (promo : option string)
    (g' : ChessGame) (piece : Piece) :
  reachable g ->
  process_move g (r1, c1) (r2, c2) promo = Some (PyBool true, g') ->
  cell (board g) r1 c1 = Some piece -> kind piece = King -> Z.abs (c2 - c1) = 2 ->
  exists side rook,
    r1 = home_row (current_player g) /\ c1 = 4 /\ r2 = r1
    /\ c2 = king_destination side
    /\ has_moved piece = false
    /\ can_castle g (current_player g) side (board g) true = true
    /\ cell (board g) r1 (rook_file side) = Some rook
    /\ kind rook = Rook /\ color rook = current_player g
    /\ cell (board g') r1 4 = None
    /\ cell (board g') r1 c2 = Some (mark_moved piece)
    /\ cell (board g') r1 (rook_file side) = None
    /\ cell (board g') r1 (rook_crossing side) = Some (mark_moved rook)
    /\ (forall r c,
          in_bounds r c = true ->
          r <> r1 \/ (c <> 4 /\ c <> c2 /\ c <> rook_file side
                      /\ c <> rook_crossing side) ->
          cell (board g') r c = cell (board g) r c)
    /\ rights_get (castling_rights g') (current_player g) SideK = false
    /\ rights_get (castling_rights g') (current_player g) SideQ = false.
Proof.
  intros Hreach Hpm Hcell Hk Habs. pose proof (reachable_inv g Hreach) as Hinv.
  pose proof (proj1 Hinv) as Hwf.
  destruct (process_move_moved g _ _ promo g' Hwf Hpm)
    as (piece' & l & _ & Hl & Hin & H1 & H2 & Hne & Hcell' & Hcol & Hmove
        & Hb & _ & Hcr & _).
  cbn [fst snd] in *. assert (piece' = piece) as -> by congruence.
  destruct (step_castling g Hinv piece r1 c1 r2 c2 H1 Hcell Hmove Hk Habs)
    as (Hr1 & Hc1 & Hr2 & side & rook & Hc2 & Hfile & Hrook & Hrk & Hrcol & _ & _).
  destruct (filter_legal_In _ _ _ _ _ _ Hl Hin) as (_ & sim & Hsim & _).
  pose proof (simulate_castling_checked g _ piece r1 c1 r2 c2 sim (proj1 Hwf)
                H1 Hcell Hk Habs Hsim) as Hcan.
  assert (Hunmoved : has_moved piece = false).
  { pose proof Hmove as Hm. unfold live_piece_moves in Hm. rewrite Hk in Hm.
    apply (king_moves_In g Hwf piece r1 c1 H1 Hcell _ Hk) in Hm.
    destruct Hm as [(d & Hd & _ & Hc & _)|(Hm & _)]; [|exact Hm].
    exfalso. cbn [fst snd] in Hc. unfold king_offsets in Hd. simpl in Hd.
    repeat (destruct Hd as [<-|Hd]; [cbn [fst snd] in Hc; lia|]). destruct Hd. }
  assert (Hside : (if c2 >? c1 then SideK else SideQ) = side
                  /\ c1 + (if c2 >? c1 then 1 else -1) = rook_crossing side).
  { subst c1 c2. destruct side; split; reflexivity. }
  destruct Hside as [Hside Hcross]. rewrite Hside in Hcan.
  assert (Hmp : moved_piece piece r2 promo = mark_moved piece)
    by (apply moved_piece_not_pawn; congruence).
  exists side, rook. rewrite <- Hcol.
  split; [exact Hr1|]. split; [exact Hc1|]. split; [exact Hr2|].
  split; [exact Hc2|]. split; [exact Hunmoved|]. split; [rewrite Hcol; exact Hcan|].
  split; [exact Hrook|]. split; [exact Hrk|]. split; [exact Hrcol|].
  assert (Helse : forall r c,
            in_bounds r c = true -> (r, c) <> (r1, c1) -> (r, c) <> (r2, c2) ->
            cell (board g') r c
            = if sq_eqb (r, c) (r1, rook_file side) then None
              else if sq_eqb (r, c) (r1, rook_crossing side)
                   then Some (mark_moved rook) else cell (board g) r c).
  { intros r c Hrc Hn1 Hn2. rewrite Hb.
    rewrite (move_grid_elsewhere (board g) piece r1 c1 r2 c2 promo
               (proj1 Hwf) H1 H2 r c Hrc Hn1 Hn2).
    unfold moved_elsewhere. rewrite Hk. cbn [kind_eqb andb].
    replace (Z.abs (c2 - c1) =? 2) with true by (symmetry; apply Z.eqb_eq; exact Habs).
    rewrite Hfile, Hcross, Hrook. reflexivity. }
  assert (Hcols : rook_file side <> 4 /\ rook_file side <> c2
                  /\ rook_crossing side <> 4 /\ rook_crossing side <> c2
                  /\ rook_crossing side <> rook_file side
                  /\ 0 <= rook_file side <= 7 /\ 0 <= rook_crossing side <= 7).
  { subst c2. destruct side; cbn; lia. }
  pose proof H1 as H1'. apply in_bounds_true in H1'.
  split; [rewrite <- Hc1, Hb; apply move_grid_from; assumption || apply Hwf|].
  split; [rewrite <- Hr2, <- Hmp, Hb; apply move_grid_to; assumption || apply Hwf|].
  split.
  { rewrite Helse.
    - replace (sq_eqb (r1, rook_file side) (r1, rook_file side)) with true;
        [reflexivity|symmetry; apply sq_eqb_eq; reflexivity].
    - apply in_bounds_true. lia.
    - intros [= E]. lia.
    - intros [= _ E]. lia. }
  split.
  { rewrite Helse.
    - replace (sq_eqb (r1, rook_crossing side) (r1, rook_file side)) with false.
      + replace (sq_eqb (r1, rook_crossing side) (r1, rook_crossing side)) with true;
          [reflexivity|symmetry; apply sq_eqb_eq; reflexivity].
      + symmetry. apply not_true_is_false. rewrite sq_eqb_eq. intros [= E]. lia.
    - apply in_bounds_true. lia.
    - intros [= E]. lia.
    - intros [= _ E]. lia. }
  split.
  { intros r c Hrc Hother. rewrite Helse; [|exact Hrc| |].
    - replace (sq_eqb (r, c) (r1, rook_file side)) with false.
      + replace (sq_eqb (r, c) (r1, rook_crossing side)) with false; [reflexivity|].
        symmetry. apply not_true_is_false. rewrite sq_eqb_eq. intros [= E1 E2]. lia.
      + symmetry. apply not_true_is_false. rewrite sq_eqb_eq. intros [= E1 E2]. lia.
    - intros [= E1 E2]. lia.
    - intros [= E1 E2]. lia. }
  rewrite Hcr, <- (moved_piece_color piece r2 promo).
  split; apply update_castling_rights_king; apply moved_piece_king; exact Hk.
Qed.

Lemma castling_played_witness :
  exists side rook,
    7 = home_row (current_player before_castling) /\ 4 = 4 /\ 7 = 7
    /\ 6 = king_destination side
    /\ has_moved (new_piece King W) = false
    /\ can_castle before_castling (current_player before_castling) side
         (board before_castling) true = true
    /\ cell (board before_castling) 7 (rook_file side) = Some rook
    /\ kind rook = Rook /\ color rook = current_player before_castling
    /\ cell (board after_castling) 7 4 = None
    /\ cell (board after_castling) 7 6 = Some (mark_moved (new_piece King W))
    /\ cell (board after_castling) 7 (rook_file side) = None
    /\ cell (board after_castling) 7 (rook_crossing side) = Some (mark_moved rook)
    /\ (forall r c,
          in_bounds r c = true ->
          r <> 7 \/ (c <> 4 /\ c <> 6 /\ c <> rook_file side
                     /\ c <> rook_crossing side) ->
          cell (board after_castling) r c = cell (board before_castling) r c)
    /\ rights_get (castling_rights after_castling) (current_player before_castling)
         SideK = false
    /\ rights_get (castling_rights after_castling) (current_player before_castling)
         SideQ = false.
Proof.
  apply (castling_played before_castling 7 4 7 6 None after_castling
           (new_piece King W)).
  - apply (replay_reachable (firstn 6 castling_calls)). vm_compute. reflexivity.
  - vm_compute. reflexivity.
  - vm_compute. reflexivity.
  - reflexivity.
  - reflexivity.
Defined.

(** X16: when a call of [process_move] on a reachable game moves a pawn to
    another file onto an empty square and returns [True], that square was
    the en-passant target, it lies one rank ahead, the square beside the
    pawn held a pawn of the other player, which is removed; the moving pawn
    is not promoted, every other square keeps its content and no new
    en-passant target is set. *)
Theorem en_passant_played (g : ChessGame) (r1 c1 r2 c2 : Z) (promo : option string)
    (g' : ChessGame) (piece : Piece) :
  reachable g ->
  process_move g (r1, c1) (r2, c2) promo = Some (PyBool true, g') ->
  cell (board g) r1 c1 = Some piece -> kind piece = Pawn ->
  c2 <> c1 -> cell (board g) r2 c2 = None ->
  en_passant_target g = Some (r2, c2)
  /\ r2 = r1 + direction (current_player g)
  /\ (c2 = c1 - 1 \/ c2 = c1 + 1)
  /\ (exists p, cell (board g) r1 c2 = Some p
                /\ kind p = Pawn /\ color p = opponent (current_player g))
  /\ cell (board g') r1 c1 = None
  /\ cell (board g') r2 c2 = Some (mark_moved piece)
  /\ cell (board g') r1 c2 = None
  /\ (forall r c,
        in_bounds r c = true ->
        (r, c) <> (r1, c1) -> (r, c) <> (r2, c2) -> (r, c) <> (r1, c2) ->
        cell (board g') r c = cell (board g) r c)
  /\ en_passant_target g' = None.
Proof.
  intros Hreach Hpm Hcell Hk Hc Hnone. pose proof (reachable_inv g Hreach) as Hinv.
  pose proof (proj1 Hinv) as Hwf.
  destruct (process_move_moved g _ _ promo g' Hwf Hpm)
    as (piece' & l & _ & Hl & Hin & H1 & H2 & Hne & Hcell' & Hcol & Hmove
        & Hb & _ & _ & Hep).
  cbn [fst snd] in *. assert (piece' = piece) as -> by congruence.
  destruct (step_en_passant g Hinv piece r1 c1 r2 c2 H1 Hcol Hmove Hk Hc Hnone)
    as (Htarget & Hr2 & p & Hp & Hpk & Hpc).
  assert (Hfile : c2 = c1 - 1 \/ c2 = c1 + 1).
  { pose proof Hmove as Hm. unfold live_piece_moves in Hm. rewrite Hk in Hm.
    apply (pawn_moves_cases _ _ _ _ _ _ _ H1) in Hm.
    destruct Hm as [(_ & Hc' & _)|[(_ & Hc' & _)|(_ & Hc' & _)]];
      [contradiction|contradiction|exact Hc']. }
  assert (Hrank : promotion_rank (color piece) r2 = false).
  { destruct Hinv as (_ & _ & _ & Hok & _). unfold en_passant_ok in Hok.
    rewrite Htarget in Hok. destruct Hok as (Hr & _). rewrite Hcol, Hr.
    destruct (current_player g); reflexivity. }
  assert (Hmp : moved_piece piece r2 promo = mark_moved piece).
  { unfold moved_piece. rewrite Hrank, andb_false_r. reflexivity. }
  assert (Hd : direction (color piece) = 1 \/ direction (color piece) = -1)
    by (destruct (color piece); cbn; lia).
  assert (Hcond : kind_eqb (kind piece) Pawn && (Z.abs (c2 - c1) =? 1)
                  && is_none (cell (board g) r2 c2) = true).
  { rewrite Hk, Hnone. cbn [kind_eqb is_none andb]. rewrite andb_true_r.
    apply Z.eqb_eq. lia. }
  assert (Helse : forall r c,
            in_bounds r c = true -> (r, c) <> (r1, c1) -> (r, c) <> (r2, c2) ->
            cell (board g') r c
            = if sq_eqb (r, c) (r1, c2) then None else cell (board g) r c).
  { intros r c Hrc Hn1 Hn2. rewrite Hb.
    rewrite (move_grid_elsewhere (board g) piece r1 c1 r2 c2 promo
               (proj1 Hwf) H1 H2 r c Hrc Hn1 Hn2).
    unfold moved_elsewhere. rewrite Hcond, Hk. reflexivity. }
  rewrite <- Hcol.
  split; [exact Htarget|]. split; [exact Hr2|]. split; [exact Hfile|].
  split; [exists p; auto|].
  split; [rewrite Hb; apply move_grid_from; assumption || apply Hwf|].
  split; [rewrite <- Hmp, Hb; apply move_grid_to; assumption || apply Hwf|].
  split.
  { rewrite Helse.
    - replace (sq_eqb (r1, c2) (r1, c2)) with true;
        [reflexivity|symmetry; apply sq_eqb_eq; reflexivity].
    - apply (capture_square_in_bounds r1 c1 r2 c2 H1 H2).
    - intros [= E]. contradiction.
    - intros [= E]. lia. }
  split.
  { intros r c Hrc Hn1 Hn2 Hn3. rewrite Helse by assumption.
    replace (sq_eqb (r, c) (r1, c2)) with false; [reflexivity|].
    symmetry. apply not_true_is_false. rewrite sq_eqb_eq. exact Hn3. }
  rewrite Hep. replace (Z.abs (r1 - r2) =? 2) with false;
    [rewrite andb_false_r; reflexivity|].
  symmetry. apply Z.eqb_neq. lia.
Qed.

Lemma en_passant_played_witness :
  en_passant_target before_en_passant = Some (2, 3)
  /\ 2 = 3 + direction (current_player before_en_passant)
  /\ (3 = 4 - 1 \/ 3 = 4 + 1)
  /\ (exists p, cell (board before_en_passant) 3 3 = Some p
                /\ kind p = Pawn
                /\ color p = opponent (current_player before_en_passant))
  /\ cell (board after_en_passant) 3 4 = None
  /\ cell (board after_en_passant) 2 3 = Some (mark_moved (mkPiece Pawn W true))
  /\ cell (board after_en_passant) 3 3 = None
  /\ (forall r c,
        in_bounds r c = true ->
        (r, c) <> (3, 4) -> (r, c) <> (2, 3) -> (r, c) <> (3, 3) ->
        cell (board after_en_passant) r c = cell (board before_en_passant) r c)
  /\ en_passant_target after_en_passant = None.
Proof.
  apply (en_passant_played before_en_passant 3 4 2 3 None after_en_passant
           (mkPiece Pawn W true)).
  - apply (replay_reachable (firstn 4 en_passant_calls)). vm_compute. reflexivity.
  - vm_compute. reflexivity.
  - vm_compute. reflexivity.
  - reflexivity.
  - lia.
  - vm_compute. reflexivity.
Defined.

(** ** Legality is safety of the King after the move itself *)

Lemma filter_legal_complete (g : ChessGame) (clr : Color) (raw l : list Move)
    (from_sq to_sq : Square) (sim : Grid) :
  filter_legal g clr raw = Some l ->
  In (from_sq, to_sq) raw ->
  simulate_move g clr from_sq to_sq = Some (SimBoard sim) ->
  is_in_check clr sim = false ->
  In (from_sq, to_sq) l.
Proof.
  intros Hl Hin Hsim Hchk. revert l Hl.
  induction raw as [|[f t] raw IH]; intros l Hl; [destruct Hin|].
  cbn [filter_legal] in Hl.
  destruct (simulate_move g clr f t) as [o|] eqn:Eo; cbn [mbind option_bind] in Hl;
    [|discriminate].
  destruct (filter_legal g clr raw) as [rest|]; cbn [mbind option_bind] in Hl;
    [|discriminate].
  destruct Hin as [[= -> ->]|Hin].
  - rewrite Hsim in Eo. injection Eo as <-. rewrite Hchk in Hl.
    cbn [negb] in Hl. injection Hl as <-. left. reflexivity.
  - specialize (IH Hin rest eq_refl).
    destruct o as [|sim']; [injection Hl as <-; exact IH|].
    destruct (negb (is_in_check clr sim')); injection Hl as <-;
      [right; exact IH|exact IH].
Qed.

(** The simulation of a move between two squares of the board goes through
    unless it is a castling move that [can_castle] refuses. *)
Lemma simulate_move_board (g : ChessGame) (clr : Color) (piece : Piece)
    (r1 c1 r2 c2 : Z) :
  grid_8x8 (board g) -> in_bounds r1 c1 = true -> in_bounds r2 c2 = true ->
  cell (board g) r1 c1 = Some piece ->
  (kind piece = King -> Z.abs (c2 - c1) = 2 ->
   can_castle g clr (if c2 >? c1 then SideK else SideQ) (board g) true = true) ->
  exists sim, simulate_move g clr (r1, c1) (r2, c2) = Some (SimBoard sim).
Proof.
  intros Hb H1 H2 Hcell Hcastle.
  destruct (simulate_move_in_bounds g clr piece r1 c1 r2 c2 Hb H1 H2 Hcell)
    as ([|sim] & Ho); [|exists sim; exact Ho].
  exfalso. revert Ho. unfold simulate_move, sim_castling. cbn [fst snd].
  rewrite (getitem2_in_bounds _ Hb _ _ H1), Hcell. cbn [mbind option_bind].
  destruct (kind_eqb (kind piece) King && (Z.abs (c2 - c1) =? 2)) eqn:E.
  - apply andb_true_iff in E. destruct E as [Hk Habs].
    apply kind_eqb_eq in Hk. apply Z.eqb_eq in Habs.
    rewrite (Hcastle Hk Habs). cbn [negb].
    destruct (castling_squares_in_bounds r1 c1 r2 c2 H1 H2 Habs) as [Hrook Hnew].
    repeat grid_step.
    destruct (sim_en_passant _ _ _ _ _); cbn [mbind option_bind]; [|discriminate].
    destruct (setitem2 _ _ _ _); cbn [mbind option_bind]; [|discriminate].
    destruct (setitem2 _ _ _ _); cbn [mbind option_bind]; discriminate.
  - cbn [mbind option_bind].
    destruct (sim_en_passant _ _ _ _ _); cbn [mbind option_bind]; [|discriminate].
    destruct (setitem2 _ _ _ _); cbn [mbind option_bind]; [|discriminate].
    destruct (setitem2 _ _ _ _); cbn [mbind option_bind]; discriminate.
Qed.

(** X17: on a reachable game the list [get_all_legal_moves_for_player]
    returns holds exactly the pseudo-legal moves of
    [get_all_possible_moves_for_player] for which [can_castle] holds in its
    strict mode, if a King moves two files, and after which, played with
    [Board.make_move] (with any promotion choice), the mover is not in
    check. *)
Theorem legal_moves_iff (g : ChessGame) (clr : Color) (l : list Move)
    (r1 c1 r2 c2 : Z) (promo : option string) :
  reachable g ->
  get_all_legal_moves_for_player g clr = Some l ->
  In ((r1, c1), (r2, c2)) l
  <-> In ((r1, c1), (r2, c2)) (get_all_possible_moves_for_player g clr None true)
      /\ (forall piece, cell (board g) r1 c1 = Some piece -> kind piece = King ->
            Z.abs (c2 - c1) = 2 ->
            can_castle g clr (if c2 >? c1 then SideK else SideQ) (board g) true
            = true)
      /\ exists b' out,
           make_move (board g) (r1, c1) (r2, c2) promo = Some (b', out)
           /\ is_in_check clr b' = false.
Proof.
  intros Hreach Hl. pose proof (reachable_wf g Hreach) as Hwf. split.
  - intros Hin. destruct (filter_legal_In _ _ _ _ _ _ Hl Hin) as (Hraw & sim & Hsim & _).
    split; [exact Hraw|]. split.
    + intros piece Hcell Hk Habs.
      apply possible_moves_In in Hraw. destruct Hraw as (_ & H1 & _).
      exact (simulate_castling_checked g clr piece r1 c1 r2 c2 sim (proj1 Hwf)
               H1 Hcell Hk Habs Hsim).
    + exact (legal_move_played_keeps_king_safe g clr l _ _ promo Hreach Hl Hin).
  - intros (Hraw & Hcastle & b' & out & Hmk & Hchk).
    pose proof Hraw as Hp. apply possible_moves_In in Hp. cbn [fst snd] in Hp.
    destruct Hp as (piece & H1 & Hcell & Hcol & Hmove).
    pose proof (live_moves_in_bounds g Hwf piece r1 c1 H1 Hcell _ Hmove) as H2.
    pose proof (live_moves_distinct g Hwf piece r1 c1 H1 Hcell _ Hmove) as Hne.
    cbn [fst snd] in H2.
    destruct (simulate_move_board g clr piece r1 c1 r2 c2 (proj1 Hwf) H1 H2 Hcell
                (Hcastle piece Hcell)) as (sim & Hsim).
    apply (filter_legal_complete g clr _ l (r1, c1) (r2, c2) sim Hl Hraw Hsim).
    rewrite (simulate_move_eq (board g) piece r1 c1 r2 c2 (proj1 Hwf) H1 H2 Hcell
               g clr sim eq_refl Hsim).
    rewrite (make_move_eq (board g) piece r1 c1 r2 c2 (proj1 Hwf) H1 H2 Hcell
               promo b' _ Hmk) in Hchk.
    rewrite <- Hchk. rewrite <- Hcol. apply is_in_check_alike.
    apply sim_grid_alike; try assumption; [apply Hwf|].
    intros Hk Hc Hnone. unfold live_piece_moves in Hmove. rewrite Hk in Hmove.
    exact (pawn_diagonal_empty _ _ _ _ _ _ _ Hmove Hc Hnone).
Qed.

Lemma legal_moves_iff_witness :
  In ((1, 4), (3, 4)) (default [] (get_all_legal_moves_for_player after_e4 B))
  <-> In ((1, 4), (3, 4)) (get_all_possible_moves_for_player after_e4 B None true)
      /\ (forall piece, cell (board after_e4) 1 4 = Some piece -> kind piece = King ->
            Z.abs (4 - 4) = 2 ->
            can_castle after_e4 B (if 4 >? 4 then SideK else SideQ) (board after_e4)
              true = true)
      /\ exists b' out,
           make_move (board after_e4) (1, 4) (3, 4) None = Some (b', out)
           /\ is_in_check B b' = false.
Proof.
  apply (legal_moves_iff after_e4 B _ 1 4 3 4 None).
  - apply (replay_reachable [((6, 4), (4, 4), None)]). vm_compute. reflexivity.
  - vm_compute. reflexivity.
Defined.

(** ** The moves of a pawn *)

(** X18: for a pawn of the live grid, [get_all_possible_moves_for_player]
    offers exactly: the square one rank ahead if it is on the board and
    empty; the square two ranks ahead if the pawn has not moved and both
    squares ahead are empty; and each of the two squares diagonally ahead
    that is on the board and holds a piece of the other colour or is the
    en-passant target of the game. *)
Theorem pawn_pseudo_moves (g : ChessGame) (piece : Piece) (r c rt ct : Z) :
  in_bounds r c = true -> cell (board g) r c = Some piece -> kind piece = Pawn ->
  In ((r, c), (rt, ct)) (get_all_possible_moves_for_player g (color piece) None true)
  <-> (rt = r + direction (color piece) /\ ct = c /\ 0 <= rt <= 7
       /\ cell (board g) rt ct = None)
      \/ (rt = r + 2 * direction (color piece) /\ ct = c /\ 0 <= rt <= 7
          /\ has_moved piece = false
          /\ cell (board g) (r + direction (color piece)) c = None
          /\ cell (board g) rt ct = None)
      \/ (rt = r + direction (color piece) /\ (ct = c - 1 \/ ct = c + 1)
          /\ in_bounds rt ct = true
          /\ ((exists q, cell (board g) rt ct = Some q /\ color q <> color piece)
              \/ en_passant_target g = Some (rt, ct))).
Proof.
  intros Hb Hcell Hk.
  rewrite <- (pawn_moves_cases piece r c (board g) (en_passant_target g) rt ct Hb).
  rewrite possible_moves_In. cbn [fst snd]. unfold live_piece_moves. split.
  - intros (piece' & _ & Hcell' & _ & Hm).
    assert (piece' = piece) as -> by congruence. rewrite Hk in Hm. exact Hm.
  - intros Hm. exists piece. rewrite Hk. auto.
Qed.

Lemma pawn_pseudo_moves_witness :
  In ((6, 4), (4, 4))
    (get_all_possible_moves_for_player new_game (color (new_piece Pawn W)) None true)
  <-> (4 = 6 + direction (color (new_piece Pawn W)) /\ 4 = 4 /\ 0 <= 4 <= 7
       /\ cell (board new_game) 4 4 = None)
      \/ (4 = 6 + 2 * direction (color (new_piece Pawn W)) /\ 4 = 4 /\ 0 <= 4 <= 7
          /\ has_moved (new_piece Pawn W) = false
          /\ cell (board new_game) (6 + direction (color (new_piece Pawn W))) 4 = None
          /\ cell (board new_game) 4 4 = None)
      \/ (4 = 6 + direction (color (new_piece Pawn W)) /\ (4 = 4 - 1 \/ 4 = 4 + 1)
          /\ in_bounds 4 4 = true
          /\ ((exists q, cell (board new_game) 4 4 = Some q
                         /\ color q <> color (new_piece Pawn W))
              \/ en_passant_target new_game = Some (4, 4))).
Proof.
  apply (pawn_pseudo_moves new_game (new_piece Pawn W) 6 4 4 4); reflexivity.
Defined.

(** ** Reading the piece placement of a FEN back *)

Lemma expand_rank_append (a b : string) :
  expand_rank (String.append a b) = expand_rank a ++ expand_rank b.
Proof.
  induction a as [|x a IH]; [reflexivity|].
  change (String.append (String x a) b) with (String x (String.append a b)).
  cbn [expand_rank]. rewrite IH, app_assoc. reflexivity.
Qed.

Lemma expand_rank_count (k : Z) :
  1 <= k <= 8 -> expand_rank (str_of_Z k) = repeat None (Z.to_nat k).
Proof.
  intros Hk.
  assert (H : k = 1 \/ k = 2 \/ k = 3 \/ k = 4 \/ k = 5 \/ k = 6 \/ k = 7 \/ k = 8)
    by lia.
  repeat (destruct H as [->|H]; [vm_compute; reflexivity|]).
  subst k. vm_compute. reflexivity.
Qed.

Lemma expand_rank_symbol (p : Piece) :
  expand_rank (String (symbol p) EmptyString) = [Some (symbol p)].
Proof. destruct p as [[] [] m]; vm_compute; reflexivity. Qed.

(** The symbol of a piece tells its kind and its colour. *)
Lemma symbol_inj (p q : Piece) :
  symbol p = symbol q -> kind p = kind q /\ color p = color q.
Proof.
  destruct p as [[] [] m], q as [[] [] m']; vm_compute; intros H;
    first [split; reflexivity | discriminate H].
Qed.

Lemma fen_rank_expand (b : Grid) (r : Z) (cols : list Z) (k : Z) (acc : string) :
  0 <= k -> k + Z.of_nat (length cols) <= 8 ->
  expand_rank (fen_rank b r cols k acc)
  = expand_rank acc ++ repeat None (Z.to_nat k)
    ++ map (fun c => symbol <$> cell b r c) cols.
Proof.
  revert k acc. induction cols as [|c cols IH]; intros k acc Hk Hlen;
    cbn [fen_rank map length] in *.
  - rewrite app_nil_r. destruct (Z.gtb_spec k 0).
    + rewrite expand_rank_append, expand_rank_count by lia. reflexivity.
    + replace k with 0 by lia. cbn [Z.to_nat repeat]. rewrite app_nil_r. reflexivity.
  - destruct (cell b r c) as [piece|]; cbn [fmap option_fmap option_map].
    + rewrite IH by lia. cbn [Z.to_nat repeat app].
      rewrite expand_rank_append, expand_rank_symbol.
      destruct (Z.gtb_spec k 0).
      * rewrite expand_rank_append, expand_rank_count by lia.
        rewrite <- !app_assoc. reflexivity.
      * replace k with 0 by lia. cbn [Z.to_nat repeat app].
        rewrite <- !app_assoc. reflexivity.
    + rewrite IH by lia. f_equal.
      replace (Z.to_nat (k + 1)) with (S (Z.to_nat k)) by lia.
      cbn [repeat]. rewrite repeat_cons, <- app_assoc. reflexivity.
Qed.

(** X19: the rank string that [get_fen] builds for a row reads back as the
    row: expanding every digit into that many empty squares and taking every
    other character as a piece gives, square by square, the symbols of the
    pieces of the row and the gaps between them. *)
Theorem fen_rank_decodes (b : Grid) (r : Z) :
  expand_rank (fen_rank b r range8 0 EmptyString)
  = map (fun c => symbol <$> cell b r c) range8.
Proof. rewrite fen_rank_expand by (cbn; lia). reflexivity. Qed.

(** X20: two grids for which [get_fen] builds the same rank string for a row
    agree on that row, square by square, in which squares are empty and in
    the kind and the colour of the piece on every other square. *)
Theorem fen_rank_injective (b1 b2 : Grid) (r c : Z) :
  fen_rank b1 r range8 0 EmptyString = fen_rank b2 r range8 0 EmptyString ->
  0 <= c <= 7 ->
  match cell b1 r c, cell b2 r c with
  | None, None => True
  | Some p, Some q => kind p = kind q /\ color p = color q
  | _, _ => False
  end.
Proof.
  intros Hfen Hc. apply (f_equal expand_rank) in Hfen.
  rewrite !fen_rank_expand in Hfen by (cbn; lia).
  cbn [Z.to_nat repeat expand_rank app] in Hfen.
  assert (Hin : In c range8) by (apply In_range8; exact Hc).
  assert (H : symbol <$> cell b1 r c = symbol <$> cell b2 r c).
  { revert Hfen Hin. generalize range8. intros cols.
    induction cols as [|x cols IH]; cbn [map]; intros Heq Hin; [destruct Hin|].
    injection Heq as Hx Hrest. destruct Hin as [->|Hin]; auto. }
  destruct (cell b1 r c) as [p|], (cell b2 r c) as [q|];
    cbn [fmap option_fmap option_map] in H; try discriminate; [|exact I].
  injection H as H. exact (symbol_inj p q H).
Qed.

Lemma fen_rank_injective_witness :
  match cell (board after_e4) 0 4, cell (board new_game) 0 4 with
  | None, None => True
  | Some p, Some q => kind p = kind q /\ color p = color q
  | _, _ => False
  end.
Proof.
  apply (fen_rank_injective (board after_e4) (board new_game) 0 4).
  - vm_compute. reflexivity.
  - lia.
Defined.

(** ** Clicks on the board *)

(** X21: [get_square_from_mouse] returns a square exactly for the pixels of
    the 640 by 640 board, and the square it returns is the square of the
    board whose 80 by 80 cell holds the pixel; for every other position,
    negative coordinates and the panel to the right included, it returns
    [None].  So a square that it returns is always on the board. *)
Theorem get_square_from_mouse_iff (x y r c : Z) :
  get_square_from_mouse (x, y) = Some (r, c)
  <-> in_bounds r c = true
      /\ SQUARE_SIZE * r <= y < SQUARE_SIZE * (r + 1)
      /\ SQUARE_SIZE * c <= x < SQUARE_SIZE * (c + 1).
Proof.
  unfold get_square_from_mouse, BOARD_SIZE, SQUARE_SIZE. rewrite in_bounds_true.
  pose proof (Z.div_mod y 80 ltac:(lia)) as Hy.
  pose proof (Z.mod_pos_bound y 80 ltac:(lia)) as Hy'.
  pose proof (Z.div_mod x 80 ltac:(lia)) as Hx.
  pose proof (Z.mod_pos_bound x 80 ltac:(lia)) as Hx'.
  split.
  - destruct (Z.geb_spec y (8 * 80)); [discriminate|].
    destruct ((0 <=? y / 80) && (y / 80 <? 8) && (0 <=? x / 80) && (x / 80 <? 8))
      eqn:E; [|discriminate].
    rewrite !andb_true_iff, !Z.leb_le, !Z.ltb_lt in E.
    intros [= <- <-]. lia.
  - intros (Hb & Hr & Hc).
    assert (y / 80 = r) as -> by lia.
    assert (x / 80 = c) as -> by lia.
    destruct (Z.geb_spec y (8 * 80)); [lia|].
    replace ((0 <=? r) && (r <? 8) && (0 <=? c) && (c <? 8)) with true; [reflexivity|].
    symmetry. rewrite !andb_true_iff, !Z.leb_le, !Z.ltb_lt. lia.
Qed.

(** ** The game is over exactly when there is no legal move *)

Lemma winner_color_map_name (c : Color) :
  winner_color_map c = color_name (opponent c).
Proof. destruct c; reflexivity. Qed.

(** X22: on every reachable game [get_all_legal_moves_for_player] returns a
    list for the player to move; [game_over_message] is [None] exactly when
    that list is not empty, and when the list is empty the message is
    "Checkmate! <other player> wins." if the player to move is in check and
    "Stalemate! It's a draw." if not. *)
Theorem reachable_game_over (g : ChessGame) :
  reachable g ->
  exists l,
    get_all_legal_moves_for_player g (current_player g) = Some l
    /\ match game_over_message g with
       | None => l <> []
       | Some text =>
           l = []
           /\ text = (if is_in_check (current_player g) (board g)
                      then String.append "Checkmate! "
                             (String.append (color_name (opponent (current_player g)))
                                " wins.")
                      else "Stalemate! It's a draw.")
       end.
Proof.
  induction 1 as [|g from_sq to_sq promo res g' Hreach IH Hpm].
  - eexists. split; [vm_compute; reflexivity|]. cbn [game_over_message new_game].
    discriminate.
  - destruct IH as (l & Hl & Hover).
    assert (Hstatus : forall s,
              exists l0,
                get_all_legal_moves_for_player (set_status g s)
                  (current_player (set_status g s)) = Some l0
                /\ match game_over_message (set_status g s) with
                   | None => l0 <> []
                   | Some text =>
                       l0 = []
                       /\ text
                          = (if is_in_check (current_player (set_status g s))
                                  (board (set_status g s))
                             then String.append "Checkmate! "
                                    (String.append
                                       (color_name
                                          (opponent (current_player (set_status g s))))
                                       " wins.")
                             else "Stalemate! It's a draw.")
                   end).
    { intros s. exists l. split; [|exact Hover].
      rewrite (legal_moves_same_rules _ _ (same_rules_set_status g s)). exact Hl. }
    apply process_move_outcome in Hpm.
    destruct Hpm as [| | | |piece l0 g' Hterm Hp Hc Hl0 Hin Hpr Happly];
      try apply Hstatus.
    { exists l. auto. }
    assert (Hnone : game_over_message g = None).
    { destruct (game_over_message g) as [text|]; [|reflexivity].
      destruct Hover as [_ ->]. exfalso. revert Hterm.
      destruct (is_in_check _ _); [destruct (current_player g)|]; discriminate. }
    destruct from_sq as [r1 c1], to_sq as [r2 c2]. unfold apply_move in Happly.
    destruct (make_move _ _ _ _) as [[b' [[cap ipm] icap]]|];
      cbn [mbind option_bind] in Happly; [|discriminate].
    destruct (get_piece b' r2 c2) as [pm|]; cbn [mbind option_bind] in Happly;
      [|discriminate].
    apply evaluate_status_inv in Happly.
    destruct Happly as (l' & Hl' & _ & Hnil & Hcons).
    cbn [game_over_message set_status] in Hcons.
    exists l'. split; [exact Hl'|].
    destruct l' as [|m l'].
    + destruct (Hnil eq_refl) as [-> ->]. split; [reflexivity|].
      rewrite winner_color_map_name. reflexivity.
    + destruct Hcons as [-> _]; [discriminate|]. rewrite Hnone. discriminate.
Qed.

Lemma reachable_game_over_witness :
  exists l,
    get_all_legal_moves_for_player fools_mate (current_player fools_mate) = Some l
    /\ match game_over_message fools_mate with
       | None => l <> []
       | Some text =>
           l = []
           /\ text = (if is_in_check (current_player fools_mate) (board fools_mate)
                      then String.append "Checkmate! "
                             (String.append
                                (color_name (opponent (current_player fools_mate)))
                                " wins.")
                      else "Stalemate! It's a draw.")
       end.
Proof.
  apply (reachable_game_over fools_mate).
  apply (replay_reachable fools_mate_calls). vm_compute. reflexivity.
Defined.

(** ** Unmoved pieces and pawns *)

(** X23: on every reachable game the grid has eight rows of eight cells, and
    a piece whose [has_moved] flag is unset stands on the square where
    [setup_pieces] put a piece of its kind and colour. *)
Theorem reachable_unmoved_pieces (g : ChessGame) :
  reachable g ->
  length (board g) = 8%nat
  /\ Forall (fun row => length row = 8%nat) (board g)
  /\ forall r c piece,
       in_bounds r c = true -> cell (board g) r c = Some piece ->
       has_moved piece = false ->
       cell initial_grid r c = Some piece.
Proof.
  intros Hreach. destruct (reachable_wf g Hreach) as [[Hlen Hrows] Hhome].
  split; [exact Hlen|]. split; [exact Hrows|].
  intros r c piece Hb. apply in_bounds_true in Hb. apply Hhome; tauto.
Qed.

Lemma reachable_unmoved_pieces_witness :
  length (board after_e4) = 8%nat
  /\ Forall (fun row => length row = 8%nat) (board after_e4)
  /\ forall r c piece,
       in_bounds r c = true -> cell (board after_e4) r c = Some piece ->
       has_moved piece = false ->
       cell initial_grid r c = Some piece.
Proof.
  apply (reachable_unmoved_pieces after_e4).
  apply (replay_reachable [((6, 4), (4, 4), None)]). vm_compute. reflexivity.
Defined.

(** X24: on every reachable game no pawn stands on the first or the last
    row of the board: a pawn that reaches the far row is replaced within the
    same call. *)
Theorem reachable_pawn_rows (g : ChessGame) (r c : Z) (p : Piece) :
  reachable g ->
  in_bounds r c = true -> cell (board g) r c = Some p -> kind p = Pawn ->
  1 <= r <= 6.
Proof.
  intros Hreach. revert r c p.
  induction Hreach as [|g from_sq to_sq promo res g' Hreach IH Hpm];
    intros r c p Hrc Hp Hk.
  - apply in_bounds_true in Hrc.
    rewrite (initial_pawn_rank r c p) by (cbn [board new_game] in Hp; tauto).
    destruct (color p); lia.
  - pose proof Hpm as Hout. apply process_move_outcome in Hout.
    destruct Hout as [| | | |piece0 l g' Hover Hp0 Hc0 Hl Hin Hpr Happly];
      try exact (IH r c p Hrc Hp Hk).
    pose proof (reachable_wf g Hreach) as Hwf.
    destruct (process_move_moved g _ _ promo g' Hwf Hpm)
      as (piece & l' & _ & _ & _ & H1 & H2 & Hne & Hcell & _ & Hmove & Hb & _).
    destruct from_sq as [r1 c1], to_sq as [r2 c2]. cbn [fst snd] in *.
    rewrite Hb in Hp.
    destruct (sq_eqb (r, c) (r2, c2)) eqn:E2.
    { apply sq_eqb_eq in E2. injection E2 as -> ->.
      rewrite (move_grid_to _ _ _ _ _ _ promo (proj1 Hwf) H1 H2 Hne) in Hp.
      injection Hp as <-. destruct (moved_piece_pawn _ _ _ Hk) as (Hpk & Hrank & _).
      pose proof (IH r1 c1 piece H1 Hcell Hpk) as Hr1.
      unfold live_piece_moves in Hmove. rewrite Hpk in Hmove.
      destruct (pawn_moves_In _ _ _ _ _ _ _ H1 Hmove) as [Hb2 Hshape].
      apply in_bounds_true in Hb2. revert Hrank Hshape.
      destruct (color piece); cbn [promotion_rank direction];
        rewrite Z.eqb_neq; lia. }
    destruct (sq_eqb (r, c) (r1, c1)) eqn:E1.
    { apply sq_eqb_eq in E1. injection E1 as -> ->.
      rewrite (move_grid_from _ _ _ _ _ _ promo (proj1 Hwf) H1 H2 Hne) in Hp.
      discriminate. }
    rewrite (move_grid_elsewhere _ _ _ _ _ _ promo (proj1 Hwf) H1 H2) in Hp;
      [|exact Hrc|rewrite <- sq_eqb_eq; congruence|rewrite <- sq_eqb_eq; congruence].
    unfold moved_elsewhere in Hp.
    destruct (kind_eqb (kind piece) King && (Z.abs (c2 - c1) =? 2)) eqn:Ecastle.
    + apply andb_true_iff in Ecastle. destruct Ecastle as [_ Habs].
      apply Z.eqb_eq in Habs.
      destruct (castling_squares_in_bounds r1 c1 r2 c2 H1 H2 Habs) as [Hrook _].
      destruct (sq_eqb (r, c) (r1, if c2 <? c1 then 0 else 7)); [discriminate|].
      destruct (sq_eqb (r, c) (r1, c1 + (if c2 >? c1 then 1 else -1))) eqn:E3;
        [|exact (IH r c p Hrc Hp Hk)].
      apply sq_eqb_eq in E3. injection E3 as -> _.
      destruct (cell (board g) r1 (if c2 <? c1 then 0 else 7)) as [rook|] eqn:Er;
        [|discriminate].
      injection Hp as <-. exact (IH _ _ rook Hrook Er Hk).
    + destruct (kind_eqb (kind piece) Pawn && (Z.abs (c2 - c1) =? 1)
                && is_none (cell (board g) r2 c2));
        [|exact (IH r c p Hrc Hp Hk)].
      destruct (sq_eqb (r, c) (r1, c2)); [discriminate|].
      exact (IH r c p Hrc Hp Hk).
Qed.

Lemma reachable_pawn_rows_witness : 1 <= 4 <= 6.
Proof.
  apply (reachable_pawn_rows after_e4 4 4 (mkPiece Pawn W true)).
  - apply (replay_reachable [((6, 4), (4, 4), None)]). vm_compute. reflexivity.
  - reflexivity.
  - vm_compute. reflexivity.
  - reflexivity.
Defined.

(** ** The moves of the other pieces *)

(** X25: for a piece of the live grid, [get_all_possible_moves_for_player]
    offers exactly: for a Rook, Bishop or Queen the squares along its lines
    up to and including the first occupied square, unless that square holds
    a piece of its own colour; for a Knight and a King the squares of the
    board one jump or one step away that hold no piece of its own colour;
    and for a King that has not moved also the square two files to the right
    or to the left when [can_castle] holds for that side with the attack
    test on the crossed squares switched off. *)
Theorem piece_pseudo_moves (g : ChessGame) (piece : Piece) (r c rt ct : Z) :
  in_bounds r c = true -> cell (board g) r c = Some piece ->
  In ((r, c), (rt, ct)) (get_all_possible_moves_for_player g (color piece) None true)
  <-> match kind piece with
      | Pawn => In (rt, ct) (pawn_moves piece r c (board g) (en_passant_target g))
      | Rook => slides_to (color piece) (board g) rook_directions r c rt ct
      | Bishop => slides_to (color piece) (board g) bishop_directions r c rt ct
      | Queen =>
          slides_to (color piece) (board g) rook_directions r c rt ct
          \/ slides_to (color piece) (board g) bishop_directions r c rt ct
      | Knight => jumps_to (color piece) (board g) knight_offsets r c rt ct
      | King =>
          jumps_to (color piece) (board g) king_offsets r c rt ct
          \/ (has_moved piece = false
              /\ ((rt = r /\ ct = c + 2
                   /\ can_castle g (color piece) SideK (board g) false = true)
                  \/ (rt = r /\ ct = c - 2
                      /\ can_castle g (color piece) SideQ (board g) false = true)))
      end.
Proof.
  intros Hb Hcell.
  assert (Hlive : In ((r, c), (rt, ct))
                    (get_all_possible_moves_for_player g (color piece) None true)
                  <-> In (rt, ct) (live_piece_moves g piece r c)).
  { rewrite possible_moves_In. cbn [fst snd]. split.
    - intros (piece' & _ & Hcell' & _ & Hm).
      assert (piece' = piece) as -> by congruence. exact Hm.
    - intros Hm. exists piece. auto. }
  rewrite Hlive. unfold live_piece_moves.
  destruct (kind piece) eqn:Hk; try reflexivity;
    try (rewrite get_possible_moves_shape, Hk; reflexivity).
  unfold king_moves. rewrite in_app_iff, step_moves_In.
  apply or_iff_compat_l.
  destruct (has_moved piece); cbn [negb].
  - split; [intros []|]. intros [H _]. discriminate.
  - rewrite in_app_iff. split.
    + intros [H|H]; (split; [reflexivity|]).
      * destruct (can_castle g (color piece) SideK (board g) false); [|destruct H].
        destruct H as [[= <- <-]|[]]. left. auto.
      * destruct (can_castle g (color piece) SideQ (board g) false); [|destruct H].
        destruct H as [[= <- <-]|[]]. right. auto.
    + intros [_ [(-> & -> & ->)|(-> & -> & ->)]]; [left|right]; left; reflexivity.
Qed.

Lemma piece_pseudo_moves_witness :
  In ((7, 1), (5, 2))
    (get_all_possible_moves_for_player new_game (color (new_piece Knight W)) None true)
  <-> match kind (new_piece Knight W) with
      | Pawn => In (5, 2) (pawn_moves (new_piece Knight W) 7 1 (board new_game)
                             (en_passant_target new_game))
      | Rook => slides_to (color (new_piece Knight W)) (board new_game)
                  rook_directions 7 1 5 2
      | Bishop => slides_to (color (new_piece Knight W)) (board new_game)
                    bishop_directions 7 1 5 2
      | Queen =>
          slides_to (color (new_piece Knight W)) (board new_game) rook_directions
            7 1 5 2
          \/ slides_to (color (new_piece Knight W)) (board new_game) bishop_directions
               7 1 5 2
      | Knight => jumps_to (color (new_piece Knight W)) (board new_game)
                    knight_offsets 7 1 5 2
      | King =>
          jumps_to (color (new_piece Knight W)) (board new_game) king_offsets 7 1 5 2
          \/ (has_moved (new_piece Knight W) = false
              /\ ((5 = 7 /\ 2 = 1 + 2
                   /\ can_castle new_game (color (new_piece Knight W)) SideK
                        (board new_game) false = true)
                  \/ (5 = 7 /\ 2 = 1 - 2
                      /\ can_castle new_game (color (new_piece Knight W)) SideQ
                           (board new_game) false = true)))
      end.
Proof.
  apply (piece_pseudo_moves new_game (new_piece Knight W) 7 1 5 2); reflexivity.
Defined.

(** ** Promotion *)

(** X26: when a call of [process_move] on a reachable game takes a pawn to
    its last rank and returns [True], a promotion choice was passed, and the
    destination holds a new piece of the pawn's colour, marked as moved: a
    Rook, Bishop or Knight if the upper-cased choice is "R", "B" or "N", and
    a Queen for every other choice. *)
Theorem promotion_played (g : ChessGame) (r1 c1 r2 c2 : Z) (promo : option string)
    (g' : ChessGame) (piece : Piece) :
  reachable g ->
  process_move g (r1, c1) (r2, c2) promo = Some (PyBool true, g') ->
  cell (board g) r1 c1 = Some piece -> kind piece = Pawn ->
  promotion_rank (color piece) r2 = true ->
  truthy promo = true
  /\ cell (board g') r2 c2
     = Some (mkPiece (if String.eqb (upper (py_str promo)) "R" then Rook
                      else if String.eqb (upper (py_str promo)) "B" then Bishop
                      else if String.eqb (upper (py_str promo)) "N" then Knight
                      else Queen) (color piece) true).
Proof.
  intros Hreach Hpm Hcell Hk Hrank. pose proof (reachable_wf g Hreach) as Hwf.
  destruct (process_move_moved g _ _ promo g' Hwf Hpm)
    as (piece' & l & _ & _ & _ & H1 & H2 & Hne & Hcell' & _ & _ & Hb & _).
  cbn [fst snd] in *. assert (piece' = piece) as -> by congruence. split.
  - apply process_move_outcome in Hpm.
    inversion Hpm as [| | | |piece0 l0 g1 Hover Hp0 Hc0 Hl Hin Hpr Happly Hres Hg].
    cbn [fst snd] in *. unfold get_piece in Hp0. rewrite H1 in Hp0.
    assert (piece0 = piece) as -> by congruence. auto.
  - rewrite Hb, (move_grid_to _ _ _ _ _ _ promo (proj1 Hwf) H1 H2 Hne).
    unfold moved_piece, promo_class. rewrite Hk, Hrank. cbn [kind_eqb andb].
    destruct (String.eqb (upper (py_str promo)) "Q") eqn:Eq; [|reflexivity].
    apply String.eqb_eq in Eq. rewrite Eq. reflexivity.
Qed.

Lemma promotion_played_witness :
  truthy (Some "n") = true
  /\ cell (board after_promotion) 0 0
     = Some (mkPiece (if String.eqb (upper (py_str (Some "n"))) "R" then Rook
                      else if String.eqb (upper (py_str (Some "n"))) "B" then Bishop
                      else if String.eqb (upper (py_str (Some "n"))) "N" then Knight
                      else Queen) (color (mkPiece Pawn W true)) true).
Proof.
  apply (promotion_played promotion_game 1 1 0 0 (Some "n") after_promotion
           (mkPiece Pawn W true)).
  - apply (replay_reachable promotion_calls). vm_compute. reflexivity.
  - vm_compute. reflexivity.
  - vm_compute. reflexivity.
  - reflexivity.
  - reflexivity.
Defined.

(** ** The simulation leaves every existing object alone *)

Module HeapFacts.
Import Heap.

Lemma bind_run {A B} (m : M A) (k : A -> M B) (w : World) :
  (m ≫= k) w = match m w with
               | (w1, Some a) => k a w1
               | (w1, None) => (w1, None)
               end.
Proof. reflexivity. Qed.

Lemma frame_refl (n : nat) (w : World) : frame n w w.
Proof. repeat split; auto. Qed.

Lemma frame_trans (n : nat) (w1 w2 w3 : World) :
  frame n w1 w2 -> frame n w2 w3 -> frame n w1 w3.
Proof.
  intros (Hb & Hf & Hp & Hg & Hl & Hr) (Hb' & Hf' & Hp' & Hg' & Hl' & Hr').
  repeat split; try congruence; auto. lia.
Qed.

Lemma frame_bind {A B} (n : nat) (m : M A) (k : A -> M B) (w : World) :
  frame n w (fst (m w)) ->
  (forall a, snd (m w) = Some a -> frame n (fst (m w)) (fst (k a (fst (m w))))) ->
  frame n w (fst ((m ≫= k) w)).
Proof.
  intros Hm Hk. rewrite bind_run. destruct (m w) as [w1 [a|]]; cbn [fst snd] in *.
  - eapply frame_trans; [exact Hm|]. apply Hk. reflexivity.
  - exact Hm.
Qed.

Lemma fresh_grid_frame (n grid : nat) (w w' : World) :
  frame n w w' -> fresh_grid n grid w -> fresh_grid n grid w'.
Proof.
  intros (_ & _ & _ & Hg & _) (row_refs & Hrr & Hfresh).
  exists row_refs. auto.
Qed.

(** *** Readers *)

Lemma reader_frame {A} (n : nat) (m : M A) (w : World) :
  reader m -> frame n w (fst (m w)).
Proof. intros H. rewrite H. apply frame_refl. Qed.

Lemma reader_bind {A B} (m : M A) (k : A -> M B) :
  reader m -> (forall a, reader (k a)) -> reader (m ≫= k).
Proof.
  intros Hm Hk w. rewrite bind_run. specialize (Hm w).
  destruct (m w) as [w1 [a|]]; cbn [fst] in *; subst; [apply Hk|reflexivity].
Qed.

Lemma reader_ret {A} (a : A) : reader (mret a : M A).
Proof. intros w. reflexivity. Qed.

Lemma reader_lift {A} (o : option A) : reader (lift o).
Proof. intros w. reflexivity. Qed.

Lemma reader_gets {A} (f : World -> A) : reader (gets f).
Proof. intros w. reflexivity. Qed.

Lemma reader_read_piece l : reader (read_piece l).
Proof. intros w. reflexivity. Qed.

Lemma reader_read_row l : reader (read_row l).
Proof. intros w. reflexivity. Qed.

Lemma reader_read_grid l : reader (read_grid l).
Proof. intros w. reflexivity. Qed.

Lemma reader_mapM {A B} (f : A -> M B) (l : list A) :
  (forall x, reader (f x)) -> reader (mapM f l).
Proof.
  intros Hf. induction l as [|x l IH]; cbn [mapM]; [apply reader_ret|].
  apply reader_bind; [apply Hf|]. intros y.
  apply reader_bind; [exact IH|]. intros ys. apply reader_ret.
Qed.

Create HintDb reader.

#[local] Hint Resolve reader_ret reader_lift reader_gets reader_read_piece
  reader_read_row reader_read_grid : reader.

Lemma reader_load_cell grid r c : reader (load_cell grid r c).
Proof. unfold load_cell. repeat (apply reader_bind; [|intros ?]); auto with reader. Qed.

Lemma reader_snapshot grid : reader (snapshot grid).
Proof.
  unfold snapshot. apply reader_bind; [auto with reader|]. intros row_refs.
  apply reader_mapM. intros row. apply reader_bind; [auto with reader|].
  intros cells. apply reader_mapM. intros [l|]; cbn [snapshot_cell];
    [|auto with reader].
  apply reader_bind; [auto with reader|]. intros p. auto with reader.
Qed.

Lemma reader_self_value : reader self_value.
Proof.
  unfold self_value. apply reader_bind; [auto with reader|]. intros live.
  apply reader_bind; [apply reader_snapshot|]. intros b.
  apply reader_bind; [auto with reader|]. intros fs. auto with reader.
Qed.

(** *** Allocation and assignment *)

Lemma frame_alloc_piece n p w : frame n w (fst (alloc_piece p w)).
Proof.
  repeat split; cbn; auto. intros l q H. apply lookup_app_l_Some. exact H.
Qed.

Lemma frame_alloc_row n cells w : frame n w (fst (alloc_row cells w)).
Proof.
  repeat split; cbn; auto.
  - rewrite length_app. lia.
  - intros l cs _ H. apply lookup_app_l_Some. exact H.
Qed.

Lemma frame_alloc_grid n row_refs w : frame n w (fst (alloc_grid row_refs w)).
Proof.
  repeat split; cbn; auto. intros l q H. apply lookup_app_l_Some. exact H.
Qed.

Lemma frame_write_row n l cells w :
  (n <= l)%nat -> frame n w (fst (write_row l cells w)).
Proof.
  intros Hl. unfold write_row.
  destruct (l <? length (rows w))%nat; [|apply frame_refl].
  repeat split; cbn; auto.
  - rewrite length_insert. lia.
  - intros l' cs Hl' H. rewrite list_lookup_insert_ne by lia. exact H.
Qed.

Lemma frame_store_cell n grid r c v w :
  fresh_grid n grid w -> frame n w (fst (store_cell grid r c v w)).
Proof.
  intros (row_refs & Hrr & Hfresh). unfold store_cell.
  apply frame_bind; [apply reader_frame; auto with reader|].
  intros rr Hrr'. cbn in Hrr'. rewrite Hrr in Hrr'. injection Hrr' as <-.
  cbn [read_grid fst].
  apply frame_bind; [apply reader_frame; auto with reader|].
  intros row Hrow. cbn in Hrow. cbn [lift fst].
  apply frame_bind; [apply reader_frame; auto with reader|].
  intros cells _. cbn [read_row fst].
  apply frame_bind; [apply reader_frame; auto with reader|].
  intros cells' _. cbn [lift fst].
  apply frame_write_row.
  unfold getitem in Hrow.
  destruct (py_index row_refs r) as [i|]; cbn [mbind option_bind] in Hrow;
    [|discriminate].
  rewrite List.Forall_forall in Hfresh. apply Hfresh.
  apply list_elem_of_In. eapply list_elem_of_lookup_2. exact Hrow.
Qed.
(** *** Computations that allocate but never overwrite *)

Lemma framer_reader {A} n (m : M A) : reader m -> framer n m.
Proof. intros H w. apply reader_frame. exact H. Qed.

Lemma framer_bind {A B} n (m : M A) (k : A -> M B) :
  framer n m -> (forall a, framer n (k a)) -> framer n (m ≫= k).
Proof. intros Hm Hk w. apply frame_bind; [apply Hm|]. intros a _. apply Hk. Qed.

Lemma framer_mapM {A B} n (f : A -> M B) (l : list A) :
  (forall x, framer n (f x)) -> framer n (mapM f l).
Proof.
  intros Hf. induction l as [|x l IH]; cbn [mapM].
  - apply framer_reader, reader_ret.
  - apply framer_bind; [apply Hf|]. intros y.
    apply framer_bind; [exact IH|]. intros ys. apply framer_reader, reader_ret.
Qed.

Lemma framer_copy_rows n grid : framer n (copy_rows grid).
Proof.
  unfold copy_rows. apply framer_bind.
  - apply framer_mapM. intros r. apply framer_bind.
    + apply framer_reader, reader_mapM. intros c. apply reader_load_cell.
    + intros cells w. apply frame_alloc_row.
  - intros row_refs w. apply frame_alloc_grid.
Qed.

Lemma framer_deepcopy_cell n memo c : framer n (deepcopy_cell memo c).
Proof.
  destruct c as [l|]; cbn [deepcopy_cell]; [|apply framer_reader, reader_ret].
  destruct (memo_find l memo); [apply framer_reader, reader_ret|].
  apply framer_bind; [apply framer_reader, reader_read_piece|]. intros p.
  apply framer_bind; [intros w; apply frame_alloc_piece|]. intros l'.
  apply framer_reader, reader_ret.
Qed.

Lemma framer_deepcopy_cells n memo cells : framer n (deepcopy_cells memo cells).
Proof.
  revert memo. induction cells as [|c cells IH]; intros memo; cbn [deepcopy_cells].
  - apply framer_reader, reader_ret.
  - apply framer_bind; [apply framer_deepcopy_cell|]. intros [memo1 c'].
    apply framer_bind; [apply IH|]. intros [memo2 rest'].
    apply framer_reader, reader_ret.
Qed.

Lemma framer_deepcopy_rows n memo row_refs :
  framer n (deepcopy_rows memo row_refs).
Proof.
  revert memo. induction row_refs as [|row rest IH]; intros memo;
    cbn [deepcopy_rows].
  - apply framer_reader, reader_ret.
  - apply framer_bind; [apply framer_reader, reader_read_row|]. intros cells.
    apply framer_bind; [apply framer_deepcopy_cells|]. intros [memo1 cells'].
    apply framer_bind; [intros w; apply frame_alloc_row|]. intros row'.
    apply framer_bind; [apply IH|]. intros [memo2 rest'].
    apply framer_reader, reader_ret.
Qed.

Lemma framer_deepcopy n grid : framer n (deepcopy grid).
Proof.
  unfold deepcopy. apply framer_bind; [apply framer_reader, reader_read_grid|].
  intros row_refs. apply framer_bind; [apply framer_deepcopy_rows|].
  intros [memo row_refs']. intros w. apply frame_alloc_grid.
Qed.

Lemma frame_length n w w' :
  frame n w w' -> (n <= length (rows w))%nat -> (n <= length (rows w'))%nat.
Proof. intros (_ & _ & _ & _ & H & _). lia. Qed.

(** The rows of a deep copy are new objects. *)
Lemma deepcopy_rows_fresh n memo row_refs w :
  (n <= length (rows w))%nat ->
  match snd (deepcopy_rows memo row_refs w) with
  | Some (_, row_refs') => Forall (fun l => (n <= l)%nat) row_refs'
  | None => True
  end.
Proof.
  revert memo w. induction row_refs as [|row rest IH]; intros memo w Hn;
    cbn [deepcopy_rows].
  - cbn. constructor.
  - rewrite bind_run. cbn [read_row].
    destruct (rows w !! row) as [cells|]; [|exact I].
    rewrite bind_run.
    pose proof (framer_deepcopy_cells n memo cells w) as Hf1.
    destruct (deepcopy_cells memo cells w) as [w1 [[memo1 cells']|]];
      cbn [fst snd] in *; [|exact I].
    pose proof (frame_length _ _ _ Hf1 Hn) as Hn1.
    rewrite bind_run. cbn [alloc_row].
    rewrite bind_run.
    set (w2 := mkWorld (pieces w1) (rows w1 ++ [cells']) (grids w1)
                 (board_ref w1) (fields w1)).
    assert (Hn2 : (n <= length (rows w2))%nat)
      by (unfold w2; cbn; rewrite length_app; lia).
    specialize (IH memo1 w2 Hn2).
    destruct (deepcopy_rows memo1 rest w2) as [w3 [[memo2 rest']|]];
      cbn [fst snd] in *; [|exact I].
    cbn. constructor; [exact Hn1|exact IH].
Qed.

Lemma deepcopy_fresh n grid w sim :
  (n <= length (rows w))%nat ->
  snd (deepcopy grid w) = Some sim ->
  fresh_grid n sim (fst (deepcopy grid w)).
Proof.
  intros Hn. unfold deepcopy. rewrite bind_run. cbn [read_grid].
  destruct (grids w !! grid) as [row_refs|]; [|discriminate].
  rewrite bind_run. pose proof (deepcopy_rows_fresh n [] row_refs w Hn) as Hfresh.
  destruct (deepcopy_rows [] row_refs w) as [w1 [[memo row_refs']|]];
    cbn [fst snd] in *; [|discriminate].
  cbn. intros [= <-]. exists row_refs'. split; [|exact Hfresh].
  apply list_lookup_middle. reflexivity.
Qed.

(** *** One simulated move *)

Lemma frame_sim_castling n clr from_sq to_sq piece sim w :
  fresh_grid n sim w ->
  frame n w (fst (sim_castling clr from_sq to_sq piece sim w)).
Proof.
  intros Hfresh. unfold sim_castling.
  destruct (kind_eqb (kind piece) King && _); [|apply frame_refl].
  apply frame_bind; [apply reader_frame, reader_self_value|]. intros g _.
  rewrite reader_self_value.
  destruct (negb (can_castle g clr _ (board g) true)); [apply frame_refl|].
  apply frame_bind; [apply reader_frame, reader_load_cell|]. intros sim_rook _.
  rewrite reader_load_cell.
  apply frame_bind; [apply frame_store_cell; exact Hfresh|]. intros [] _.
  apply frame_bind; [|intros [] _; apply frame_refl].
  apply frame_store_cell. eapply fresh_grid_frame; [|exact Hfresh].
  apply frame_store_cell. exact Hfresh.
Qed.

Lemma frame_sim_en_passant n from_sq to_sq piece sim w :
  fresh_grid n sim w ->
  frame n w (fst (sim_en_passant from_sq to_sq piece sim w)).
Proof.
  intros Hfresh. unfold sim_en_passant.
  apply frame_bind; [apply reader_frame, reader_gets|]. intros ep _.
  cbn [gets fst].
  destruct (kind_eqb (kind piece) Pawn && _ && _); [|apply frame_refl].
  apply frame_bind; [apply reader_frame, reader_load_cell|]. intros target _.
  rewrite reader_load_cell.
  destruct (is_none target); [|apply frame_refl].
  apply frame_store_cell. exact Hfresh.
Qed.

Lemma frame_simulate_move n clr from_sq to_sq w :
  (n <= length (rows w))%nat ->
  frame n w (fst (simulate_move clr from_sq to_sq w)).
Proof.
  intros Hn. unfold simulate_move.
  apply frame_bind; [apply reader_frame, reader_gets|]. intros live _.
  cbn [gets fst].
  apply frame_bind; [apply framer_copy_rows|]. intros orig _.
  pose proof (framer_copy_rows n live w) as Hf1.
  pose proof (frame_length _ _ _ Hf1 Hn) as Hn1.
  set (w1 := fst (copy_rows live w)) in *.
  apply frame_bind; [apply framer_deepcopy|]. intros sim Hsim.
  pose proof (deepcopy_fresh n orig w1 sim Hn1 Hsim) as Hfresh.
  set (w2 := fst (deepcopy orig w1)) in *.
  apply frame_bind; [apply reader_frame, reader_load_cell|]. intros p _.
  rewrite reader_load_cell. destruct p as [piece_ref|]; [|apply frame_refl].
  apply frame_bind; [apply reader_frame, reader_read_piece|]. intros piece _.
  cbn [read_piece fst].
  apply frame_bind; [apply frame_sim_castling; exact Hfresh|]. intros go_on _.
  pose proof (frame_sim_castling n clr from_sq to_sq piece sim w2 Hfresh) as Hf3.
  pose proof (fresh_grid_frame _ _ _ _ Hf3 Hfresh) as Hfresh3.
  set (w3 := fst (sim_castling clr from_sq to_sq piece sim w2)) in *.
  destruct (negb go_on); [apply frame_refl|].
  apply frame_bind; [apply frame_sim_en_passant; exact Hfresh3|]. intros [] _.
  pose proof (frame_sim_en_passant n from_sq to_sq piece sim w3 Hfresh3) as Hf4.
  pose proof (fresh_grid_frame _ _ _ _ Hf4 Hfresh3) as Hfresh4.
  set (w4 := fst (sim_en_passant from_sq to_sq piece sim w3)) in *.
  apply frame_bind; [apply frame_store_cell; exact Hfresh4|]. intros [] _.
  apply frame_bind; [|intros [] _; apply frame_refl].
  apply frame_store_cell. eapply fresh_grid_frame; [|exact Hfresh4].
  apply frame_store_cell. exact Hfresh4.
Qed.

Lemma frame_filter_legal n clr raw w :
  (n <= length (rows w))%nat ->
  frame n w (fst (filter_legal clr raw w)).
Proof.
  revert w. induction raw as [|[f t] raw IH]; intros w Hn; cbn [filter_legal].
  - apply frame_refl.
  - pose proof (frame_simulate_move n clr f t w Hn) as Hf1.
    pose proof (frame_length _ _ _ Hf1 Hn) as Hn1.
    apply frame_bind; [exact Hf1|]. intros o _.
    set (w1 := fst (simulate_move clr f t w)) in *.
    assert (Hkeep : reader (match o with
                            | Skipped => mret false
                            | Simulated sim =>
                                b ← snapshot sim; mret (negb (is_in_check clr b))
                            end : M bool)).
    { destruct o as [|sim]; [apply reader_ret|].
      apply reader_bind; [apply reader_snapshot|]. intros b. apply reader_ret. }
    apply frame_bind; [apply reader_frame; exact Hkeep|]. intros keep _.
    rewrite Hkeep.
    apply frame_bind; [apply IH; exact Hn1|]. intros rest _. apply frame_refl.
Qed.

Lemma frame_unchanged (w w' : World) :
  frame (length (rows w)) w w' -> unchanged w w'.
Proof.
  intros (Hb & Hf & Hp & Hg & _ & Hr). repeat split; auto.
  intros l cells H. apply Hr; [|exact H]. eapply lookup_lt_Some. exact H.
Qed.
(** *** What a reader sees does not change *)

Lemma mapM_stable {A B} (f : A -> M B) (l : list A) (w w' : World) :
  (forall x, reader (f x)) ->
  (forall x y, snd (f x w) = Some y -> snd (f x w') = Some y) ->
  forall ys, snd (mapM f l w) = Some ys -> snd (mapM f l w') = Some ys.
Proof.
  intros Hr Hf. induction l as [|x l IH]; intros ys; cbn [mapM].
  - auto.
  - rewrite !bind_run. pose proof (Hr x w) as E. pose proof (Hr x w') as E'.
    pose proof (Hf x) as Hx.
    destruct (f x w) as [w1 [y|]]; cbn [fst snd] in *; [|discriminate].
    subst w1. rewrite (surjective_pairing (f x w')), E', (Hx y eq_refl).
    rewrite !bind_run.
    pose proof (reader_mapM f l Hr w) as El.
    pose proof (reader_mapM f l Hr w') as El'.
    destruct (mapM f l w) as [w2 [zs|]]; cbn [fst snd] in *; [|discriminate].
    subst w2. rewrite (surjective_pairing (mapM f l w')), El', (IH zs eq_refl).
    auto.
Qed.

Lemma snapshot_cell_stable (w w' : World) (c : option nat) (v : option Piece) :
  unchanged w w' ->
  snd (snapshot_cell c w) = Some v -> snd (snapshot_cell c w') = Some v.
Proof.
  intros (_ & _ & Hp & _). destruct c as [l|]; cbn [snapshot_cell]; [|auto].
  rewrite !bind_run. cbn [read_piece].
  destruct (pieces w !! l) as [p|] eqn:E; [|discriminate].
  rewrite (Hp l p E). auto.
Qed.

Lemma reader_snapshot_cell c : reader (snapshot_cell c).
Proof.
  destruct c as [l|]; cbn [snapshot_cell]; [|apply reader_ret].
  apply reader_bind; [apply reader_read_piece|]. intros p. apply reader_ret.
Qed.

Lemma snapshot_stable (w w' : World) (grid : nat) (b : Grid) :
  unchanged w w' ->
  snd (snapshot grid w) = Some b -> snd (snapshot grid w') = Some b.
Proof.
  intros Hun. pose proof Hun as (_ & _ & _ & Hr & Hg).
  unfold snapshot. rewrite !bind_run. cbn [read_grid].
  destruct (grids w !! grid) as [row_refs|] eqn:E; [|discriminate].
  rewrite (Hg grid row_refs E). apply mapM_stable.
  - intros row. apply reader_bind; [apply reader_read_row|].
    intros cells. apply reader_mapM, reader_snapshot_cell.
  - intros row cells. rewrite !bind_run. cbn [read_row].
    destruct (rows w !! row) as [cs|] eqn:Erow; [|discriminate].
    rewrite (Hr row cs Erow). apply mapM_stable.
    + apply reader_snapshot_cell.
    + intros c v. apply snapshot_cell_stable. exact Hun.
Qed.

(** C10: a call of [get_all_legal_moves_for_player] leaves the game as it
    found it.  Whatever the world and the colour, and whether the call
    returns or raises, afterwards every piece object (kind, colour,
    [has_moved]), every row list and every list of rows that existed has
    the content it had, the game object refers to the same grid and has
    the same castling rights, en-passant target, side to move, clocks and
    messages; so the grid of pieces read through the game object is the
    same.  The moves are tried on rows that [copy.deepcopy] allocated. *)
Theorem legal_moves_leave_game_unchanged (w : World) (clr : Color) :
  let w' := fst (get_all_legal_moves_for_player clr w) in
  unchanged w w'
  /\ forall b, snd (snapshot (board_ref w) w) = Some b ->
               snd (snapshot (board_ref w') w') = Some b.
Proof.
  assert (Hun : unchanged w (fst (get_all_legal_moves_for_player clr w))).
  { apply frame_unchanged. unfold get_all_legal_moves_for_player.
    apply frame_bind; [apply reader_frame, reader_self_value|]. intros g _.
    rewrite reader_self_value. apply frame_filter_legal. lia. }
  split; [exact Hun|]. intros b Hb.
  destruct Hun as (Href & Hrest). rewrite Href.
  apply (snapshot_stable w); [|exact Hb]. split; [exact Href|exact Hrest].
Qed.

(** On the initial position the call over the store returns the twenty
    moves the value model computes, out of a world that has grown by the
    scratch copies only. *)
Lemma legal_moves_new_game :
  snd (get_all_legal_moves_for_player W (load_game new_game))
  = value_legal_moves new_game W
  /\ snd (snapshot (board_ref (load_game new_game)) (load_game new_game))
     = Some initial_grid.
Proof. split; vm_compute; reflexivity. Qed.
End HeapFacts.


(** ** The simulation over the store computes what the value model computes *)

Module HeapRefinement.
Import Heap HeapFacts.

Lemma run_reader {A} (m : M A) (w : World) :
  reader m -> m w = (w, snd (m w)).
Proof. intros H. rewrite (surjective_pairing (m w)), H. reflexivity. Qed.

(** *** Indexing related lists *)

Lemma py_index_length {A B} (l : list A) (k : list B) (i : Z) :
  length l = length k -> py_index l i = py_index k i.
Proof. intros H. unfold py_index. rewrite H. reflexivity. Qed.

Lemma getitem_Some {A} (l : list A) (i : Z) (x : A) :
  getitem l i = Some x -> exists n, py_index l i = Some n /\ l !! n = Some x.
Proof.
  unfold getitem. destruct (py_index l i) as [n|]; cbn [mbind option_bind];
    [|discriminate].
  intros H. exists n. auto.
Qed.

Lemma getitem_Forall2 {A B} (P : A -> B -> Prop) (l : list A) (k : list B) (i : Z) :
  Forall2 P l k ->
  match getitem l i, getitem k i with
  | Some x, Some y => P x y
  | None, None => True
  | _, _ => False
  end.
Proof.
  intros H. unfold getitem. rewrite (py_index_length l k i (Forall2_length _ _ _ H)).
  destruct (py_index k i) as [n|] eqn:E; cbn [mbind option_bind]; [|exact I].
  apply py_index_lt in E.
  destruct (lookup_lt_is_Some_2 k n E) as [y Hy].
  destruct (Forall2_lookup_r _ _ _ _ _ H Hy) as (x & Hx & HP).
  rewrite Hx, Hy. exact HP.
Qed.

Lemma setitem_Forall2 {A B} (P : A -> B -> Prop) (l : list A) (k : list B) (i : Z)
    (x : A) (y : B) :
  Forall2 P l k -> P x y ->
  match setitem l i x, setitem k i y with
  | Some l', Some k' => Forall2 P l' k'
  | None, None => True
  | _, _ => False
  end.
Proof.
  intros H HP. unfold setitem.
  rewrite (py_index_length l k i (Forall2_length _ _ _ H)).
  destruct (py_index k i) as [n|]; cbn [mbind option_bind]; [|exact I].
  apply Forall2_insert; assumption.
Qed.

(** *** Values are stable while objects keep their content *)

Lemma unchanged_refl (w : World) : unchanged w w.
Proof. repeat split; auto. Qed.

Lemma unchanged_trans (w1 w2 w3 : World) :
  unchanged w1 w2 -> unchanged w2 w3 -> unchanged w1 w3.
Proof.
  intros (Hb & Hf & Hp & Hr & Hg) (Hb' & Hf' & Hp' & Hr' & Hg').
  repeat split; try congruence; auto.
Qed.

Lemma cell_val_pieces (w w' : World) (c : option nat) (v : option Piece) :
  (forall l p, pieces w !! l = Some p -> pieces w' !! l = Some p) ->
  cell_val w c v -> cell_val w' c v.
Proof. intros Hp. destruct c, v; cbn; auto. Qed.

Lemma row_val_unchanged (w w' : World) (row : nat) (rowv : list (option Piece)) :
  unchanged w w' -> row_val w row rowv -> row_val w' row rowv.
Proof.
  intros (_ & _ & Hp & Hr & _) (cells & Hcells & Hv). exists cells.
  split; [auto|]. eapply Forall2_impl; [exact Hv|].
  intros c v. apply cell_val_pieces. exact Hp.
Qed.

Lemma grid_val_unchanged (w w' : World) (grid : nat) (b : Grid) :
  unchanged w w' -> grid_val w grid b -> grid_val w' grid b.
Proof.
  intros Hun (row_refs & Hrr & Hv). pose proof Hun as (_ & _ & _ & _ & Hg).
  exists row_refs. split; [auto|]. eapply Forall2_impl; [exact Hv|].
  intros row rowv. apply row_val_unchanged. exact Hun.
Qed.

Lemma scratch_grid_val n w sim b : scratch n w sim b -> grid_val w sim b.
Proof. intros (rr & H1 & _ & _ & H2). exists rr. auto. Qed.

(** *** A snapshot reads the value of a grid *)

Lemma snapshot_cell_val (w : World) (c : option nat) (v : option Piece) :
  snd (snapshot_cell c w) = Some v <-> cell_val w c v.
Proof.
  destruct c as [l|]; cbn [snapshot_cell].
  - rewrite bind_run. cbn [read_piece].
    destruct (pieces w !! l) as [p|] eqn:E; cbn.
    + destruct v as [q|]; [|split; [discriminate|intros []]].
      rewrite E. split; congruence.
    + destruct v as [q|]; [|split; [discriminate|intros []]].
      rewrite E. split; discriminate.
  - cbn. destruct v; split; try discriminate; auto. intros [].
Qed.

Lemma mapM_Forall2 {A B} (f : A -> M B) (l : list A) (w : World) (ys : list B) :
  (forall x, reader (f x)) ->
  snd (mapM f l w) = Some ys <-> Forall2 (fun x y => snd (f x w) = Some y) l ys.
Proof.
  intros Hr. revert ys. induction l as [|x l IH]; intros ys; cbn [mapM].
  - cbn. split.
    + intros [= <-]. constructor.
    + intros H. apply Forall2_nil_inv_l in H. subst. reflexivity.
  - rewrite bind_run, (run_reader (f x) w (Hr x)).
    destruct (snd (f x w)) as [y|] eqn:Ey.
    2:{ cbn. split; [discriminate|]. intros H. inversion H; congruence. }
    rewrite bind_run, (run_reader (mapM f l) w (reader_mapM f l Hr)).
    destruct (snd (mapM f l w)) as [zs|] eqn:Ezs; cbn.
    + split.
      * intros [= <-]. constructor; [exact Ey|]. apply IH. reflexivity.
      * intros H. inversion H as [|? y' ? zs' Hy Hzs]; subst.
        apply IH in Hzs. congruence.
    + split; [discriminate|]. intros H.
      inversion H as [|? y' ? zs' Hy Hzs]; subst. apply IH in Hzs. discriminate.
Qed.

Lemma snapshot_grid_val (w : World) (grid : nat) (b : Grid) :
  snd (snapshot grid w) = Some b <-> grid_val w grid b.
Proof.
  unfold snapshot, grid_val. rewrite bind_run. cbn [read_grid].
  destruct (grids w !! grid) as [row_refs|].
  2:{ cbn. split; [discriminate|]. intros (rr & [=] & _). }
  rewrite mapM_Forall2.
  2:{ intros row. apply reader_bind; [apply reader_read_row|].
      intros cells. apply reader_mapM, reader_snapshot_cell. }
  assert (Hrow : forall row rowv,
            snd ((cells ← read_row row; mapM snapshot_cell cells) w) = Some rowv
            <-> row_val w row rowv).
  { intros row rowv. rewrite bind_run. cbn [read_row]. unfold row_val.
    destruct (rows w !! row) as [cells|].
    2:{ cbn. split; [discriminate|]. intros (cs & [=] & _). }
    rewrite mapM_Forall2 by apply reader_snapshot_cell. split.
    - intros H. exists cells. split; [reflexivity|].
      eapply Forall2_impl; [exact H|]. intros c v. apply snapshot_cell_val.
    - intros (cs & [= <-] & H). eapply Forall2_impl; [exact H|].
      intros c v. apply snapshot_cell_val. }
  split.
  - intros H. exists row_refs. split; [reflexivity|].
    eapply Forall2_impl; [exact H|]. intros row rowv. apply Hrow.
  - intros (rr & [= <-] & H). eapply Forall2_impl; [exact H|].
    intros row rowv. apply Hrow.
Qed.

(** *** Reading and assigning a cell *)

Lemma load_cell_val (w : World) (grid : nat) (b : Grid) (r c : Z) :
  grid_val w grid b ->
  match snd (load_cell grid r c w), getitem2 b r c with
  | Some x, Some v => cell_val w x v
  | None, None => True
  | _, _ => False
  end.
Proof.
  intros (row_refs & Hrr & Hv). unfold load_cell, getitem2.
  rewrite bind_run. cbn [read_grid]. rewrite Hrr.
  rewrite bind_run. cbn [lift].
  pose proof (getitem_Forall2 _ row_refs b r Hv) as Hrow.
  destruct (getitem row_refs r) as [row|], (getitem b r) as [rowv|];
    cbn [mbind option_bind snd]; try contradiction; [|exact I].
  destruct Hrow as (cells & Hcells & Hcv).
  rewrite bind_run. cbn [read_row]. rewrite Hcells. cbn [lift snd].
  exact (getitem_Forall2 _ cells rowv c Hcv).
Qed.

Lemma store_cell_val (n : nat) (w : World) (sim : nat) (b : Grid) (r c : Z)
    (x : option nat) (v : option Piece) :
  scratch n w sim b -> cell_val w x v ->
  match snd (store_cell sim r c x w), setitem2 b r c v with
  | Some _, Some b' => scratch n (fst (store_cell sim r c x w)) sim b'
  | None, None => True
  | _, _ => False
  end.
Proof.
  intros (row_refs & Hrr & Hnd & Hfresh & Hv) Hx. unfold store_cell, setitem2.
  rewrite bind_run. cbn [read_grid]. rewrite Hrr.
  rewrite bind_run. cbn [lift].
  pose proof (getitem_Forall2 _ row_refs b r Hv) as Hrow.
  destruct (getitem row_refs r) as [row|] eqn:Eg, (getitem b r) as [rowv|] eqn:Eg';
    cbn [mbind option_bind snd] in *; try contradiction; [|exact I].
  destruct (getitem_Some _ _ _ Eg) as (i & Ei0 & Erow).
  destruct (getitem_Some _ _ _ Eg') as (i' & Ei & Erowv).
  rewrite (py_index_length row_refs b r (Forall2_length _ _ _ Hv)), Ei in Ei0.
  injection Ei0 as ->.
  destruct Hrow as (cells & Hcells & Hcv).
  rewrite bind_run. cbn [read_row]. rewrite Hcells.
  rewrite bind_run. cbn [lift].
  pose proof (setitem_Forall2 _ cells rowv c x v Hcv Hx) as Hset.
  destruct (setitem cells c x) as [cells'|], (setitem rowv c v) as [rowv'|];
    cbn [mbind option_bind snd]; try contradiction; [|exact I].
  unfold write_row, setitem. rewrite Ei. cbn [mbind option_bind].
  pose proof (lookup_lt_Some _ _ _ Hcells) as Hlt.
  apply Nat.ltb_lt in Hlt. rewrite Hlt. cbn [fst snd].
  exists row_refs. cbn [grids rows pieces]. split; [exact Hrr|].
  split; [exact Hnd|]. split; [exact Hfresh|].
  apply Forall2_same_length_lookup_2.
  { rewrite length_insert. eapply Forall2_length. exact Hv. }
  intros k row_k rowv_k Hk Hk'. unfold row_val. cbn [rows pieces].
  destruct (decide (k = i)) as [->|Hne].
  - rewrite Erow in Hk. injection Hk as <-.
    rewrite list_lookup_insert_eq in Hk' by (eapply lookup_lt_Some; exact Erowv).
    injection Hk' as <-. exists cells'. split; [|exact Hset].
    apply list_lookup_insert_eq. apply Nat.ltb_lt. exact Hlt.
  - rewrite list_lookup_insert_ne in Hk' by auto.
    destruct (Forall2_lookup_lr _ _ _ _ _ _ Hv Hk Hk') as (cs & Hcs & Hcsv).
    exists cs. split; [|exact Hcsv].
    rewrite list_lookup_insert_ne; [exact Hcs|].
    intros ->. apply Hne. symmetry. eapply NoDup_lookup; eauto.
Qed.
(** *** The shallow copy *)

Lemma list_of_8 {A} (d : A) (l : list A) :
  length l = 8%nat -> map (fun i => nth (Z.to_nat i) l d) range8 = l.
Proof.
  intros H. do 8 (destruct l as [|? l]; [discriminate H|]).
  destruct l; [reflexivity|discriminate H].
Qed.

Lemma rows_of_8x8 (b : Grid) :
  grid_8x8 b -> map (fun r => nth (Z.to_nat r) b []) range8 = b.
Proof. intros [H _]. apply list_of_8. exact H. Qed.

Lemma cells_of_row (b : Grid) (r : Z) :
  grid_8x8 b -> 0 <= r <= 7 -> map (cell b r) range8 = nth (Z.to_nat r) b [].
Proof.
  intros Hb Hr. unfold cell. apply list_of_8.
  apply (row_in_bounds b Hb r 0). apply in_bounds_true. lia.
Qed.

Lemma unchanged_alloc_row cells w : unchanged w (fst (alloc_row cells w)).
Proof. apply frame_unchanged, frame_alloc_row. Qed.

Lemma unchanged_alloc_grid row_refs w : unchanged w (fst (alloc_grid row_refs w)).
Proof. apply frame_unchanged, frame_alloc_grid. Qed.

Lemma unchanged_alloc_piece p w : unchanged w (fst (alloc_piece p w)).
Proof. apply frame_unchanged, frame_alloc_piece. Qed.

(** A loop that keeps an invariant and yields related results. *)
Lemma mapM_inv {A B C} (I : World -> Prop) (R : World -> B -> C -> Prop)
    (f : A -> M B) (g : A -> C) (l : list A) :
  (forall w w' y c, unchanged w w' -> R w y c -> R w' y c) ->
  (forall x w, In x l -> I w ->
     exists y, snd (f x w) = Some y
               /\ unchanged w (fst (f x w))
               /\ I (fst (f x w))
               /\ R (fst (f x w)) y (g x)) ->
  forall w, I w ->
    exists ys, snd (mapM f l w) = Some ys
               /\ unchanged w (fst (mapM f l w))
               /\ I (fst (mapM f l w))
               /\ Forall2 (R (fst (mapM f l w))) ys (map g l).
Proof.
  intros HR. induction l as [|x l IH]; intros Hf w HI; cbn [mapM map].
  - exists []. cbn. repeat split; auto.
  - destruct (Hf x w (or_introl eq_refl) HI) as (y & Ey & Hun & HI1 & Hy).
    rewrite bind_run. destruct (f x w) as [w1 o]. cbn [fst snd] in *. subst o.
    destruct (IH (fun x' w' Hin => Hf x' w' (or_intror Hin)) w1 HI1)
      as (ys & Eys & Hun2 & HI2 & Hys).
    rewrite bind_run. destruct (mapM f l w1) as [w2 o]. cbn [fst snd] in *. subst o.
    exists (y :: ys). cbn. split; [reflexivity|].
    split; [eapply unchanged_trans; eauto|]. split; [exact HI2|].
    constructor; [eapply HR; eauto|exact Hys].
Qed.

Lemma copy_rows_val (w : World) (live : nat) (b : Grid) :
  grid_val w live b -> grid_8x8 b ->
  exists orig, snd (copy_rows live w) = Some orig
               /\ grid_val (fst (copy_rows live w)) orig b.
Proof.
  intros Hlive Hb. unfold copy_rows.
  destruct (mapM_inv (fun w => grid_val w live b) row_val
              (fun r => cells ← mapM (fun c => load_cell live r c) range8;
                        alloc_row cells)
              (fun r => nth (Z.to_nat r) b []) range8) with (w := w)
    as (row_refs & Err & Hun & Hlive' & Hrows).
  - intros w1 w2 row rowv. apply row_val_unchanged.
  - intros r w1 Hr Hw1. apply In_range8 in Hr.
    destruct (mapM_inv (fun w => w = w1) (fun w x v => cell_val w1 x v)
                (fun c => load_cell live r c) (cell b r) range8) with (w := w1)
      as (cells & Ecells & _ & Hw & Hcells).
    + auto.
    + intros c w2 Hc ->. apply In_range8 in Hc.
      pose proof (load_cell_val w1 live b r c Hw1) as H.
      rewrite (getitem2_in_bounds b Hb r c) in H by (apply in_bounds_true; lia).
      rewrite (reader_load_cell live r c w1).
      destruct (snd (load_cell live r c w1)) as [x|]; [|contradiction].
      exists x. repeat split; auto.
    + reflexivity.
    + rewrite (cells_of_row b r Hb Hr) in Hcells.
      rewrite bind_run. destruct (mapM _ range8 w1) as [w2 o].
      cbn [fst snd] in *. subst o w2.
      exists (length (rows w1)). split; [reflexivity|].
      split; [apply unchanged_alloc_row|].
      split; [eapply grid_val_unchanged; [apply unchanged_alloc_row|exact Hw1]|].
      exists cells. cbn [alloc_row fst rows pieces]. split.
      * apply list_lookup_middle. reflexivity.
      * exact Hcells.
  - exact Hlive.
  - rewrite (rows_of_8x8 b Hb) in Hrows.
    rewrite bind_run. destruct (mapM _ range8 w) as [w1 o].
    cbn [fst snd] in *. subst o.
    exists (length (grids w1)). split; [reflexivity|].
    exists row_refs. cbn [alloc_grid fst grids]. split.
    + apply list_lookup_middle. reflexivity.
    + eapply Forall2_impl; [exact Hrows|]. intros row rowv.
      apply row_val_unchanged. apply (unchanged_alloc_grid row_refs w1).
Qed.
(** *** The deep copy *)

Lemma memo_ok_unchanged (w w' : World) (memo : list (nat * nat)) :
  unchanged w w' -> memo_ok w memo -> memo_ok w' memo.
Proof.
  intros (_ & _ & Hp & _) Hm l l' Hl. destruct (Hm l l' Hl) as (p & H1 & H2).
  exists p. auto.
Qed.

Lemma deepcopy_cell_val (w : World) (memo : list (nat * nat)) (c : option nat)
    (v : option Piece) :
  memo_ok w memo -> cell_val w c v ->
  exists w' memo' c',
    deepcopy_cell memo c w = (w', Some (memo', c'))
    /\ unchanged w w' /\ rows w' = rows w /\ grids w' = grids w
    /\ memo_ok w' memo' /\ cell_val w' c' v.
Proof.
  intros Hm Hc. destruct c as [l|], v as [p|]; cbn in Hc; try contradiction.
  2:{ exists w, memo, None. cbn. repeat split; auto. }
  cbn [deepcopy_cell]. destruct (memo_find l memo) as [l'|] eqn:Ef.
  - exists w, memo, (Some l'). cbn. repeat split; auto.
    destruct (Hm l l' Ef) as (q & H1 & H2). congruence.
  - rewrite bind_run. cbn [read_piece]. rewrite Hc. rewrite bind_run.
    cbn [alloc_piece mret M_ret].
    eexists _, _, _. split; [reflexivity|].
    split; [apply (unchanged_alloc_piece p w)|]. cbn [rows grids pieces].
    split; [reflexivity|]. split; [reflexivity|]. split.
    + intros x x'. cbn [memo_find]. destruct (l =? x)%nat eqn:E.
      * apply Nat.eqb_eq in E. subst x. intros [= <-]. exists p. split.
        -- apply lookup_app_l_Some. exact Hc.
        -- apply list_lookup_middle. reflexivity.
      * intros Hx. destruct (Hm x x' Hx) as (q & H1 & H2). exists q.
        split; apply lookup_app_l_Some; assumption.
    + cbn. apply list_lookup_middle. reflexivity.
Qed.

Lemma deepcopy_cells_val (w : World) (memo : list (nat * nat))
    (cells : list (option nat)) (rowv : list (option Piece)) :
  memo_ok w memo -> Forall2 (cell_val w) cells rowv ->
  exists w' memo' cells',
    deepcopy_cells memo cells w = (w', Some (memo', cells'))
    /\ unchanged w w' /\ rows w' = rows w /\ grids w' = grids w
    /\ memo_ok w' memo' /\ Forall2 (cell_val w') cells' rowv.
Proof.
  intros Hm Hv. revert w memo rowv Hm Hv.
  induction cells as [|c cells IH]; intros w memo rowv Hm Hv.
  - apply Forall2_nil_inv_l in Hv. subst rowv.
    exists w, memo, []. cbn. repeat split; auto.
  - inversion Hv as [|? v ? rest Hc Hrest]; subst. cbn [deepcopy_cells].
    destruct (deepcopy_cell_val w memo c v Hm Hc)
      as (w1 & memo1 & c' & E1 & Hun1 & Hr1 & Hg1 & Hm1 & Hc1).
    rewrite bind_run, E1.
    assert (Hrest1 : Forall2 (cell_val w1) cells rest).
    { eapply Forall2_impl; [exact Hrest|]. intros x y.
      apply cell_val_pieces. apply Hun1. }
    destruct (IH w1 memo1 rest Hm1 Hrest1)
      as (w2 & memo2 & cells' & E2 & Hun2 & Hr2 & Hg2 & Hm2 & Hc2).
    rewrite bind_run, E2. cbn [mret M_ret].
    exists w2, memo2, (c' :: cells'). split; [reflexivity|].
    split; [eapply unchanged_trans; eauto|].
    split; [congruence|]. split; [congruence|]. split; [exact Hm2|].
    constructor; [|exact Hc2]. eapply cell_val_pieces; [|exact Hc1]. apply Hun2.
Qed.

Lemma deepcopy_rows_val (w : World) (memo : list (nat * nat))
    (row_refs : list nat) (b : Grid) :
  memo_ok w memo -> Forall2 (row_val w) row_refs b ->
  exists w' memo' row_refs',
    deepcopy_rows memo row_refs w = (w', Some (memo', row_refs'))
    /\ unchanged w w' /\ grids w' = grids w
    /\ (length (rows w) <= length (rows w'))%nat
    /\ memo_ok w' memo'
    /\ Forall2 (row_val w') row_refs' b
    /\ Forall (fun l => (length (rows w) <= l)%nat) row_refs'
    /\ NoDup row_refs'.
Proof.
  intros Hm Hv. revert w memo b Hm Hv.
  induction row_refs as [|row rest IH]; intros w memo b Hm Hv.
  - apply Forall2_nil_inv_l in Hv. subst b.
    exists w, memo, []. cbn. repeat split; auto; constructor.
  - inversion Hv as [|? rowv ? bt Hrow Hrest]; subst. cbn [deepcopy_rows].
    destruct Hrow as (cells & Ecells & Hcells).
    rewrite bind_run. cbn [read_row]. rewrite Ecells.
    destruct (deepcopy_cells_val w memo cells rowv Hm Hcells)
      as (w1 & memo1 & cells' & E1 & Hun1 & Hr1 & Hg1 & Hm1 & Hc1).
    rewrite bind_run, E1. rewrite bind_run. cbn [alloc_row].
    set (w2 := mkWorld (pieces w1) (rows w1 ++ [cells']) (grids w1)
                 (board_ref w1) (fields w1)).
    assert (Hun12 : unchanged w1 w2) by apply (unchanged_alloc_row cells' w1).
    assert (Hun2 : unchanged w w2) by (eapply unchanged_trans; eauto).
    assert (Hrest2 : Forall2 (row_val w2) rest bt).
    { eapply Forall2_impl; [exact Hrest|]. intros x y.
      apply row_val_unchanged. exact Hun2. }
    destruct (IH w2 memo1 bt (memo_ok_unchanged _ _ _ Hun12 Hm1) Hrest2)
      as (w3 & memo2 & rest' & E3 & Hun3 & Hg3 & Hlen3 & Hm3 & Hv3 & Hfresh3 & Hnd3).
    rewrite bind_run, E3. cbn [mret M_ret].
    assert (Hlen2 : length (rows w2) = S (length (rows w))).
    { unfold w2. cbn [rows]. rewrite length_app, Hr1. cbn. lia. }
    exists w3, memo2, (length (rows w1) :: rest'). split; [reflexivity|].
    split; [eapply unchanged_trans; eauto|].
    split; [rewrite Hg3; unfold w2; cbn [grids]; exact Hg1|].
    split; [lia|]. split; [exact Hm3|]. rewrite Hr1.
    split; [|split].
    + constructor; [|exact Hv3]. eapply row_val_unchanged; [exact Hun3|].
      exists cells'. unfold w2. cbn [rows pieces]. split.
      * rewrite <- Hr1. apply list_lookup_middle. reflexivity.
      * exact Hc1.
    + constructor; [lia|]. eapply Forall_impl; [exact Hfresh3|].
      intros l Hl. cbv beta in Hl. lia.
    + constructor; [|exact Hnd3]. intros Hin.
      rewrite List.Forall_forall in Hfresh3.
      apply list_elem_of_In in Hin. apply Hfresh3 in Hin. lia.
Qed.

Lemma deepcopy_val (n : nat) (w : World) (orig : nat) (b : Grid) :
  (n <= length (rows w))%nat -> grid_val w orig b ->
  exists sim, snd (deepcopy orig w) = Some sim
              /\ scratch n (fst (deepcopy orig w)) sim b.
Proof.
  intros Hn (row_refs & Err & Hv). unfold deepcopy.
  rewrite bind_run. cbn [read_grid]. rewrite Err.
  assert (Hm : memo_ok w []) by (intros l l' [=]).
  destruct (deepcopy_rows_val w [] row_refs b Hm Hv)
    as (w1 & memo' & rr' & E & Hun & Hg & Hlen & _ & Hv1 & Hfresh & Hnd).
  rewrite bind_run, E. cbn [alloc_grid fst snd].
  exists (length (grids w1)). split; [reflexivity|].
  exists rr'. cbn [grids]. split; [apply list_lookup_middle; reflexivity|].
  split; [exact Hnd|]. split.
  - eapply Forall_impl; [exact Hfresh|]. intros l Hl. cbn in Hl. lia.
  - eapply Forall2_impl; [exact Hv1|]. intros row rowv.
    apply row_val_unchanged. apply (unchanged_alloc_grid rr' w1).
Qed.
(** *** One step of the simulation, in both models *)

Lemma load_step (w : World) (grid : nat) (bs : Grid) (r c : Z) :
  grid_val w grid bs ->
  (load_cell grid r c w = (w, None) /\ getitem2 bs r c = None)
  \/ (exists x v, load_cell grid r c w = (w, Some x)
                  /\ getitem2 bs r c = Some v /\ cell_val w x v).
Proof.
  intros H. pose proof (load_cell_val w grid bs r c H) as Hl.
  rewrite (run_reader _ w (reader_load_cell grid r c)).
  destruct (snd (load_cell grid r c w)) as [x|], (getitem2 bs r c) as [v|];
    try contradiction; [right; exists x, v; auto|left; auto].
Qed.

Lemma scratch_fresh n w sim bs : scratch n w sim bs -> fresh_grid n sim w.
Proof. intros (rr & H1 & _ & H2 & _). exists rr. auto. Qed.

Lemma store_step (n : nat) (w : World) (sim : nat) (bs : Grid) (r c : Z)
    (x : option nat) (v : option Piece) :
  scratch n w sim bs -> cell_val w x v ->
  exists w',
    frame n w w'
    /\ ((store_cell sim r c x w = (w', None) /\ setitem2 bs r c v = None)
        \/ (exists bs', store_cell sim r c x w = (w', Some tt)
                        /\ setitem2 bs r c v = Some bs'
                        /\ scratch n w' sim bs')).
Proof.
  intros Hs Hx. pose proof (store_cell_val n w sim bs r c x v Hs Hx) as H.
  pose proof (frame_store_cell n sim r c x w (scratch_fresh _ _ _ _ Hs)) as Hf.
  destruct (store_cell sim r c x w) as [w' [[]|]]; cbn [fst snd] in *;
    exists w'; (split; [exact Hf|]);
    destruct (setitem2 bs r c v) as [bs'|]; try contradiction.
  - right. exists bs'. auto.
  - left. auto.
Qed.

Lemma frame_pieces n w w' x v : frame n w w' -> cell_val w x v -> cell_val w' x v.
Proof. intros (_ & _ & Hp & _). apply cell_val_pieces. exact Hp. Qed.

Section Simulation.
Variables (w0 : World) (b : Grid) (clr : Color).
Hypothesis Hlive : grid_val w0 (board_ref w0) b.
Hypothesis Hb : grid_8x8 b.

Let n := length (rows w0).
Let g := to_value (fields w0) b.

Lemma inv_live (w : World) :
  frame n w0 w ->
  board_ref w = board_ref w0 /\ fields w = fields w0
  /\ grid_val w (board_ref w0) b /\ (n <= length (rows w))%nat.
Proof.
  intros Hf. pose proof (frame_unchanged w0 w Hf) as Hun.
  destruct Hf as (H1 & H2 & _ & _ & H3 & _).
  repeat split; auto. eapply grid_val_unchanged; eauto.
Qed.

Lemma self_value_inv (w : World) : frame n w0 w -> self_value w = (w, Some g).
Proof.
  intros Hf. destruct (inv_live w Hf) as (Href & Hfs & Hg & _).
  unfold self_value. rewrite bind_run. cbn [gets]. rewrite Href.
  rewrite bind_run, (run_reader _ w (reader_snapshot _)).
  rewrite (proj2 (snapshot_grid_val w (board_ref w0) b) Hg).
  rewrite bind_run. cbn [gets mret M_ret]. rewrite Hfs. reflexivity.
Qed.

Lemma sim_castling_refines (w : World) (sim : nat) (bs : Grid)
    (from_sq to_sq : Square) (piece : Piece) :
  frame n w0 w -> scratch n w sim bs ->
  exists w' rh,
    Heap.sim_castling clr from_sq to_sq piece sim w = (w', rh)
    /\ frame n w w'
    /\ match rh, value_sim_castling g clr from_sq to_sq piece bs with
       | None, None => True
       | Some false, Some SimSkip => True
       | Some true, Some (SimBoard bs') => scratch n w' sim bs'
       | _, _ => False
       end.
Proof.
  intros Hf Hs. unfold Heap.sim_castling, value_sim_castling.
  destruct (kind_eqb (kind piece) King && _).
  2:{ exists w, (Some true). split; [reflexivity|]. split; [apply frame_refl|exact Hs]. }
  rewrite bind_run, (self_value_inv w Hf).
  destruct (negb (can_castle g clr _ (board g) true)).
  { exists w, (Some false). split; [reflexivity|]. split; [apply frame_refl|exact I]. }
  rewrite bind_run.
  destruct (load_step w sim bs (fst from_sq)
              (if snd to_sq <? snd from_sq then 0 else 7) (scratch_grid_val _ _ _ _ Hs))
    as [[-> ->]|(x & v & -> & -> & Hx)]; cbn [mbind option_bind].
  { exists w, None. split; [reflexivity|]. split; [apply frame_refl|exact I]. }
  rewrite bind_run.
  destruct (store_step n w sim bs (fst from_sq)
              (snd from_sq + (if snd to_sq >? snd from_sq then 1 else -1)) x v Hs Hx)
    as (w1 & Hf1 & [[-> ->]|(bs1 & -> & -> & Hs1)]); cbn [mbind option_bind].
  { exists w1, None. split; [reflexivity|]. split; [exact Hf1|exact I]. }
  rewrite bind_run.
  destruct (store_step n w1 sim bs1 (fst from_sq)
              (if snd to_sq <? snd from_sq then 0 else 7) None None Hs1 I)
    as (w2 & Hf2 & [[-> ->]|(bs2 & -> & -> & Hs2)]); cbn [mbind option_bind].
  { exists w2, None. split; [reflexivity|].
    split; [eapply frame_trans; eauto|exact I]. }
  exists w2, (Some true). split; [reflexivity|].
  split; [eapply frame_trans; eauto|exact Hs2].
Qed.
Lemma sim_en_passant_refines (w : World) (sim : nat) (bs : Grid)
    (from_sq to_sq : Square) (piece : Piece) :
  frame n w0 w -> scratch n w sim bs ->
  exists w' rh,
    Heap.sim_en_passant from_sq to_sq piece sim w = (w', rh)
    /\ frame n w w'
    /\ agree n w' sim rh (value_sim_en_passant g from_sq to_sq piece bs).
Proof.
  intros Hf Hs. unfold Heap.sim_en_passant, value_sim_en_passant.
  destruct (inv_live w Hf) as (_ & Hfs & _).
  rewrite bind_run. cbn [gets]. rewrite Hfs.
  change (f_en_passant_target (fields w0)) with (en_passant_target g).
  destruct (kind_eqb (kind piece) Pawn && _ && _).
  2:{ exists w, (Some tt). split; [reflexivity|]. split; [apply frame_refl|exact Hs]. }
  rewrite bind_run.
  destruct (load_step w sim bs (fst to_sq) (snd to_sq) (scratch_grid_val _ _ _ _ Hs))
    as [[-> ->]|(x & v & -> & -> & Hx)]; cbn [mbind option_bind].
  { exists w, None. split; [reflexivity|]. split; [apply frame_refl|exact I]. }
  assert (Hnone : is_none x = is_none v)
    by (destruct x, v; cbn in Hx; try contradiction; reflexivity).
  rewrite Hnone. destruct (is_none v).
  2:{ exists w, (Some tt). split; [reflexivity|]. split; [apply frame_refl|exact Hs]. }
  destruct (store_step n w sim bs (fst from_sq) (snd to_sq) None None Hs I)
    as (w1 & Hf1 & [[-> ->]|(bs1 & -> & -> & Hs1)]).
  - exists w1, None. split; [reflexivity|]. split; [exact Hf1|exact I].
  - exists w1, (Some tt). split; [reflexivity|]. split; [exact Hf1|exact Hs1].
Qed.

Lemma simulate_move_refines (w : World) (from_sq to_sq : Square) :
  frame n w0 w ->
  exists w' oh,
    Heap.simulate_move clr from_sq to_sq w = (w', oh)
    /\ frame n w w'
    /\ outcome_val w' n oh (value_simulate_move g clr from_sq to_sq).
Proof.
  intros Hf. unfold Heap.simulate_move, value_simulate_move.
  destruct (inv_live w Hf) as (Href & _ & Hg & Hn).
  rewrite bind_run. cbn [gets]. rewrite Href.
  (* the shallow copy *)
  destruct (copy_rows_val w (board_ref w0) b Hg Hb) as (orig & E1 & Horig).
  pose proof (framer_copy_rows n (board_ref w0) w) as Hf1.
  rewrite bind_run. destruct (copy_rows (board_ref w0) w) as [w1 o1].
  cbn [fst snd] in *. subst o1.
  (* the deep copy *)
  destruct (deepcopy_val n w1 orig b (frame_length _ _ _ Hf1 Hn) Horig)
    as (sim & E2 & Hs).
  pose proof (framer_deepcopy n orig w1) as Hf2.
  rewrite bind_run. destruct (deepcopy orig w1) as [w2 o2].
  cbn [fst snd] in *. subst o2.
  assert (Hf02 : frame n w0 w2) by (eapply frame_trans; [|exact Hf2];
                                    eapply frame_trans; eauto).
  assert (Hfw2 : frame n w w2) by (eapply frame_trans; eauto).
  change (board g) with b.
  rewrite bind_run.
  destruct (load_step w2 sim b (fst from_sq) (snd from_sq) (scratch_grid_val _ _ _ _ Hs))
    as [[-> ->]|(x & v & -> & -> & Hx)]; cbn [mbind option_bind].
  { exists w2, None. split; [reflexivity|]. split; [exact Hfw2|exact I]. }
  destruct x as [piece_ref|], v as [piece|]; cbn in Hx; try contradiction.
  2:{ exists w2, (Some Skipped). split; [reflexivity|]. split; [exact Hfw2|exact I]. }
  rewrite bind_run. cbn [read_piece]. rewrite Hx.
  (* castling *)
  destruct (sim_castling_refines w2 sim b from_sq to_sq piece Hf02 Hs)
    as (w3 & rh & E3 & Hf3 & Hcastle).
  rewrite bind_run, E3.
  destruct rh as [[|]|], (value_sim_castling g clr from_sq to_sq piece b)
    as [[|bs1]|]; try contradiction; cbn [mbind option_bind negb].
  2:{ exists w3, (Some Skipped). split; [reflexivity|].
      split; [eapply frame_trans; eauto|exact I]. }
  2:{ exists w3, None. split; [reflexivity|].
      split; [eapply frame_trans; eauto|exact I]. }
  (* en passant *)
  assert (Hf03 : frame n w0 w3) by (eapply frame_trans; eauto).
  destruct (sim_en_passant_refines w3 sim bs1 from_sq to_sq piece Hf03 Hcastle)
    as (w4 & rh & E4 & Hf4 & Hep).
  rewrite bind_run, E4.
  destruct rh as [[]|], (value_sim_en_passant g from_sq to_sq piece bs1)
    as [bs2|]; try contradiction; cbn [mbind option_bind].
  2:{ exists w4, None. split; [reflexivity|]. split; [|exact I].
      eapply frame_trans; [|exact Hf4]. eapply frame_trans; eauto. }
  (* the move itself *)
  assert (Hpiece : cell_val w4 (Some piece_ref) (Some piece)).
  { eapply frame_pieces; [exact Hf4|]. eapply frame_pieces; [exact Hf3|]. exact Hx. }
  rewrite bind_run.
  destruct (store_step n w4 sim bs2 (fst to_sq) (snd to_sq) _ _ Hep Hpiece)
    as (w5 & Hf5 & [[-> ->]|(bs3 & -> & -> & Hs5)]); cbn [mbind option_bind].
  { exists w5, None. split; [reflexivity|]. split; [|exact I].
    eapply frame_trans; [|exact Hf5]. eapply frame_trans; [|exact Hf4].
    eapply frame_trans; eauto. }
  rewrite bind_run.
  destruct (store_step n w5 sim bs3 (fst from_sq) (snd from_sq) None None Hs5 I)
    as (w6 & Hf6 & [[-> ->]|(bs4 & -> & -> & Hs6)]); cbn [mbind option_bind].
  { exists w6, None. split; [reflexivity|]. split; [|exact I].
    eapply frame_trans; [|exact Hf6]. eapply frame_trans; [|exact Hf5].
    eapply frame_trans; [|exact Hf4]. eapply frame_trans; eauto. }
  exists w6, (Some (Simulated sim)). split; [reflexivity|]. split; [|exact Hs6].
  eapply frame_trans; [|exact Hf6]. eapply frame_trans; [|exact Hf5].
  eapply frame_trans; [|exact Hf4]. eapply frame_trans; eauto.
Qed.

Lemma filter_legal_refines (raw : list Move) (w : World) :
  frame n w0 w ->
  exists w',
    Heap.filter_legal clr raw w = (w', value_filter_legal g clr raw)
    /\ frame n w w'.
Proof.
  revert w. induction raw as [|[f t] raw IH]; intros w Hf;
    cbn [Heap.filter_legal value_filter_legal].
  - exists w. split; [reflexivity|apply frame_refl].
  - destruct (simulate_move_refines w f t Hf) as (w1 & oh & E1 & Hf1 & Ho).
    rewrite bind_run, E1.
    assert (Hf01 : frame n w0 w1) by (eapply frame_trans; eauto).
    destruct oh as [[|sim]|], (value_simulate_move g clr f t) as [[|bs]|];
      cbn in Ho; try contradiction; cbn [mbind option_bind].
    + rewrite bind_run. cbn [mret M_ret].
      destruct (IH w1 Hf01) as (w2 & E2 & Hf2). rewrite bind_run, E2.
      exists w2. split; [|eapply frame_trans; eauto].
      destruct (value_filter_legal g clr raw); reflexivity.
    + rewrite bind_run, bind_run, (run_reader _ w1 (reader_snapshot sim)).
      rewrite (proj2 (snapshot_grid_val w1 sim bs) (scratch_grid_val _ _ _ _ Ho)).
      cbn [mret M_ret].
      destruct (IH w1 Hf01) as (w2 & E2 & Hf2). rewrite bind_run, E2.
      exists w2. split; [|eapply frame_trans; eauto].
      destruct (value_filter_legal g clr raw); cbn [mbind option_bind];
        [|reflexivity].
      destruct (negb (is_in_check clr bs)); reflexivity.
    + exists w1. split; [reflexivity|exact Hf1].
Qed.

Lemma legal_moves_refine_val :
  snd (Heap.get_all_legal_moves_for_player clr w0) = value_legal_moves g clr.
Proof.
  unfold Heap.get_all_legal_moves_for_player, value_legal_moves.
  rewrite bind_run, (self_value_inv w0 (frame_refl n w0)).
  destruct (filter_legal_refines
              (get_all_possible_moves_for_player g clr None true) w0
              (frame_refl n w0)) as (w' & -> & _).
  reflexivity.
Qed.
End Simulation.

(** X5: [get_all_legal_moves_for_player] run over the store of piece, row
    and grid objects, with its shallow copy, its deep copy and the writes
    into the deep copy, returns what the by-value function returns on the
    8x8 grid of values the game object refers to, exception for exception. *)
Theorem legal_moves_refine (w : World) (b : Grid) (clr : Color) :
  snd (snapshot (board_ref w) w) = Some b ->
  grid_8x8 b ->
  snd (Heap.get_all_legal_moves_for_player clr w)
  = value_legal_moves (to_value (fields w) b) clr.
Proof.
  intros Hsnap Hb. apply legal_moves_refine_val; [|exact Hb].
  apply snapshot_grid_val. exact Hsnap.
Qed.

Lemma legal_moves_refine_witness :
  snd (Heap.get_all_legal_moves_for_player W (load_game after_e4))
  = value_legal_moves (to_value (fields (load_game after_e4)) (board after_e4)) W.
Proof.
  apply (legal_moves_refine (load_game after_e4) (board after_e4) W).
  - vm_compute. reflexivity.
  - split; [reflexivity|]. repeat constructor.
Defined.
End HeapRefinement.
